(** * claude-wrapped: the local text-generation pipeline of [ai.js]

    A shallow embedding of [src/ai.js]: the backend handle ([loadModel]),
    the output normaliser inside [generate], the word-repetition filter
    [hasWordRepetition], the two retry controllers [generatePoem] and
    [generatePredictions], and the template fallbacks
    [getFallbackPredictions] and [getFallbackPoem].

    Conventions.
    - A JavaScript string is the list of its UTF-16 code units.
    - The Unicode case tables behind [String.prototype.toLowerCase] and
      [toUpperCase] are not part of the repository; they are taken as an
      interface ([CaseTables]) and every general theorem holds for any
      implementation of it.  [BasicLatin] is the instance used to run the
      code on ASCII inputs, where it coincides with the browser's tables.
    - The only number read is the message counter of the profile; the
      counters modelled are those whose double is a safe integer.
    - [console.log] / [console.error] and the progress observer are
      diagnostics with no influence on results; they are not modelled.
    - The module-level variables [generator], [modelLoading], [modelReady]
      are an explicit state threaded through a state-and-exception monad;
      the external model runtime is an oracle indexed by call number. *)

From Stdlib Require Import NArith String Ascii.
From stdpp Require Import base option list gmap.

Local Open Scope N_scope.
Local Open Scope nat_scope.

(** ** JavaScript strings *)

Module JsString.

Definition jsstring := list N.

Definition lit (s : string) : jsstring :=
  List.map N_of_ascii (list_ascii_of_string s).

Definition str_eqb (a b : jsstring) : bool := bool_decide (a = b).

(** [WhiteSpace] and [LineTerminator] code units: the set matched by
    [\s] and stripped by [trim]. *)
Definition is_ws (c : N) : bool :=
  ((9 <=? c) && (c <=? 13))%N
  || (c =? 32)%N || (c =? 160)%N || (c =? 5760)%N
  || ((8192 <=? c) && (c <=? 8202))%N
  || (c =? 8232)%N || (c =? 8233)%N || (c =? 8239)%N || (c =? 8287)%N
  || (c =? 12288)%N || (c =? 65279)%N.

(** Line terminators, the code units [.] does not match. *)
Definition is_line_terminator (c : N) : bool :=
  (c =? 10)%N || (c =? 13)%N || (c =? 8232)%N || (c =? 8233)%N.

Definition is_digit (c : N) : bool := ((48 <=? c) && (c <=? 57))%N.

Fixpoint trim_start (s : jsstring) : jsstring :=
  match s with
  | c :: s' => if is_ws c then trim_start s' else s
  | [] => []
  end.

Definition trim_end (s : jsstring) : jsstring := rev (trim_start (rev s)).

Definition trim (s : jsstring) : jsstring := trim_end (trim_start s).

(** [s.split(c)] for a one-character separator. *)
Fixpoint split_go (sep : N) (cur : jsstring) (s : jsstring) : list jsstring :=
  match s with
  | [] => [cur]
  | c :: s' =>
      if (c =? sep)%N then cur :: split_go sep [] s'
      else split_go sep (cur ++ [c]) s'
  end.

Definition split (sep : N) (s : jsstring) : list jsstring := split_go sep [] s.

(** [s.split(/\s+/)]: the separators are the maximal runs of white space. *)
Fixpoint split_ws_go (in_sep : bool) (cur : jsstring) (s : jsstring)
  : list jsstring :=
  match s with
  | [] => [cur]
  | c :: s' =>
      if is_ws c then
        if in_sep then split_ws_go true cur s'
        else cur :: split_ws_go true [] s'
      else split_ws_go false (cur ++ [c]) s'
  end.

Definition split_ws (s : jsstring) : list jsstring := split_ws_go false [] s.

(** [parts.join(sep)] on an array of strings. *)
Fixpoint join (sep : jsstring) (parts : list jsstring) : jsstring :=
  match parts with
  | [] => []
  | [p] => p
  | p :: rest => p ++ sep ++ join sep rest
  end.

(** [s.charAt(0)] and [s.slice(1)]. *)
Definition charAt0 (s : jsstring) : jsstring := take 1 s.
Definition slice1 (s : jsstring) : jsstring := drop 1 s.

(** The decimal digits of a non-negative integer. *)
Fixpoint digits_go (fuel : nat) (n : N) (acc : jsstring) : jsstring :=
  match fuel with
  | O => acc
  | S f =>
      let acc' := (48 + n mod 10)%N :: acc in
      if (n <? 10)%N then acc' else digits_go f (n / 10)%N acc'
  end.

Definition decimal (n : N) : jsstring :=
  digits_go (S (N.to_nat (N.log2 n))) n [].

(** The integers from 0 to [Number.MAX_SAFE_INTEGER].  A Number holds
    each of them exactly, and [String(n)] and template literals print
    its decimal digits.  A larger integer is rounded to a double and
    printed from the shortest digits that identify the double; such
    numbers are outside this type. *)
Definition MAX_SAFE_INTEGER : N := (2 ^ 53 - 1)%N.

Record SafeInteger := {
  int_value : N;
  int_safe : (int_value <=? MAX_SAFE_INTEGER)%N = true;
}.

Definition number_to_string (n : SafeInteger) : jsstring :=
  decimal (int_value n).

Definition ascii_lower (c : N) : N :=
  if ((65 <=? c) && (c <=? 90))%N then (c + 32)%N else c.
Definition ascii_upper (c : N) : N :=
  if ((97 <=? c) && (c <=? 122))%N then (c - 32)%N else c.

Definition is_ascii (s : jsstring) : Prop := Forall (fun c => (c < 128)%N) s.

(** The case mappings of the host: whole-string functions, because the
    Unicode mappings are neither one-to-one on code units nor
    length-preserving.  Two facts about them are used: on ASCII text they
    are the ASCII mappings, and a mapping expands a string at most
    threefold. *)
Class CaseTables := {
  toLowerCase : jsstring -> jsstring;
  toUpperCase : jsstring -> jsstring;
  toLowerCase_ascii :
    forall s, is_ascii s -> toLowerCase s = List.map ascii_lower s;
  toUpperCase_ascii :
    forall s, is_ascii s -> toUpperCase s = List.map ascii_upper s;
  toLowerCase_length : forall s, length (toLowerCase s) <= 3 * length s;
  toUpperCase_length : forall s, length (toUpperCase s) <= 3 * length s;
}.

(** The tables restricted to Basic Latin (exact for code units below 128). *)
Definition BasicLatin : CaseTables :=
  {| toLowerCase := List.map ascii_lower;
     toUpperCase := List.map ascii_upper;
     toLowerCase_ascii := fun _ _ => eq_refl;
     toUpperCase_ascii := fun _ _ => eq_refl;
     toLowerCase_length := fun s =>
       ltac:(rewrite length_map; lia);
     toUpperCase_length := fun s =>
       ltac:(rewrite length_map; lia) |}.

End JsString.
Export JsString.

(** ** Regular expressions

    The regular expressions of [ai.js] are written as terms of [regex] and
    run by a backtracking matcher with the priorities of the JavaScript
    engine: alternatives left to right, greedy quantifiers, and no empty
    iteration of a star. *)

Module Regex.

Inductive regex :=
| Eps
| Cls (p : N -> bool)             (* one code unit satisfying [p] *)
| Seq (r1 r2 : regex)
| Alt (r1 r2 : regex)
| Star (r : regex)                (* greedy [r*] *)
| Eos.                            (* [$] without the [m] flag *)

Definition Plus (r : regex) : regex := Seq r (Star r).
Definition Opt (r : regex) : regex := Alt r Eps.

Fixpoint alts (rs : list regex) : regex :=
  match rs with
  | [] => Cls (fun _ => false)
  | [r] => r
  | r :: rs' => Alt r (alts rs')
  end.

(** A literal code unit, and the same under the [i] flag.  Every pattern
    character of [ai.js] is ASCII or U+00E9; for those the canonical form
    of the [i] flag identifies exactly the two cases of a letter. *)
Definition chr (c : N) : regex := Cls (fun x => (x =? c)%N).

Definition fold_case (c : N) : N :=
  if (((97 <=? c) && (c <=? 122)) || (c =? 233))%N then (c - 32)%N else c.

Definition chr_i (c : N) : regex :=
  Cls (fun x => (fold_case x =? fold_case c)%N).

Fixpoint word_of (mk : N -> regex) (s : jsstring) : regex :=
  match s with
  | [] => Eps
  | [c] => mk c
  | c :: s' => Seq (mk c) (word_of mk s')
  end.

Definition word (s : string) : regex := word_of chr (lit s).
Definition word_i (s : string) : regex := word_of chr_i (lit s).

Definition digit : regex := Cls is_digit.
Definition space : regex := Cls is_ws.
Definition one_of (s : string) : regex :=
  Cls (fun x => existsb (N.eqb x) (lit s)).

Section Matcher.
Context {A : Type}.

(** [run r s k]: match [r] at the front of [s] and hand the rest of the
    input to the continuation [k]; the first success in priority order is
    the result. *)
Fixpoint run (r : regex) (s : jsstring) (k : jsstring -> option A)
  : option A :=
  match r with
  | Eps => k s
  | Cls p =>
      match s with
      | c :: s' => if p c then k s' else None
      | [] => None
      end
  | Seq r1 r2 => run r1 s (fun s1 => run r2 s1 k)
  | Alt r1 r2 =>
      match run r1 s k with
      | Some x => Some x
      | None => run r2 s k
      end
  | Star r1 =>
      (fix iter (fuel : nat) (s : jsstring) : option A :=
         match fuel with
         | O => k s
         | S fuel' =>
             match run r1 s (fun s1 =>
                     if length s1 <? length s then iter fuel' s1 else None)
             with
             | Some x => Some x
             | None => k s
             end
         end) (length s) s
  | Eos => match s with [] => k s | _ :: _ => None end
  end.

End Matcher.

(** [/^r/.test(s)] *)
Definition test_prefix (r : regex) (s : jsstring) : bool :=
  bool_decide (is_Some (run r s (fun _ => Some tt))).

(** [/r/.test(s)]: a match starting at some position. *)
Fixpoint test (r : regex) (s : jsstring) : bool :=
  test_prefix r s ||
  match s with
  | [] => false
  | _ :: s' => test r s'
  end.

(** [s.replace(/^r/, '')]: drop the matched prefix, if any. *)
Definition strip_prefix (r : regex) (s : jsstring) : jsstring :=
  match run r s Some with
  | Some rest => rest
  | None => s
  end.

(** [/(.)\1{n,}/.test(s)]: a code unit other than a line terminator
    followed by at least [n] copies of itself. *)
Fixpoint copies_at (c : N) (n : nat) (s : jsstring) : bool :=
  match n with
  | O => true
  | S n' =>
      match s with
      | d :: s' => (d =? c)%N && copies_at c n' s'
      | [] => false
      end
  end.

Fixpoint test_dot_backref (n : nat) (s : jsstring) : bool :=
  match s with
  | [] => false
  | c :: s' =>
      (negb (is_line_terminator c) && copies_at c n s')
      || test_dot_backref n s'
  end.

End Regex.
Export Regex.

(** ** JavaScript values and outcomes *)

Module JsValue.

(** The shapes a backend response can take.  Numbers are left out: the
    text-generation runtime produces strings, message lists and objects. *)
#[warnings="-register-all"]
Inductive value :=
| VUndefined
| VNull
| VBool (b : bool)
| VStr (s : jsstring)
| VArr (items : list value)
| VObj (fields : list (jsstring * value)).

Inductive error :=
| TypeError              (* property read on [undefined]/[null], call of [null],
                            conversion of an object without a usable [toString] *)
| LoadFailed             (* [new Error('Failed to load AI model. ...')] *)
| BackendError (code : nat).  (* a rejection coming from the model runtime *)

(** The outcome of an (async) call: a value, a thrown error (a rejected
    promise), or a promise that never settles. *)
Inductive result (A : Type) :=
| Ok (a : A)
| Throw (e : error)
| Pending.
Arguments Ok {A} a.
Arguments Throw {A} e.
Arguments Pending {A}.

Definition rbind {A B} (r : result A) (f : A -> result B) : result B :=
  match r with
  | Ok a => f a
  | Throw e => Throw e
  | Pending => Pending
  end.

Fixpoint own_field (k : jsstring) (fields : list (jsstring * value)) : value :=
  match fields with
  | [] => VUndefined
  | (k', v) :: rest => if str_eqb k k' then v else own_field k rest
  end.

(** [v.k] for one of the keys [role], [content], [generated_text]. *)
Definition prop (k : jsstring) (v : value) : result value :=
  match v with
  | VUndefined | VNull => Throw TypeError
  | VObj fields => Ok (own_field k fields)
  | VBool _ | VStr _ | VArr _ => Ok VUndefined
  end.

(** [v?.k] *)
Definition opt_prop (k : jsstring) (v : value) : value :=
  match v with
  | VObj fields => own_field k fields
  | _ => VUndefined
  end.

(** [v[0]] *)
Definition index0 (v : value) : result value :=
  match v with
  | VUndefined | VNull => Throw TypeError
  | VArr items => Ok (List.hd VUndefined items)
  | VStr [] => Ok VUndefined
  | VStr (c :: _) => Ok (VStr [c])
  | VObj fields => Ok (own_field (lit "0") fields)
  | VBool _ => Ok VUndefined
  end.

Definition truthy (v : value) : bool :=
  match v with
  | VUndefined | VNull => false
  | VBool b => b
  | VStr s => negb (str_eqb s [])
  | VArr _ | VObj _ => true
  end.

(** [typeof v === 'object'] *)
Definition is_object (v : value) : bool :=
  match v with
  | VNull | VArr _ | VObj _ => true
  | _ => false
  end.

(** [k] is an own property of the object. *)
Definition has_own (k : jsstring) (fields : list (jsstring * value)) : bool :=
  existsb (fun kv => str_eqb k kv.1) fields.

(** [String(v)].  An array is printed by [Array.prototype.join]: its
    elements are converted in turn, [undefined] and [null] as the empty
    string.  A plain object is converted by the [toString] it finds: the
    inherited one prints [[object Object]]; an own [toString] property
    shadows it, and since the values here hold no function it is not
    callable, neither [valueOf] gives a primitive, and the conversion
    throws a [TypeError]. *)
Fixpoint to_string (v : value) : result jsstring :=
  match v with
  | VUndefined => Ok (lit "undefined")
  | VNull => Ok (lit "null")
  | VBool true => Ok (lit "true")
  | VBool false => Ok (lit "false")
  | VStr s => Ok s
  | VArr items =>
      rbind
        ((fix elements (items : list value) : result (list jsstring) :=
            match items with
            | [] => Ok []
            | x :: rest =>
                rbind (match x with
                       | VUndefined | VNull => Ok []
                       | _ => to_string x
                       end) (fun next =>
                rbind (elements rest) (fun parts => Ok (next :: parts)))
            end) items)
        (fun parts => Ok (join (lit ",") parts))
  | VObj fields =>
      if has_own (lit "toString") fields then Throw TypeError
      else Ok (lit "[object Object]")
  end.

End JsValue.
Export JsValue.

(** ** The output normaliser (the tail of [generate]) *)

Module Normalizer.

Definition is_assistant (role : value) : bool :=
  match role with
  | VStr s => str_eqb s (lit "assistant")
  | _ => false
  end.

(** [result.find(m => m.role === 'assistant')] *)
Fixpoint find_assistant (items : list value) : result value :=
  match items with
  | [] => Ok VUndefined
  | m :: rest =>
      rbind (prop (lit "role") m) (fun role =>
        if is_assistant role then Ok m else find_assistant rest)
  end.

(** [a || b] *)
Definition js_or (a b : value) : value := if truthy a then a else b.

(** Lines 103-114 of [ai.js], from the value of [generated_text] on. *)
Definition normalize (generated_text : value) : result jsstring :=
  rbind
    (match generated_text with
     | VArr items =>
         rbind (find_assistant items) (fun assistantMsg =>
           Ok (js_or (opt_prop (lit "content") assistantMsg)
                 (js_or (opt_prop (lit "content") (List.last items VUndefined))
                    (VStr []))))
     | other => Ok other
     end)
    (fun result =>
       let result :=
         if truthy result && is_object result
            && truthy (opt_prop (lit "content") result)
         then opt_prop (lit "content") result
         else result in
       to_string (js_or result (VStr []))).

(** Lines 101-114: from the raw [output] of the model call. *)
Definition normalize_output (output : value) : result jsstring :=
  rbind (index0 output) (fun first =>
    normalize (opt_prop (lit "generated_text") first)).

End Normalizer.
Export Normalizer.

(** ** The backend handle *)

Module Backend.

Definition Handle := nat.

Inductive Device := WebGPU | Wasm.

(** The model runtime outside the repository.  [pipeline n d] is the
    outcome of the [n]-th call of [pipeline('text-generation', ...)] with
    device [d]; [call h n prompt max_new_tokens] is the outcome of the
    [n]-th call of the generator [h]. *)
Record Runtime := {
  has_gpu : bool;                                   (* [navigator.gpu] *)
  pipeline : nat -> Device -> result Handle;
  call : Handle -> nat -> jsstring -> nat -> result value;
}.

(** The module-level variables, with two history counters that number
    the calls made to the runtime. *)
Record State := {
  generator : option Handle;
  modelLoading : bool;
  modelReady : bool;
  pipeline_calls : nat;
  model_calls : nat;
}.

Definition initial : State :=
  {| generator := None; modelLoading := false; modelReady := false;
     pipeline_calls := 0; model_calls := 0 |}.

Definition set_generator (g : option Handle) (st : State) : State :=
  {| generator := g; modelLoading := modelLoading st;
     modelReady := modelReady st; pipeline_calls := pipeline_calls st;
     model_calls := model_calls st |}.
Definition set_modelLoading (b : bool) (st : State) : State :=
  {| generator := generator st; modelLoading := b;
     modelReady := modelReady st; pipeline_calls := pipeline_calls st;
     model_calls := model_calls st |}.
Definition set_modelReady (b : bool) (st : State) : State :=
  {| generator := generator st; modelLoading := modelLoading st;
     modelReady := b; pipeline_calls := pipeline_calls st;
     model_calls := model_calls st |}.

(** *** State-and-exception monad *)

Definition M (A : Type) : Type := State -> result A * State.

Definition ret {A} (a : A) : M A := fun st => (Ok a, st).
Definition throw {A} (e : error) : M A := fun st => (Throw e, st).
Definition lift {A} (r : result A) : M A := fun st => (r, st).

Definition bind {A B} (m : M A) (f : A -> M B) : M B :=
  fun st =>
    match m st with
    | (Ok a, st') => f a st'
    | (Throw e, st') => (Throw e, st')
    | (Pending, st') => (Pending, st')
    end.

(** [try { m } catch (err) { h err }] *)
Definition try_catch {A} (m : M A) (h : error -> M A) : M A :=
  fun st =>
    match m st with
    | (Throw e, st') => h e st'
    | other => other
    end.

(** [try { m } finally { fin }], for a [fin] that completes normally. *)
Definition try_finally {A} (m : M A) (fin : State -> State) : M A :=
  fun st =>
    match m st with
    | (Pending, st') => (Pending, st')
    | (r, st') => (r, fin st')
    end.

Definition modify (f : State -> State) : M unit := fun st => (Ok tt, f st).

Declare Scope js_scope.
Delimit Scope js_scope with js.
Notation "x <- m ;; k" := (bind m (fun x => k))
  (at level 100, m at next level, right associativity) : js_scope.
Notation "m ;;; k" := (bind m (fun _ => k))
  (at level 100, right associativity) : js_scope.
Local Open Scope js_scope.

Section WithRuntime.
Context (rt : Runtime).

(** [await pipeline('text-generation', MODEL_ID, { ..., device })] *)
Definition await_pipeline (device : Device) : M Handle :=
  fun st =>
    (pipeline rt (pipeline_calls st) device,
     {| generator := generator st; modelLoading := modelLoading st;
        modelReady := modelReady st;
        pipeline_calls := S (pipeline_calls st);
        model_calls := model_calls st |}).

(** [await gen(messages, { max_new_tokens: maxTokens, ... })]; calling
    [null] is a [TypeError]. *)
Definition await_call (gen : option Handle) (prompt : jsstring)
    (maxTokens : nat) : M value :=
  match gen with
  | None => throw TypeError
  | Some h =>
      fun st =>
        (call rt h (model_calls st) prompt maxTokens,
         {| generator := generator st; modelLoading := modelLoading st;
            modelReady := modelReady st;
            pipeline_calls := pipeline_calls st;
            model_calls := S (model_calls st) |})
  end.

(** [loadModel], run with no other task interleaved.  With no other task
    to clear [modelLoading], the polling loop of lines 28-30 never ends. *)
Definition loadModel : M (option Handle) :=
  fun st =>
    if modelReady st && bool_decide (is_Some (generator st))
    then ret (generator st) st
    else if modelLoading st then (Pending, st)
    else
      (modify (set_modelLoading true) ;;;
       try_finally
         (try_catch
            (let device := if has_gpu rt then WebGPU else Wasm in
             h <- await_pipeline device ;;
             modify (set_generator (Some h)) ;;;
             modify (set_modelReady true) ;;;
             ret (Some h))
            (fun _ => throw LoadFailed))
         (set_modelLoading false)) st.

Definition isModelReady : M bool := fun st => (Ok (modelReady st), st).

(** [generate(prompt, maxTokens)] *)
Definition generate (prompt : jsstring) (maxTokens : nat) : M jsstring :=
  gen <- loadModel ;;
  output <- await_call gen prompt maxTokens ;;
  lift (normalize_output output).

End WithRuntime.

(** *** [loadModel] as interleaved tasks

    Each call of [loadModel] is a task that runs atomically between two
    [await]s.  A task is at its entry, parked in the polling loop, waiting
    for [pipeline], or finished. *)

Inductive Task :=
| AtEntry
| Polling
| AwaitingPipeline (device : Device)
| Finished (r : result (option Handle)).

(** The variables a task shares with the others. *)
Definition Vars : Type := option Handle * bool * bool.

Definition vars_of (st : State) : Vars :=
  (generator st, modelLoading st, modelReady st).

Inductive step (gpu : bool) : Vars -> Task -> Vars -> Task -> Prop :=
| step_cached g loading :
    is_Some g ->
    step gpu (g, loading, true) AtEntry (g, loading, true) (Finished (Ok g))
| step_wait g ready :
    (ready && bool_decide (is_Some g)) = false ->
    step gpu (g, true, ready) AtEntry (g, true, ready) Polling
| step_start g ready :
    (ready && bool_decide (is_Some g)) = false ->
    step gpu (g, false, ready) AtEntry
      (g, true, ready) (AwaitingPipeline (if gpu then WebGPU else Wasm))
| step_poll g ready :
    step gpu (g, true, ready) Polling (g, true, ready) Polling
| step_poll_done g ready :
    step gpu (g, false, ready) Polling (g, false, ready) (Finished (Ok g))
| step_loaded g loading ready d h :
    step gpu (g, loading, ready) (AwaitingPipeline d)
      (Some h, false, true) (Finished (Ok (Some h)))
| step_load_failed g loading ready d :
    step gpu (g, loading, ready) (AwaitingPipeline d)
      (g, false, ready) (Finished (Throw LoadFailed)).

(** A pool of tasks over the shared variables: one task moves at a time. *)
Inductive pool_step (gpu : bool) : Vars * list Task -> Vars * list Task -> Prop :=
| pool_step_at vs ts i t vs' t' :
    ts !! i = Some t ->
    step gpu vs t vs' t' ->
    pool_step gpu (vs, ts) (vs', <[i := t']> ts).

(** The lifecycle read off the variables. *)
Inductive BackendState := Unloaded | Loading | Ready.

Definition lifecycle (vs : Vars) : BackendState :=
  match vs with
  | (g, loading, ready) =>
      if ready && bool_decide (is_Some g) then Ready
      else if loading then Loading
      else Unloaded
  end.

End Backend.
Export Backend.

(** ** The word-repetition filter *)

Module WordRepetition.

(** What a slot of the [wordCounts] object can hold after
    [(wordCounts[word] || 0) + 1]: a count, or the text obtained by
    appending [1] to an inherited member of [Object.prototype]. *)
Inductive CountVal :=
| CNum (n : nat)
| CText.

(** The property names every object literal inherits. *)
Definition inherited_names : list jsstring :=
  [ lit "constructor"; lit "__proto__"; lit "hasOwnProperty";
    lit "isPrototypeOf"; lit "propertyIsEnumerable"; lit "toLocaleString";
    lit "toString"; lit "valueOf"; lit "__defineGetter__";
    lit "__defineSetter__"; lit "__lookupGetter__"; lit "__lookupSetter__" ].

Definition is_inherited (word : jsstring) : bool :=
  existsb (str_eqb word) inherited_names.

Inductive Slot :=
| SlotUndefined
| SlotOwn (v : CountVal)
| SlotInherited.

(** [wordCounts[word]] *)
Definition read (wordCounts : gmap jsstring CountVal) (word : jsstring) : Slot :=
  match wordCounts !! word with
  | Some v => SlotOwn v
  | None => if is_inherited word then SlotInherited else SlotUndefined
  end.

(** [(slot || 0) + 1] *)
Definition increment (slot : Slot) : CountVal :=
  match slot with
  | SlotUndefined => CNum 1
  | SlotOwn (CNum n) => CNum (S n)
  | SlotOwn CText => CText
  | SlotInherited => CText
  end.

(** [wordCounts[word] = v]: the [__proto__] setter ignores a primitive. *)
Definition assign (wordCounts : gmap jsstring CountVal) (word : jsstring)
    (v : CountVal) : gmap jsstring CountVal :=
  if str_eqb word (lit "__proto__") then wordCounts
  else <[word := v]> wordCounts.

(** [slot >= 3]: text and objects convert to [NaN]. *)
Definition at_least_3 (slot : Slot) : bool :=
  match slot with
  | SlotOwn (CNum n) => 3 <=? n
  | _ => false
  end.

(** The loop of lines 123-127. *)
Fixpoint count_loop (wordCounts : gmap jsstring CountVal)
    (words : list jsstring) : bool :=
  match words with
  | [] => false
  | word :: rest =>
      if length word <? 3 then count_loop wordCounts rest
      else
        let wordCounts' :=
          assign wordCounts word (increment (read wordCounts word)) in
        if at_least_3 (read wordCounts' word) then true
        else count_loop wordCounts' rest
  end.

Definition word_at (words : list jsstring) (i : nat) : jsstring :=
  nth i words [].

(** The loop of lines 130-134. *)
Definition bigram_loop (words : list jsstring) : bool :=
  existsb
    (fun i =>
       let bigram := word_at words i ++ lit " " ++ word_at words (i + 1) in
       let nextBigram :=
         word_at words (i + 2) ++ lit " " ++ word_at words (i + 3) in
       str_eqb bigram nextBigram)
    (seq 0 (length words - 3)).

Section WithCase.
Context {tables : CaseTables}.

Definition hasWordRepetition (text : jsstring) : bool :=
  let words := split_ws (toLowerCase text) in
  if length words <? 4 then false
  else if count_loop ∅ words then true
  else bigram_loop words.

End WithCase.

End WordRepetition.
Export WordRepetition.

(** ** The profile *)

Module ProfileData.

(** [messages_sent] is a message counter.  The counters modelled are
    those whose double is still a safe integer, so that [msgCount * 2]
    is exact and printed digit by digit. *)
Record Count := {
  count_value : N;
  count_doubles : (count_value * 2 <=? MAX_SAFE_INTEGER)%N = true;
}.

Definition no_messages : Count :=
  {| count_value := 0; count_doubles := eq_refl |}.

(** [msgCount * 2] *)
Definition times2 (msgCount : Count) : SafeInteger :=
  {| int_value := count_value msgCount * 2;
     int_safe := count_doubles msgCount |}.

(** [wrappedData].  A field that is absent ([undefined] or [null]) is
    [None]; strings are strings and [messages_sent] is a counter. *)
Record Stats := { messages_sent : option Count }.
Record Archetype := { name : option jsstring }.
Record Theme := { title : option jsstring }.
Record PhraseEntry := { phrase : option jsstring }.
Record Phrases := { unigrams : option (list PhraseEntry) }.

Record Profile := {
  stats : option Stats;
  archetype : option Archetype;
  themes : option (list Theme);
  phrases : option Phrases;
}.

Definition emptyProfile : Profile :=
  {| stats := None; archetype := None; themes := None; phrases := None |}.

(** [x || d] for an optional string [x]. *)
Definition or_else (x : option jsstring) (d : jsstring) : jsstring :=
  match x with
  | Some (c :: s) => c :: s
  | Some [] | None => d
  end.

(** [archetype?.name], [themes?.[i]?.title], [phrases?.unigrams?.[0]?.phrase],
    [stats?.messages_sent] *)
Definition archetype_name (p : Profile) : option jsstring :=
  a ← archetype p; name a.
Definition theme_title (i : nat) (p : Profile) : option jsstring :=
  ts ← themes p; t ← ts !! i; title t.
Definition top_phrase (p : Profile) : option jsstring :=
  ph ← phrases p; us ← unigrams ph; u ← us !! 0; phrase u.
Definition message_count (p : Profile) : Count :=
  default no_messages (s ← stats p; messages_sent s).

End ProfileData.
Export ProfileData.

(** ** Template fallbacks *)

Module Fallback.

Definition quote : jsstring := [34%N].
Definition newline : jsstring := [10%N].

Definition getFallbackPredictions (wrappedData : Profile) : list jsstring :=
  let topTheme := or_else (theme_title 0 wrappedData) (lit "exploring ideas") in
  let secondTheme := or_else (theme_title 1 wrappedData) (lit "creative projects") in
  let style := or_else (archetype_name wrappedData) (lit "Ranger") in
  let msgCount := message_count wrappedData in
  let topWord := or_else (top_phrase wrappedData) (lit "curiosity") in
  [ lit "Your " ++ topTheme ++ lit " obsession will reach new heights in 2026";
    lit "As a true " ++ style ++ lit ", you'll discover at least 3 new AI use cases";
    lit "Your message count will double - "
      ++ number_to_string (times2 msgCount) ++ lit "+ messages incoming";
    quote ++ topWord ++ quote ++ lit " will become your catchphrase in "
      ++ secondTheme ++ lit " discussions" ].

Section WithCase.
Context {tables : CaseTables}.

(** [s.charAt(0).toUpperCase() + s.slice(1)] *)
Definition capitalize (s : jsstring) : jsstring :=
  toUpperCase (charAt0 s) ++ slice1 s.

Definition getFallbackPoem (wrappedData : Profile) : jsstring :=
  let style :=
    or_else (toLowerCase <$> archetype_name wrappedData) (lit "seeker") in
  let topTheme :=
    or_else (toLowerCase <$> theme_title 0 wrappedData) (lit "ideas") in
  let topWord := or_else (top_phrase wrappedData) (lit "wonder") in
  capitalize style ++ lit " of " ++ topTheme ++ newline
    ++ capitalize topWord ++ lit " guides the path forward" ++ newline
    ++ lit "Claude lights the way".

End WithCase.

End Fallback.
Export Fallback.

(** ** Poem and prediction generation *)

Module Generation.

Local Open Scope js_scope.

Definition MAX_RETRIES : nat := 5.

Definition arrow : jsstring := [8594%N].

(** *** Poem lines *)

(** The pattern of line 185, flag [i]:  ^( \d+[\.\):]?\s* | Line\s*\d+:?\s* )  *)
Definition line_number_prefix : regex :=
  Alt (Seq (Plus digit) (Seq (Opt (one_of ".):")) (Star space)))
      (Seq (word_i "Line")
         (Seq (Star space)
            (Seq (Plus digit) (Seq (Opt (chr 58)) (Star space))))).

(** [/^(example|haiku|write|now|here|sure|i |i'm|okay|let)/i] *)
Definition poem_meta_text : regex :=
  alts [ word_i "example"; word_i "haiku"; word_i "write"; word_i "now";
         word_i "here"; word_i "sure"; word_i "i "; word_i "i'm";
         word_i "okay"; word_i "let" ].

(** [/[\[\]<>{}|\\]|:$/] *)
Definition special_chars : regex :=
  Alt (Cls (fun x => existsb (N.eqb x) (lit "[]<>{}|" ++ [92%N])))
      (Seq (chr 58) Eos).

(** [/R\.I\.|Refract|Cléau|SmolLM|https?:/i] *)
Definition leaked_identity : regex :=
  alts [ word_i "R.I."; word_i "Refract";
         word_of chr_i (lit "Cl" ++ [233%N] ++ lit "au");
         word_i "SmolLM";
         Seq (word_i "http") (Seq (Opt (chr_i 115)) (chr 58)) ].

(** The predicate of [.filter] on lines 186-193. *)
Definition keep_line (l : jsstring) : bool :=
  if (length l <? 4) || (50 <? length l) then false
  else if test_prefix poem_meta_text l then false
  else if test special_chars l then false
  else true.

(** Lines 182-193. *)
Definition poem_lines (response : jsstring) : list jsstring :=
  List.filter keep_line
    (List.map (strip_prefix line_number_prefix)
       (List.map trim (split 10 (trim response)))).

(** Lines 196-199. *)
Definition hasGibberish (lines : list jsstring) : bool :=
  existsb (fun l => test leaked_identity l || test_dot_backref 3 l) lines.

(** Lines 202-205. *)
Definition validLineLengths (lines : list jsstring) : bool :=
  forallb (fun l =>
             let wordCount := length (split_ws l) in
             (2 <=? wordCount) && (wordCount <=? 8)) lines.

(** One pass of the loop body of [generatePoem] after the model call:
    the haiku when the response is accepted. *)
Definition haiku_of (response : jsstring) : option jsstring :=
  let lines := poem_lines response in
  if (3 <=? length lines) && negb (hasGibberish lines)
     && validLineLengths lines
  then Some (join newline (take 3 lines))
  else None.

(** *** Prediction completions *)

(** Lines 252-255. *)
Definition completion_of (response : jsstring) : jsstring :=
  let completion := trim (List.hd [] (split 10 (trim response))) in
  trim (strip_prefix (Seq (word_of chr arrow) (Star space)) completion).

(** [/\d{3,}|level up|you will be|you'll be a \d/i] *)
Definition banned_phrases : regex :=
  alts [ Seq digit (Seq digit (Plus digit)); word_i "level up";
         word_i "you will be"; Seq (word_i "you'll be a ") digit ].

(** [/^(I |I'm |I'll |I've |Here|Please|Sure|Let me)/i] *)
Definition prediction_meta_text : regex :=
  alts [ word_i "I "; word_i "I'm "; word_i "I'll "; word_i "I've ";
         word_i "Here"; word_i "Please"; word_i "Sure"; word_i "Let me" ].

(** [/\?|!{2,}/] *)
Definition question_or_shout : regex :=
  Alt (chr 63) (Seq (chr 33) (Plus (chr 33))).

(** [/help|assist|provide|question/i] *)
Definition assistant_register : regex :=
  alts [ word_i "help"; word_i "assist"; word_i "provide";
         word_i "question" ].

Section WithCase.
Context {tables : CaseTables}.

(** Lines 258-266. *)
Definition isValid (completion : jsstring) : bool :=
  let words := split_ws completion in
  (5 <=? length completion) && (length completion <=? 80)
  && (3 <=? length words) && (length words <=? 20)
  && negb (test banned_phrases completion)
  && negb (test_dot_backref 4 completion)
  && negb (hasWordRepetition completion)
  && negb (test_prefix prediction_meta_text completion)
  && negb (test question_or_shout completion)
  && negb (test assistant_register completion).

(** *** Prompts *)

Definition poem_first_theme (wrappedData : Profile) : jsstring :=
  let allThemes :=
    match join (lit ", ")
            (List.map (fun t => default [] (title t))
               (take 3 (default [] (themes wrappedData))))
    with
    | [] => lit "various topics"
    | s => s
    end in
  match trim (List.hd [] (split 44 allThemes)) with
  | [] => lit "learning"
  | s => s
  end.

Definition poem_prompt (wrappedData : Profile) : jsstring :=
  let firstTheme := poem_first_theme wrappedData in
  lit "Write a 3-line haiku about " ++ firstTheme
    ++ lit ". Keep it simple and natural.

Morning light arrives
Coffee steams beside keyboard
New ideas bloom

Autumn leaves falling
Code flows like a gentle stream
Wisdom takes its time

" ++ capitalize firstTheme ++ lit " inspires me".

Record PredictionUnit := { start : jsstring; fallback : jsstring }.

(** Lines 222-235. *)
Definition prompts (wrappedData : Profile) : list PredictionUnit :=
  let topTheme := or_else (theme_title 0 wrappedData) (lit "learning") in
  let secondTheme := or_else (theme_title 1 wrappedData) (lit "creating") in
  let style := or_else (archetype_name wrappedData) (lit "Explorer") in
  let topWord := or_else (top_phrase wrappedData) (lit "ideas") in
  [ {| start := lit "In 2026, your " ++ topTheme ++ lit " skills will";
       fallback := lit "Your " ++ topTheme
                     ++ lit " obsession will reach new heights" |};
    {| start := lit "As a " ++ style ++ lit ", you'll discover";
       fallback := lit "As a true " ++ style
                     ++ lit ", you'll discover 3 new use cases" |};
    {| start := lit "Your favorite word " ++ quote ++ topWord ++ quote
                  ++ lit " will";
       fallback := quote ++ topWord ++ quote
                     ++ lit " will become your catchphrase" |};
    {| start := lit "Next year in " ++ secondTheme ++ lit ", you'll";
       fallback := lit "Your " ++ secondTheme
                     ++ lit " journey will surprise you" |} ].

(** Lines 243-249. *)
Definition prediction_prompt (start : jsstring) : jsstring :=
  lit "Complete each sentence with a short, fun prediction (5-15 words):

Example: In 2026, your Coding skills will " ++ arrow
    ++ lit " unlock new creative possibilities
Example: As a Sage, you'll discover " ++ arrow
    ++ lit " the joy of mentoring others
Example: Your favorite word " ++ quote ++ lit "debug" ++ quote
    ++ lit " will " ++ arrow ++ lit " become your superpower at work

Now complete: " ++ start ++ lit " " ++ arrow.

(** *** The retry loops *)

Context (rt : Runtime).

(** The [for] loop of lines 178-214, with [remaining] attempts left
    ([remaining = MAX_RETRIES - attempt + 1]); falling out of the loop
    reaches line 217. *)
Fixpoint poem_attempts (wrappedData : Profile) (remaining : nat)
  : M jsstring :=
  match remaining with
  | O => ret (getFallbackPoem wrappedData)
  | S remaining' =>
      response <- generate rt (poem_prompt wrappedData) 40 ;;
      match haiku_of response with
      | Some haiku => ret haiku
      | None => poem_attempts wrappedData remaining'
      end
  end.

Definition generatePoem (wrappedData : Profile) : M jsstring :=
  loadModel rt ;;;
  poem_attempts wrappedData MAX_RETRIES.

(** The [try] block of lines 242-276: the pushed prediction, if any. *)
Definition prediction_attempt (start : jsstring) : M (option jsstring) :=
  try_catch
    (response <- generate rt (prediction_prompt start) 20 ;;
     let completion := completion_of response in
     if isValid completion then ret (Some (start ++ lit " " ++ completion))
     else ret None)
    (fun _ => ret None).

(** The inner [for] loop of lines 241-277. *)
Fixpoint prediction_attempts (start : jsstring) (remaining : nat)
  : M (option jsstring) :=
  match remaining with
  | O => ret None
  | S remaining' =>
      r <- prediction_attempt start ;;
      match r with
      | Some prediction => ret (Some prediction)
      | None => prediction_attempts start remaining'
      end
  end.

(** One iteration of the outer loop, lines 239-282. *)
Definition prediction_unit (u : PredictionUnit) : M jsstring :=
  r <- prediction_attempts (start u) MAX_RETRIES ;;
  match r with
  | Some prediction => ret prediction
  | None => ret (fallback u)
  end.

Fixpoint for_each (units : list PredictionUnit) : M (list jsstring) :=
  match units with
  | [] => ret []
  | u :: rest =>
      prediction <- prediction_unit u ;;
      predictions <- for_each rest ;;
      ret (prediction :: predictions)
  end.

Definition generatePredictions (wrappedData : Profile) : M (list jsstring) :=
  loadModel rt ;;;
  for_each (prompts wrappedData).

End WithCase.

End Generation.
Export Generation.

(** ** Vocabulary of the statements *)

Module Vocabulary.

(** The backend states of the specification, on the module variables. *)
Definition ready (st : State) : Prop :=
  modelReady st = true /\ is_Some (generator st).

Definition unloaded_vars : Vars := (None, false, false).

(** A pool of [n] calls of [loadModel] issued on a fresh page. *)
Definition fresh_pool (n : nat) : Vars * list Task :=
  (unloaded_vars, replicate n AtEntry).

Definition reachable (gpu : bool) (n : nat) (p : Vars * list Task) : Prop :=
  rtc (pool_step gpu) (fresh_pool n) p.

Definition awaiting (t : Task) : bool :=
  match t with AwaitingPipeline _ => true | _ => false end.

Definition loads_in_flight (ts : list Task) : nat :=
  length (List.filter awaiting ts).

(** The lifecycle edges the code can take. *)
Inductive edge : BackendState -> BackendState -> Prop :=
| edge_stay s : edge s s
| edge_start : edge Unloaded Loading
| edge_loaded : edge Loading Ready
| edge_failed : edge Loading Unloaded.

(** What holds of every pool reachable from a fresh page. *)
Definition pool_inv (p : Vars * list Task) : Prop :=
  match p with
  | ((g, loading, ready), ts) =>
      (ready = true <-> is_Some g)
      /\ (loading = true -> ready = false)
      /\ loads_in_flight ts = (if loading then 1 else 0)
  end.

Definition device_of (rt : Runtime) : Device :=
  if has_gpu rt then WebGPU else Wasm.

(** The state after [n] further calls of the generator. *)
Definition after_calls (n : nat) (st : State) : State :=
  {| generator := generator st; modelLoading := modelLoading st;
     modelReady := modelReady st; pipeline_calls := pipeline_calls st;
     model_calls := n + model_calls st |}.

(** A runtime whose calls always settle. *)
Definition settles (rt : Runtime) : Prop :=
  (forall n d, pipeline rt n d <> Pending) /\
  (forall h n prompt k, call rt h n prompt k <> Pending).

End Vocabulary.
Export Vocabulary.

(** ** Test doubles *)

Module Stubs.

(** The response shape of the text-generation runtime:
    [[{ generated_text: text }]]. *)
Definition generated (text : jsstring) : value :=
  VArr [VObj [(lit "generated_text", VStr text)]].

(** A runtime that loads and answers every call with [text]. *)
Definition stub_rt (text : jsstring) : Runtime :=
  {| has_gpu := false;
     pipeline := fun _ _ => Ok 1;
     call := fun _ _ _ _ => Ok (generated text) |}.

(** A runtime whose initialisation always fails. *)
Definition down_rt : Runtime :=
  {| has_gpu := false;
     pipeline := fun _ _ => Throw (BackendError 0);
     call := fun _ _ _ _ => Ok (generated (lit "???")) |}.

(** A runtime whose first initialisation fails and whose second succeeds. *)
Definition flaky_rt : Runtime :=
  {| has_gpu := false;
     pipeline := fun n _ =>
       match n with O => Throw (BackendError 0) | S _ => Ok 1 end;
     call := fun _ _ _ _ => Ok (generated (lit "???")) |}.

(** A runtime that loads and then rejects every generation call. *)
Definition rejecting_rt : Runtime :=
  {| has_gpu := false;
     pipeline := fun _ _ => Ok 1;
     call := fun _ _ _ _ => Throw (BackendError 1) |}.

(** A runtime that loads and answers every call with a generated text
    that [String] cannot convert: [[{ generated_text: { toString: 'x' } }]]. *)
Definition unprintable_rt : Runtime :=
  {| has_gpu := false;
     pipeline := fun _ _ => Ok 1;
     call := fun _ _ _ _ =>
       Ok (VArr [VObj [(lit "generated_text",
                        VObj [(lit "toString", VStr (lit "x"))])]]) |}.

(** A two-line response whose first line is an arrow and a clean
    79-character completion. *)
Definition long_response : jsstring :=
  arrow ++ lit " bring many bright surprising wonderful and delightful discoveries along the way
second line".

Definition loaded : State :=
  {| generator := Some 1; modelLoading := false; modelReady := true;
     pipeline_calls := 1; model_calls := 0 |}.

Definition learner : Profile :=
  {| stats :=
       Some {| messages_sent :=
                 Some {| count_value := 106; count_doubles := eq_refl |} |};
     archetype := Some {| name := Some (lit "Learner") |};
     themes := Some [ {| title := Some (lit "Coding") |};
                      {| title := Some (lit "Writing") |} ];
     phrases := Some {| unigrams := Some [ {| phrase := Some (lit "remix") |} ] |} |}.

End Stubs.
Export Stubs.

(** ** Vocabulary of the generation statements *)

Module Statements.

(** The first line of a text: everything before the first line feed. *)
Fixpoint first_line (s : jsstring) : jsstring :=
  match s with
  | [] => []
  | c :: s' => if (c =? 10)%N then [] else c :: first_line s'
  end.

(** A text without its leading arrow and the white space after it. *)
Definition without_arrow (s : jsstring) : jsstring :=
  match s with
  | c :: s' => if (c =? 8594)%N then trim_start s' else s
  | [] => []
  end.

(** [s] contains [n] consecutive copies of one code unit that is not a
    line terminator. *)
Definition has_run (n : nat) (s : jsstring) : Prop :=
  exists pre c post,
    s = pre ++ replicate n c ++ post /\ is_line_terminator c = false.

(** The number of tokens equal to [w]. *)
Definition occurrences (w : jsstring) (words : list jsstring) : nat :=
  length (List.filter (str_eqb w) words).

(** Some token of length at least 3 appears 3 or more times. *)
Definition repeated_word (words : list jsstring) : Prop :=
  exists w, 3 <= length w /\ 3 <= occurrences w words.

(** Two adjacent two-token windows are identical. *)
Definition repeated_window (words : list jsstring) : Prop :=
  exists i a b,
    words !! i = Some a /\ words !! (i + 1) = Some b
    /\ words !! (i + 2) = Some a /\ words !! (i + 3) = Some b.

(** Tokens without white space. *)
Definition no_ws (w : jsstring) : Prop := Forall (fun c => is_ws c = false) w.

(** The count held for [w] in [wordCounts]. *)
Definition counted (wordCounts : gmap jsstring CountVal) (w : jsstring) : nat :=
  match wordCounts !! w with
  | Some (CNum n) => n
  | _ => 0
  end.

Definition counts_below_3 (wordCounts : gmap jsstring CountVal) : Prop :=
  forall w v, wordCounts !! w = Some v -> exists n, v = CNum n /\ n < 3.

(** The profile fields the fallbacks read. *)
Definition same_inputs (p q : Profile) : Prop :=
  archetype_name p = archetype_name q
  /\ theme_title 0 p = theme_title 0 q
  /\ theme_title 1 p = theme_title 1 q
  /\ top_phrase p = top_phrase q
  /\ message_count p = message_count q.

(** There is one bound on the length of every text [f] produces. *)
Definition uniformly_bounded (f : Profile -> jsstring) : Prop :=
  exists bound, forall p, length (f p) <= bound.

(** A profile whose only content is a top theme of [n] letters. *)
Definition long_theme (n : nat) : Profile :=
  {| stats := None; archetype := None;
     themes := Some [ {| title := Some (replicate n 97%N) |} ];
     phrases := None |}.

(** A field that is missing or empty. *)
Definition blank (x : option jsstring) : Prop := x = None \/ x = Some [].

Definition text_size (x : option jsstring) : nat := length (default [] x).

(** The size of what the fallbacks substitute. *)
Definition profile_size (p : Profile) : nat :=
  text_size (archetype_name p) + text_size (theme_title 0 p)
  + text_size (theme_title 1 p) + text_size (top_phrase p)
  + N.to_nat (N.log2 (count_value (message_count p) * 2)).

Section WithCase.
Context {tables : CaseTables}.

(** Every response of the runtime is rejected, as a poem and as a
    prediction. *)
Definition always_invalid (rt : Runtime) : Prop :=
  forall h n prompt k,
    exists out response,
      call rt h n prompt k = Ok out
      /\ normalize_output out = Ok response
      /\ haiku_of response = None
      /\ isValid (completion_of response) = false.

(** Every call of the runtime returns a response that normalises. *)
Definition answers (rt : Runtime) : Prop :=
  forall h n prompt k,
    exists out response,
      call rt h n prompt k = Ok out /\ normalize_output out = Ok response.

(** [prediction] was built from an accepted response to the prompt of
    the stem [start]. *)
Definition produced (rt : Runtime) (start prediction : jsstring) : Prop :=
  exists h n out response,
    call rt h n (prediction_prompt start) 20 = Ok out
    /\ normalize_output out = Ok response
    /\ let completion :=
         trim (without_arrow (trim (first_line (trim response)))) in
       prediction = start ++ lit " " ++ completion
       /\ isValid completion = true
       /\ 5 <= length completion <= 80.

Definition anchored (rt : Runtime) (u : PredictionUnit)
    (prediction : jsstring) : Prop :=
  prediction = fallback u \/ produced rt (start u) prediction.

(** [poem] is the haiku accepted from the response of a model call made
    with the poem prompt of [p]. *)
Definition composed (rt : Runtime) (p : Profile) (poem : jsstring) : Prop :=
  exists h n out response,
    call rt h n (poem_prompt p) 40 = Ok out
    /\ normalize_output out = Ok response
    /\ haiku_of response = Some poem.

End WithCase.

End Statements.
Export Statements.

(** ** Vocabulary of the normaliser statements *)

Module NormalizerSpec.

(** The text carried by the [content] field of an entry. *)
Definition content_text (m : value) : jsstring :=
  match opt_prop (lit "content") m with
  | VStr s => s
  | _ => []
  end.

(** The entry is tagged as the model's own turn. *)
Definition own_turn (m : value) : bool :=
  is_assistant (opt_prop (lit "role") m).

(** A role-tagged entry: an object whose [content] is a string or absent. *)
Definition message (m : value) : Prop :=
  exists fields,
    m = VObj fields
    /\ (own_field (lit "content") fields = VUndefined
        \/ exists s, own_field (lit "content") fields = VStr s).

(** The response shapes named by the specification. *)
Inductive shape : value -> Prop :=
| shape_text s : shape (VStr s)
| shape_null : shape VNull
| shape_undefined : shape VUndefined
| shape_object fields c s :
    own_field (lit "content") fields = VStr (c :: s) -> shape (VObj fields)
| shape_messages items : Forall message items -> shape (VArr items).

(** The normaliser in the words of the specification, with the two
    fallbacks taken when a content is empty. *)
Definition normalize_spec (payload : value) : jsstring :=
  match payload with
  | VArr items =>
      let tagged :=
        match List.find own_turn items with
        | Some m => content_text m
        | None => []
        end in
      match tagged with
      | _ :: _ => tagged
      | [] => content_text (List.last items VUndefined)
      end
  | VStr s => s
  | VObj fields => content_text (VObj fields)
  | _ => []
  end.

(** The tail of [normalize]: unwrap, default, coerce. *)
Definition finish (picked : value) : result jsstring :=
  let unwrapped :=
    if truthy picked && is_object picked
       && truthy (opt_prop (lit "content") picked)
    then opt_prop (lit "content") picked
    else picked in
  to_string (js_or unwrapped (VStr [])).

(** No object of the payload, at any depth, has an own property named
    [toString]. *)
Fixpoint plain (v : value) : bool :=
  match v with
  | VArr items => forallb plain items
  | VObj fields =>
      negb (has_own (lit "toString") fields)
      && forallb (fun kv => plain kv.2) fields
  | _ => true
  end.

(** No entry of a list payload is [null] or [undefined]. *)
Definition null_free (payload : value) : Prop :=
  match payload with
  | VArr items => Forall (fun m => m <> VNull /\ m <> VUndefined) items
  | _ => True
  end.

Definition assistant_says (text : jsstring) : value :=
  VObj [(lit "role", VStr (lit "assistant")); (lit "content", VStr text)].
Definition user_says (text : jsstring) : value :=
  VObj [(lit "role", VStr (lit "user")); (lit "content", VStr text)].

End NormalizerSpec.
Export NormalizerSpec.


(** ** The exported operations, run one after another *)

Module Session.

(** [checkBrowserSupport]: the two capabilities it probes and the record
    it returns; the device names are those handed to [pipeline]. *)
Record Browser := {
  navigator_gpu : bool;          (* [!!navigator.gpu] *)
  has_WebAssembly : bool;        (* [typeof WebAssembly !== 'undefined'] *)
}.

Record Support := {
  supported : bool;
  webgpu : bool;
  wasm : bool;
  recommended : Device;
}.

Definition checkBrowserSupport (b : Browser) : Support :=
  let hasWebGPU := navigator_gpu b in
  let hasWASM := has_WebAssembly b in
  {| supported := hasWebGPU || hasWASM;
     webgpu := hasWebGPU;
     wasm := hasWASM;
     recommended := if hasWebGPU then WebGPU else Wasm |}.

(** A call of one of the functions of [window.LocalAI] that touch the
    backend. *)
Inductive Op :=
| CallLoadModel
| CallIsModelReady
| CallGenerate (prompt : jsstring) (maxTokens : nat)
| CallGeneratePoem (wrappedData : Profile)
| CallGeneratePredictions (wrappedData : Profile).

(** Whether the call returned, threw, or never settled. *)
Inductive Completion := Returned | Threw (e : error) | Hung.

Definition completion {A} (r : result A) : Completion :=
  match r with
  | Ok _ => Returned
  | Throw e => Threw e
  | Pending => Hung
  end.

Section WithRuntime.
Context {tables : CaseTables} (rt : Runtime).

Definition run_op (op : Op) (st : State) : Completion * State :=
  match op with
  | CallLoadModel => let (r, st') := loadModel rt st in (completion r, st')
  | CallIsModelReady => let (r, st') := isModelReady st in (completion r, st')
  | CallGenerate prompt maxTokens =>
      let (r, st') := generate rt prompt maxTokens st in (completion r, st')
  | CallGeneratePoem wrappedData =>
      let (r, st') := generatePoem rt wrappedData st in (completion r, st')
  | CallGeneratePredictions wrappedData =>
      let (r, st') := generatePredictions rt wrappedData st in
      (completion r, st')
  end.

(** The states of a page on which calls are made one at a time, each
    after the previous one has settled. *)
Inductive visited : State -> Prop :=
| visited_initial : visited initial
| visited_next st op c st' :
    visited st -> run_op op st = (c, st') -> c <> Hung -> visited st'.

(** Every call of [pipeline] numbered below [n] was rejected. *)
Definition all_failed (n : nat) : Prop :=
  forall i, i < n -> exists e, pipeline rt i (device_of rt) = Throw e.

(** The handle in use is the answer of the last call of [pipeline], the
    only one that was not rejected. *)
Definition loaded_once (st : State) : Prop :=
  match generator st with
  | Some h =>
      exists n, pipeline_calls st = S n
        /\ pipeline rt n (device_of rt) = Ok h /\ all_failed n
  | None => all_failed (pipeline_calls st)
  end.

End WithRuntime.

(** What the module variables satisfy between two calls. *)
Definition at_rest (st : State) : Prop :=
  modelLoading st = false
  /\ (modelReady st = true <-> is_Some (generator st)).

(** The calls that start with [loadModel]. *)
Definition needs_model (op : Op) : bool :=
  match op with
  | CallIsModelReady => false
  | _ => true
  end.

(** Every task that returned a handle returned the one in [generator]. *)
Definition handles_agree (p : Vars * list Task) : Prop :=
  forall i h, p.2 !! i = Some (Finished (Ok (Some h))) -> p.1.1.1 = Some h.

(** The number of loads that succeeded: one once the backend is ready. *)
Definition successes (vs : Vars) : nat :=
  match lifecycle vs with
  | Ready => 1
  | _ => 0
  end.

(** A step that calls [pipeline], and one in which [pipeline] is
    rejected. *)
Definition is_start (t t' : Task) : bool :=
  match t, t' with
  | AtEntry, AwaitingPipeline _ => true
  | _, _ => false
  end.

Definition is_failure (t t' : Task) : bool :=
  match t, t' with
  | AwaitingPipeline _, Finished (Throw _) => true
  | _, _ => false
  end.

(** [interleaving gpu p starts failures q]: an interleaving from [p] to [q] in
    which [pipeline] was called [starts] times and rejected [failures]
    times. *)
Inductive interleaving (gpu : bool) (p : Vars * list Task)
  : nat -> nat -> Vars * list Task -> Prop :=
| interleaving_nil : interleaving gpu p 0 0 p
| interleaving_step starts failures vs ts i t vs' t' :
    interleaving gpu p starts failures (vs, ts) ->
    ts !! i = Some t ->
    step gpu vs t vs' t' ->
    interleaving gpu p
      (starts + (if is_start t t' then 1 else 0))
      (failures + (if is_failure t t' then 1 else 0))
      (vs', <[i := t']> ts).

End Session.
Export Session.

(** ** What the patterns mean *)

Module Patterns.

(** [matches r s rest]: the pattern [r] matches a prefix of [s] and
    leaves [rest]. *)
Inductive matches : regex -> jsstring -> jsstring -> Prop :=
| matches_eps s : matches Eps s s
| matches_cls (p : N -> bool) c s : p c = true -> matches (Cls p) (c :: s) s
| matches_seq r1 r2 s s1 s2 :
    matches r1 s s1 -> matches r2 s1 s2 -> matches (Seq r1 r2) s s2
| matches_alt_l r1 r2 s s1 : matches r1 s s1 -> matches (Alt r1 r2) s s1
| matches_alt_r r1 r2 s s1 : matches r2 s s1 -> matches (Alt r1 r2) s s1
| matches_star_done r s : matches (Star r) s s
| matches_star_more r s s1 s2 :
    matches r s s1 -> length s1 < length s -> matches (Star r) s1 s2 ->
    matches (Star r) s s2
| matches_eos : matches Eos [] [].

(** The loop of a star, with its fuel. *)
Definition star_loop {A} (r1 : regex) (k : jsstring -> option A) :=
  fix iter (fuel : nat) (s : jsstring) : option A :=
    match fuel with
    | O => k s
    | S fuel' =>
        match run r1 s (fun s1 =>
                if length s1 <? length s then iter fuel' s1 else None) with
        | Some x => Some x
        | None => k s
        end
    end.

(** Equal up to the case of ASCII letters (and of U+00E9). *)
Definition ci_equal (a b : jsstring) : Prop :=
  List.map fold_case a = List.map fold_case b.

(** [s] begins with [w], in any letter case. *)
Definition starts_with_ci (w s : jsstring) : Prop :=
  exists m rest, s = m ++ rest /\ ci_equal m w.

(** [s] contains [w], in any letter case. *)
Definition mentions_ci (w s : jsstring) : Prop :=
  exists pre rest, s = pre ++ rest /\ starts_with_ci w rest.

(** No white space at either end. *)
Definition trimmed (s : jsstring) : Prop :=
  (forall c, head s = Some c -> is_ws c = false)
  /\ (forall c, last s = Some c -> is_ws c = false).

(** [allThemes] of [generatePoem], lines 149-152. *)
Definition all_themes (wrappedData : Profile) : jsstring :=
  match join (lit ", ")
          (List.map (fun t => default [] (title t))
             (take 3 (default [] (themes wrappedData))))
  with
  | [] => lit "various topics"
  | s => s
  end.

(** Three digits in a row. *)
Definition has_three_digits (s : jsstring) : Prop :=
  exists pre a b c post,
    s = pre ++ a :: b :: c :: post
    /\ is_digit a = true /\ is_digit b = true /\ is_digit c = true.

(** What the validators look for, as plain lists of texts. *)
Definition banned_mentions : list jsstring :=
  [ lit "level up"; lit "you will be"; lit "help"; lit "assist";
    lit "provide"; lit "question" ].

Definition filler_openings : list jsstring :=
  [ lit "I "; lit "I'm "; lit "I'll "; lit "I've "; lit "Here";
    lit "Please"; lit "Sure"; lit "Let me" ].

Definition poem_openings : list jsstring :=
  [ lit "example"; lit "haiku"; lit "write"; lit "now"; lit "here";
    lit "sure"; lit "i "; lit "i'm"; lit "okay"; lit "let" ].

Definition leaks : list jsstring :=
  [ lit "R.I."; lit "Refract"; lit "Cl" ++ [233%N] ++ lit "au";
    lit "SmolLM"; lit "http:"; lit "https:" ].

Definition markup_characters : jsstring := lit "[]<>{}|" ++ [92%N].

(** What holds of a line of an accepted haiku. *)
Definition clean_line (l : jsstring) : Prop :=
  4 <= length l <= 50
  /\ 2 <= length (split_ws l) <= 8
  /\ (10%N ∉ l)
  /\ ~ has_run 4 l
  /\ (forall c, c ∈ l -> c ∉ markup_characters)
  /\ last l <> Some 58%N
  /\ (forall w, w ∈ poem_openings -> ~ starts_with_ci w l)
  /\ (forall w, w ∈ leaks -> ~ mentions_ci w l).

End Patterns.
Export Patterns.

(** ** Attempts and what the runtime is asked *)

Module Attempts.

Section WithCase.
Context {tables : CaseTables} (rt : Runtime).

(** The [n]-th model call, made on handle [h] with the poem prompt,
    gave a response that was rejected, or one accepted as [text]. *)
Definition poem_rejected (p : Profile) (h : Handle) (n : nat) : Prop :=
  exists out response,
    call rt h n (poem_prompt p) 40 = Ok out
    /\ normalize_output out = Ok response
    /\ haiku_of response = None.

Definition poem_accepted (p : Profile) (h : Handle) (n : nat)
    (text : jsstring) : Prop :=
  exists out response,
    call rt h n (poem_prompt p) 40 = Ok out
    /\ normalize_output out = Ok response
    /\ haiku_of response = Some text.

(** The [n]-th model call, made for the stem [start], failed as an
    attempt: it threw, or its completion was rejected. *)
Definition prediction_failed (start : jsstring) (h : Handle) (n : nat)
  : Prop :=
  match rbind (call rt h n (prediction_prompt start) 20) normalize_output with
  | Ok response => isValid (completion_of response) = false
  | Throw _ => True
  | Pending => False
  end.

Definition prediction_accepted (start : jsstring) (h : Handle) (n : nat)
    (text : jsstring) : Prop :=
  exists response,
    rbind (call rt h n (prediction_prompt start) 20) normalize_output
    = Ok response
    /\ isValid (completion_of response) = true
    /\ text = start ++ lit " " ++ completion_of response.

End WithCase.

(** Two runtimes that initialise alike. *)
Definition same_backend (rt1 rt2 : Runtime) : Prop :=
  has_gpu rt1 = has_gpu rt2
  /\ forall n d, pipeline rt1 n d = pipeline rt2 n d.

(** Two runtimes that answer alike when asked one of [asked] with a
    budget of [k] tokens. *)
Definition same_answers (rt1 rt2 : Runtime) (asked : list jsstring)
    (k : nat) : Prop :=
  forall h n prompt,
    prompt ∈ asked -> call rt1 h n prompt k = call rt2 h n prompt k.

End Attempts.
Export Attempts.

(** ** Vocabulary of the further statements *)

Module Further.

(** Some token that names no inherited property, of length at least 3,
    appears 3 or more times. *)
Definition counted_word_repeats (words : list jsstring) : Prop :=
  exists w,
    is_inherited w = false /\ 3 <= length w /\ 3 <= occurrences w words.

(** What the slots of [wordCounts] hold during the count: a count below
    3 under a name that is not inherited, text under one that is. *)
Definition slots_ok (wordCounts : gmap jsstring CountVal) : Prop :=
  forall w v,
    wordCounts !! w = Some v ->
    (exists n, v = CNum n /\ n < 3 /\ is_inherited w = false)
    \/ (v = CText /\ is_inherited w = true).

(** A [null] or [undefined] entry comes before any entry tagged as the
    model's own turn. *)
Definition null_before_own_turn (items : list value) : Prop :=
  exists pre m post,
    items = pre ++ m :: post
    /\ (m = VNull \/ m = VUndefined)
    /\ Forall (fun x => x <> VNull /\ x <> VUndefined /\ own_turn x = false)
         pre.

End Further.
Export Further.

(** ** Numbered lines *)

Module Numbering.

(** A non-empty run of digits, and a run of white space. *)
Definition digits (ds : jsstring) : Prop :=
  ds <> [] /\ Forall (fun c => is_digit c = true) ds.

Definition blanks (ws : jsstring) : Prop :=
  Forall (fun c => is_ws c = true) ws.

(** The text begins, if it is not empty, with a character that is
    neither white space, nor a digit, nor one of [. ) :]. *)
Definition starts_text (rest : jsstring) : Prop :=
  forall c, head rest = Some c ->
    is_ws c = false /\ is_digit c = false /\ c ∉ lit ".):".

(** [line] is [rest] behind a number: digits, at most one of [. ) :],
    white space. *)
Definition numbered (line rest : jsstring) : Prop :=
  exists ds p ws,
    line = ds ++ p ++ ws ++ rest
    /\ digits ds
    /\ (p = [] \/ exists c, p = [c] /\ c ∈ lit ".):")
    /\ blanks ws.

(** [line] is [rest] behind a label: "Line" in any letter case, white
    space, digits, at most one colon, white space. *)
Definition labelled (line rest : jsstring) : Prop :=
  exists l ws1 ds p ws2,
    line = l ++ ws1 ++ ds ++ p ++ ws2 ++ rest
    /\ ci_equal l (lit "Line")
    /\ blanks ws1
    /\ digits ds
    /\ (p = [] \/ p = lit ":")
    /\ blanks ws2.

End Numbering.
Export Numbering.

(** ** Further test doubles *)

Module Samples.

(** A runtime whose initialisation never settles. *)
Definition hanging_rt : Runtime :=
  {| has_gpu := false;
     pipeline := fun _ _ => Pending;
     call := fun _ _ _ _ => Ok (generated (lit "???")) |}.

(** A runtime that answers [text] to the calls made with a budget of
    [k] tokens and rejects every other call. *)
Definition budget_rt (k : nat) (text : jsstring) : Runtime :=
  {| has_gpu := false;
     pipeline := fun _ _ => Ok 1;
     call := fun _ _ _ maxTokens =>
       if maxTokens =? k then Ok (generated text)
       else Throw (BackendError 2) |}.

(** A browser with neither WebGPU nor WebAssembly. *)
Definition bare_browser : Browser :=
  {| navigator_gpu := false; has_WebAssembly := false |}.

(** The state after a rejected load followed by a successful one. *)
Definition loaded_at_second : State :=
  {| generator := Some 1; modelLoading := false; modelReady := true;
     pipeline_calls := 2; model_calls := 0 |}.

(** A response that is a haiku as it stands. *)
Definition three_lines : jsstring :=
  lit "Quiet morning code
Silver rivers of logic
Gentle thoughts arise".

Definition sample_unit : PredictionUnit :=
  {| start := lit "Next year you will"; fallback := lit "Stay curious" |}.

End Samples.
Export Samples.
(** * Properties *)

(** ** The backend handle *)

Section BackendFacts.
Context (rt : Runtime).

Lemma loadModel_ready st :
  ready st -> loadModel rt st = (Ok (generator st), st).
Proof.
  intros [Hr Hg]. unfold loadModel. rewrite Hr.
  rewrite bool_decide_eq_true_2 by done. reflexivity.
Qed.

Lemma not_ready_test st :
  modelReady st = false \/ generator st = None ->
  modelReady st && bool_decide (is_Some (generator st)) = false.
Proof.
  intros [-> | ->]; [done|]. rewrite bool_decide_eq_false_2.
  - apply andb_false_r.
  - intros [? ?]; discriminate.
Qed.

(** A call that starts the load: what it returns and where it leaves
    the variables. *)
Lemma loadModel_start st :
  modelLoading st = false ->
  modelReady st && bool_decide (is_Some (generator st)) = false ->
  loadModel rt st =
    match pipeline rt (pipeline_calls st) (if has_gpu rt then WebGPU else Wasm) with
    | Ok h =>
        (Ok (Some h),
         {| generator := Some h; modelLoading := false; modelReady := true;
            pipeline_calls := S (pipeline_calls st);
            model_calls := model_calls st |})
    | Throw _ =>
        (Throw LoadFailed,
         {| generator := generator st; modelLoading := false;
            modelReady := modelReady st;
            pipeline_calls := S (pipeline_calls st);
            model_calls := model_calls st |})
    | Pending =>
        (Pending,
         {| generator := generator st; modelLoading := true;
            modelReady := modelReady st;
            pipeline_calls := S (pipeline_calls st);
            model_calls := model_calls st |})
    end.
Proof.
  intros Hl Hn. unfold loadModel. rewrite Hn, Hl.
  unfold bind, modify, try_finally, try_catch, await_pipeline, ret, throw.
  cbn. destruct (pipeline rt _ _); reflexivity.
Qed.

Lemma loadModel_ok_ready st h st' :
  loadModel rt st = (Ok h, st') ->
  ready st' /\ generator st' = h /\ model_calls st' = model_calls st
  /\ modelLoading st' = modelLoading st.
Proof.
  unfold loadModel at 1.
  destruct (modelReady st && bool_decide (is_Some (generator st))) eqn:Ht.
  - intros [= <- <-]. apply andb_prop in Ht as [Hr Hg].
    apply bool_decide_eq_true_1 in Hg. repeat split; done.
  - destruct (modelLoading st) eqn:Hl; [discriminate|].
    intros Hrun.
    pose proof (loadModel_start st Hl Ht) as Hs.
    unfold loadModel in Hs. rewrite Ht, Hl in Hs. rewrite Hs in Hrun.
    destruct (pipeline rt _ _); inversion Hrun; subst; cbn.
    repeat split; eauto.
Qed.

(** A call made when Unloaded, by the outcome of [pipeline]. *)
Lemma loadModel_unloaded_fails st e :
  vars_of st = unloaded_vars ->
  pipeline rt (pipeline_calls st) (device_of rt) = Throw e ->
  exists st',
    loadModel rt st = (Throw LoadFailed, st')
    /\ vars_of st' = unloaded_vars
    /\ pipeline_calls st' = S (pipeline_calls st).
Proof.
  intros Hv Hp. unfold vars_of, unloaded_vars in Hv.
  injection Hv as Hg Hl Hr.
  rewrite loadModel_start by (auto using not_ready_test).
  fold (device_of rt). rewrite Hp. eexists. split; [done|].
  unfold vars_of; simpl. by rewrite Hg, Hr.
Qed.

Lemma loadModel_unloaded_loads st h :
  vars_of st = unloaded_vars ->
  pipeline rt (pipeline_calls st) (device_of rt) = Ok h ->
  exists st',
    loadModel rt st = (Ok (Some h), st')
    /\ ready st' /\ generator st' = Some h
    /\ pipeline_calls st' = S (pipeline_calls st).
Proof.
  intros Hv Hp. unfold vars_of, unloaded_vars in Hv.
  injection Hv as Hg Hl Hr.
  rewrite loadModel_start by (auto using not_ready_test).
  fold (device_of rt). rewrite Hp. eexists. split; [done|].
  repeat split; simpl; eauto.
Qed.

End BackendFacts.

(** *** Interleaved calls *)

Section Interleaving.
Context (gpu : bool).

Lemma loads_in_flight_insert ts i t t' :
  ts !! i = Some t ->
  loads_in_flight (<[i := t']> ts) + (if awaiting t then 1 else 0)
  = loads_in_flight ts + (if awaiting t' then 1 else 0).
Proof.
  unfold loads_in_flight. revert i.
  induction ts as [|x ts IH]; intros [|i] Hi; simplify_eq/=.
  - destruct (awaiting t), (awaiting t'); simpl; lia.
  - specialize (IH _ Hi). destruct (awaiting x); simpl; lia.
Qed.

Lemma fresh_pool_inv n : pool_inv (fresh_pool n).
Proof.
  unfold fresh_pool, unloaded_vars, pool_inv. split; [|split]; try done.
  unfold loads_in_flight. induction n; simpl; auto.
Qed.

Lemma pool_step_inv p q : pool_inv p -> pool_step gpu p q -> pool_inv q.
Proof.
  intros Hinv Hstep. destruct Hstep as [vs ts i t vs' t' Hi Hs].
  pose proof (loads_in_flight_insert ts i t t' Hi) as Hc.
  destruct Hs as [g l Hg | g r Hr | g r Hr | g r | g r | g l r d h | g l r d];
    unfold pool_inv in *; simpl in *;
    destruct Hinv as (Hrg & Hlr & Hn); rewrite ?Hn in Hc.
  - repeat split; try tauto. lia.
  - repeat split; try tauto. lia.
  - repeat split; try tauto; [|lia].
    intros _. destruct r; [|done].
    destruct Hrg as [Hrg _]. specialize (Hrg eq_refl).
    rewrite bool_decide_eq_true_2 in Hr by done. done.
  - repeat split; try tauto. lia.
  - repeat split; try tauto. lia.
  - repeat split; eauto; try done.
    destruct l; lia.
  - repeat split; try tauto; try done.
    destruct l; lia.
Qed.

Lemma reachable_inv n p : reachable gpu n p -> pool_inv p.
Proof.
  unfold reachable. intros Hr.
  eapply (rtc_ind_r (fun q => pool_inv q)); [apply fresh_pool_inv | | exact Hr].
  intros y z _ Hs IH. eapply pool_step_inv; eauto.
Qed.

Lemma awaiting_in_flight ts i d :
  ts !! i = Some (AwaitingPipeline d) -> 0 < loads_in_flight ts.
Proof.
  unfold loads_in_flight. revert i.
  induction ts as [|x ts IH]; intros [|i] Hi; simplify_eq/=; [lia|].
  specialize (IH _ Hi). destruct (awaiting x); simpl; lia.
Qed.

Lemma pool_step_edge vs ts vs' ts' :
  pool_inv (vs, ts) ->
  pool_step gpu (vs, ts) (vs', ts') ->
  edge (lifecycle vs) (lifecycle vs')
  /\ (lifecycle vs = Ready -> vs' = vs).
Proof.
  intros Hinv Hstep. inversion Hstep as [? ? i t ? t' Hi Hs]; subst.
  pose proof (awaiting_in_flight ts i) as Haw.
  destruct Hs as [g l Hg | g r Hr | g r Hr | g r | g r | g l r d h | g l r d];
    unfold pool_inv, lifecycle in *;
    destruct Hinv as (Hrg & Hlr & Hn);
    try (split; [apply edge_stay | done]).
  - rewrite Hr. split; [apply edge_start | done].
  - specialize (Haw _ Hi). rewrite Hn in Haw.
    destruct l; [|lia]. rewrite (Hlr eq_refl). simpl.
    split; [apply edge_loaded|done].
  - specialize (Haw _ Hi). rewrite Hn in Haw.
    destruct l; [|lia]. rewrite (Hlr eq_refl). simpl.
    split; [apply edge_failed | done].
Qed.

End Interleaving.

(** A sequential call of [loadModel] is one run of a task. *)
Lemma loadModel_is_a_task rt st r st' :
  loadModel rt st = (r, st') -> r <> Pending ->
  step (has_gpu rt) (vars_of st) AtEntry (vars_of st') (Finished r)
  \/ exists d,
       step (has_gpu rt) (vars_of st) AtEntry
         (generator st, true, modelReady st) (AwaitingPipeline d)
       /\ step (has_gpu rt) (generator st, true, modelReady st)
            (AwaitingPipeline d) (vars_of st') (Finished r).
Proof.
  intros Hrun Hr. unfold vars_of.
  destruct (modelReady st && bool_decide (is_Some (generator st))) eqn:Ht.
  - left. apply andb_prop in Ht as [Hy Hg]. apply bool_decide_eq_true_1 in Hg.
    rewrite loadModel_ready in Hrun by done. inversion Hrun; subst.
    rewrite Hy. by apply step_cached.
  - destruct (modelLoading st) eqn:Hl.
    { unfold loadModel in Hrun. rewrite Ht, Hl in Hrun. by inversion Hrun. }
    right. exists (if has_gpu rt then WebGPU else Wasm). split.
    + by apply step_start.
    + rewrite loadModel_start in Hrun by done.
      destruct (pipeline rt _ _); inversion Hrun; subst; simpl;
        [apply step_loaded | apply step_load_failed | done].
Qed.

(** C4, as amended.  The lifecycle is Unloaded -> Loading -> Ready, with
    Loading -> Unloaded on an initialisation error; there is no separate
    failed state.  Over any interleaving of calls issued on a fresh page,
    every step follows one of these edges, Ready is never left and keeps
    the cached handle, and at most one load is in flight.  A call made
    when Ready returns the cached handle without calling [pipeline].  A
    call made when Unloaded calls [pipeline] once: on an error it throws
    to its caller and leaves the variables Unloaded (so a later call
    initialises again); on success it returns the handle and leaves the
    state Ready. *)
Theorem backend_lifecycle :
  (forall gpu n vs ts vs' ts',
      reachable gpu n (vs, ts) ->
      pool_step gpu (vs, ts) (vs', ts') ->
      edge (lifecycle vs) (lifecycle vs')
      /\ (lifecycle vs = Ready -> vs' = vs)
      /\ loads_in_flight ts' <= 1)
  /\ (forall rt st, ready st -> loadModel rt st = (Ok (generator st), st))
  /\ (forall rt st e,
        vars_of st = unloaded_vars ->
        pipeline rt (pipeline_calls st) (device_of rt) = Throw e ->
        exists st',
          loadModel rt st = (Throw LoadFailed, st')
          /\ vars_of st' = unloaded_vars
          /\ pipeline_calls st' = S (pipeline_calls st))
  /\ (forall rt st h,
        vars_of st = unloaded_vars ->
        pipeline rt (pipeline_calls st) (device_of rt) = Ok h ->
        exists st',
          loadModel rt st = (Ok (Some h), st')
          /\ ready st' /\ generator st' = Some h
          /\ pipeline_calls st' = S (pipeline_calls st)).
Proof.
  split; [|split; [|split]].
  - intros gpu n vs ts vs' ts' Hreach Hstep.
    pose proof (reachable_inv gpu n _ Hreach) as Hinv.
    pose proof (pool_step_inv gpu _ _ Hinv Hstep) as Hinv'.
    destruct (pool_step_edge gpu vs ts vs' ts' Hinv Hstep) as [He Hr].
    repeat split; try done.
    destruct vs' as [[g l] r]. destruct Hinv' as (_ & _ & ->).
    destruct l; lia.
  - intros. by apply loadModel_ready.
  - intros. by eapply loadModel_unloaded_fails.
  - intros. by eapply loadModel_unloaded_loads.
Qed.

Lemma backend_lifecycle_witness :
  (edge (lifecycle unloaded_vars) (lifecycle (None, true, false))
   /\ (lifecycle unloaded_vars = Ready -> (None, true, false) = unloaded_vars)
   /\ loads_in_flight (<[0 := AwaitingPipeline Wasm]> [AtEntry]) <= 1)
  /\ exists st',
       loadModel down_rt initial = (Throw LoadFailed, st')
       /\ vars_of st' = unloaded_vars
       /\ pipeline_calls st' = 1.
Proof.
  split.
  - apply (proj1 backend_lifecycle false 1 unloaded_vars [AtEntry]).
    + apply rtc_refl.
    + apply (pool_step_at false unloaded_vars [AtEntry] 0 AtEntry);
        [reflexivity | by apply (step_start false)].
  - apply (proj1 (proj2 (proj2 backend_lifecycle)) down_rt initial
             (BackendError 0)); reflexivity.
Defined.

(** C4, as stated, fails: a failed initialisation is not terminal.  After
    the first call has thrown, the variables are those of a fresh page and
    the next call loads again, reaching Ready; a task parked in the polling
    loop while the load fails finishes with [null], not with an error. *)
Lemma failed_load_is_not_terminal :
  (exists st1 st2,
      loadModel flaky_rt initial = (Throw LoadFailed, st1)
      /\ vars_of st1 = unloaded_vars
      /\ loadModel flaky_rt st1 = (Ok (Some 1), st2)
      /\ pipeline_calls st2 = 2
      /\ lifecycle (vars_of st2) = Ready)
  /\ reachable false 2
       (unloaded_vars, [Finished (Throw LoadFailed); Finished (Ok None)]).
Proof.
  split.
  - do 2 eexists. repeat split; reflexivity.
  - unfold reachable, fresh_pool, unloaded_vars. simpl.
    eapply rtc_l.
    { apply (pool_step_at false _ _ 0 AtEntry); [reflexivity|].
      by apply (step_start false). }
    eapply rtc_l.
    { apply (pool_step_at false _ _ 1 AtEntry); [reflexivity|].
      by apply (step_wait false). }
    eapply rtc_l.
    { apply (pool_step_at false _ _ 0 (AwaitingPipeline Wasm)); [reflexivity|].
      apply step_load_failed. }
    eapply rtc_l.
    { apply (pool_step_at false _ _ 1 Polling); [reflexivity|].
      apply step_poll_done. }
    apply rtc_refl.
Qed.

(** ** Generation from a loaded backend *)

Section GenerationFacts.
Context {tables : CaseTables} (rt : Runtime).

Local Open Scope js_scope.

Lemma after_calls_ready n st : ready st -> ready (after_calls n st).
Proof. intros [? ?]; split; done. Qed.

Lemma after_calls_0 st : after_calls 0 st = st.
Proof. by destruct st. Qed.

Lemma after_calls_plus n m st :
  after_calls n (after_calls m st) = after_calls (n + m) st.
Proof. unfold after_calls; simpl. f_equal. lia. Qed.

Lemma generate_ready st prompt k h :
  ready st -> generator st = Some h ->
  generate rt prompt k st
  = (rbind (call rt h (model_calls st) prompt k) normalize_output,
     after_calls 1 st).
Proof.
  intros Hr Hg. unfold generate, bind.
  rewrite loadModel_ready by done. rewrite Hg. unfold await_call, lift.
  unfold after_calls. destruct (call rt h _ _ _); reflexivity.
Qed.

Lemma ready_handle st : ready st -> exists h, generator st = Some h.
Proof. intros [_ [h Hh]]. eauto. Qed.

(** One pass of the poem loop. *)
Lemma poem_attempts_S p n st h :
  ready st -> generator st = Some h ->
  poem_attempts rt p (S n) st =
    match rbind (call rt h (model_calls st) (poem_prompt p) 40) normalize_output with
    | Ok response =>
        match haiku_of response with
        | Some haiku => (Ok haiku, after_calls 1 st)
        | None => poem_attempts rt p n (after_calls 1 st)
        end
    | Throw e => (Throw e, after_calls 1 st)
    | Pending => (Pending, after_calls 1 st)
    end.
Proof.
  intros Hr Hg. simpl. unfold bind at 1. rewrite (generate_ready _ _ _ h) by done.
  destruct (rbind _ _); try reflexivity.
  destruct (haiku_of a); reflexivity.
Qed.

(** One pass of the prediction loop: an error thrown by the attempt is
    caught. *)
Lemma prediction_attempt_ready start st h :
  ready st -> generator st = Some h ->
  prediction_attempt rt start st =
    match rbind (call rt h (model_calls st) (prediction_prompt start) 20)
            normalize_output with
    | Ok response =>
        (Ok (if isValid (completion_of response)
             then Some (start ++ lit " " ++ completion_of response)
             else None),
         after_calls 1 st)
    | Throw _ => (Ok None, after_calls 1 st)
    | Pending => (Pending, after_calls 1 st)
    end.
Proof.
  intros Hr Hg. unfold prediction_attempt, try_catch, bind.
  rewrite (generate_ready _ _ _ h) by done.
  destruct (rbind _ _); try reflexivity.
  destruct (isValid _); reflexivity.
Qed.

End GenerationFacts.

(** ** Text helpers *)

Section TextFacts.

Lemma split_go_hd cur s :
  List.hd [] (split_go 10 cur s) = cur ++ first_line s.
Proof.
  revert cur. induction s as [|c s IH]; intros cur; simpl.
  - by rewrite app_nil_r.
  - destruct (c =? 10)%N; simpl.
    + by rewrite app_nil_r.
    + rewrite IH. by rewrite <- app_assoc.
Qed.

Lemma split_hd_first_line s : List.hd [] (split 10 s) = first_line s.
Proof. unfold split. by rewrite split_go_hd. Qed.

(** A greedy [\s*] with nothing after it consumes the leading white
    space. *)
Lemma star_space_greedy s : run (Star space) s Some = Some (trim_start s).
Proof.
  simpl. generalize (Nat.le_refl (length s)).
  generalize (length s) at 2 3 as fuel.
  intros fuel. revert s. induction fuel as [|fuel IH]; intros s Hlen.
  - destruct s; [done | simpl in Hlen; lia].
  - destruct s as [|c s]; [done|]. simpl.
    destruct (is_ws c) eqn:Hc; [|done].
    rewrite (proj2 (Nat.ltb_lt _ _)) by lia.
    rewrite IH by (simpl in Hlen; lia).
    reflexivity.
Qed.

Lemma strip_arrow s :
  strip_prefix (Seq (word_of chr arrow) (Star space)) s = without_arrow s.
Proof.
  unfold strip_prefix, arrow, without_arrow.
  destruct s as [|c s]; [done|].
  change (run (Seq (word_of chr [8594%N]) (Star space)) (c :: s) Some)
    with (if (c =? 8594)%N then run (Star space) s Some else None).
  destruct (c =? 8594)%N; [|done].
  by rewrite star_space_greedy.
Qed.

Lemma completion_of_first_line response :
  completion_of response
  = trim (without_arrow (trim (first_line (trim response)))).
Proof.
  unfold completion_of. by rewrite strip_arrow, split_hd_first_line.
Qed.

End TextFacts.

(** ** The normaliser settles *)

Section NormalizerSettles.

Lemma find_assistant_settles items : find_assistant items <> Pending.
Proof.
  induction items as [|m items IH]; [done|]. simpl.
  destruct (prop _ m) as [role| |] eqn:Hp; simpl; try done.
  - destruct (is_assistant role); done.
  - destruct m; discriminate.
Qed.

(** Induction on values, through the elements of an array. *)
Lemma value_elements_ind (P : value -> Prop) :
  P VUndefined -> P VNull -> (forall b, P (VBool b)) ->
  (forall s, P (VStr s)) ->
  (forall items, Forall P items -> P (VArr items)) ->
  (forall fields, P (VObj fields)) ->
  forall v, P v.
Proof.
  intros Hu Hn Hb Hs Ha Ho.
  refine (fix IH (v : value) : P v :=
            match v with
            | VUndefined => Hu
            | VNull => Hn
            | VBool b => Hb b
            | VStr s => Hs s
            | VArr items =>
                Ha items
                  ((fix all (l : list value) : Forall P l :=
                      match l with
                      | [] => Forall_nil_2 P
                      | x :: rest => Forall_cons_2 P x rest (IH x) (all rest)
                      end) items)
            | VObj fields => Ho fields
            end).
Qed.

(** [String(v)] returns a string or throws a [TypeError]. *)
Lemma to_string_cases v :
  (exists s, to_string v = Ok s) \/ to_string v = Throw TypeError.
Proof.
  induction v as [| |b|s|items IH|fields] using value_elements_ind;
    try (left; eexists; reflexivity).
  - destruct b; left; eexists; reflexivity.
  - cbn [to_string].
    match goal with
    | |- context [rbind (?F items) _] =>
        assert ((exists parts, F items = Ok parts)
                \/ F items = Throw TypeError) as [[parts ->] | ->]
    end; [|left; eexists; reflexivity|by right].
    induction IH as [|x rest Hx _ IHrest]; [left; by eexists|].
    assert ((exists next,
               match x with
               | VUndefined | VNull => Ok []
               | _ => to_string x
               end = Ok next)
            \/ match x with
               | VUndefined | VNull => Ok []
               | _ => to_string x
               end = Throw TypeError) as [[next ->] | ->].
    { destruct x; try done; left; by eexists. }
    + simpl. destruct IHrest as [[parts ->] | ->]; [left; by eexists|by right].
    + by right.
  - cbn [to_string]. destruct (has_own _ fields); [by right|].
    left. by eexists.
Qed.

Lemma to_string_settles v : to_string v <> Pending.
Proof. destruct (to_string_cases v) as [[s ->] | ->]; done. Qed.

Lemma to_string_throws v e : to_string v = Throw e -> e = TypeError.
Proof.
  destruct (to_string_cases v) as [[s ->] | ->]; [done|]. by intros [= <-].
Qed.

(** A payload without an own [toString] anywhere is printed. *)
Lemma to_string_plain v : plain v = true -> exists s, to_string v = Ok s.
Proof.
  induction v as [| |b|s|items IH|fields] using value_elements_ind;
    intros Hp; try (eexists; reflexivity).
  - destruct b; eexists; reflexivity.
  - cbn [to_string]. cbn [plain] in Hp.
    match goal with
    | |- context [rbind (?F items) _] =>
        assert (exists parts, F items = Ok parts) as [parts ->]
    end; [|eexists; reflexivity].
    induction IH as [|x rest Hx _ IHrest]; [by eexists|].
    cbn [forallb] in Hp. apply andb_prop in Hp as [Hpx Hprest].
    destruct (IHrest Hprest) as [parts ->].
    assert (exists next,
              match x with
              | VUndefined | VNull => Ok []
              | _ => to_string x
              end = Ok next) as [next ->].
    { destruct x; try (by eexists); by apply Hx. }
    by eexists.
  - cbn [to_string]. cbn [plain] in Hp. apply andb_prop in Hp as [Hp _].
    apply negb_true_iff in Hp. rewrite Hp. by eexists.
Qed.

Lemma plain_own_field k fields :
  plain (VObj fields) = true -> plain (own_field k fields) = true.
Proof.
  cbn [plain]. intros Hp. apply andb_prop in Hp as [_ Hp].
  induction fields as [|[k' v] fields IH]; [done|].
  cbn [forallb] in Hp. apply andb_prop in Hp as [Hv Hp]. simpl.
  destruct (str_eqb k k'); [done | by apply IH].
Qed.

Lemma plain_opt_prop k v : plain v = true -> plain (opt_prop k v) = true.
Proof. destruct v; try done. apply plain_own_field. Qed.

Lemma finish_settles v : finish v <> Pending.
Proof. unfold finish. apply to_string_settles. Qed.

Lemma normalize_settles v : normalize v <> Pending.
Proof.
  unfold normalize.
  destruct v as [| |b|s|items|fields]; cbn [rbind];
    try apply to_string_settles.
  pose proof (find_assistant_settles items) as Hf.
  destruct (find_assistant items); cbn [rbind];
    [apply to_string_settles | done | done].
Qed.

Lemma normalize_output_settles out : normalize_output out <> Pending.
Proof.
  unfold normalize_output.
  destruct (index0 out) eqn:Hi; simpl; try done.
  - apply normalize_settles.
  - destruct out as [| | |[|]| |]; discriminate.
Qed.

End NormalizerSettles.

(** ** The retry loops *)

Section RetryLoops.
Context {tables : CaseTables} (rt : Runtime).

Lemma call_then_normalize h n prompt k response :
  rbind (call rt h n prompt k) normalize_output = Ok response ->
  exists out, call rt h n prompt k = Ok out /\ normalize_output out = Ok response.
Proof. destruct (call rt h n prompt k); simpl; try done. eauto. Qed.

Lemma call_then_normalize_pending h n prompt k :
  rbind (call rt h n prompt k) normalize_output = Pending -> ~ settles rt.
Proof.
  destruct (call rt h n prompt k) eqn:Hc; simpl; try done.
  - intros Hn. by apply normalize_output_settles in Hn.
  - intros _ [_ Hs]. by apply Hs in Hc.
Qed.

Lemma isValid_length completion :
  isValid completion = true -> 5 <= length completion <= 80.
Proof.
  unfold isValid. intros Hv.
  repeat (apply andb_prop in Hv as [Hv ?]).
  apply Nat.leb_le in Hv. split; [done|]. by apply Nat.leb_le.
Qed.

Lemma prediction_attempts_spec start n st h :
  ready st -> generator st = Some h ->
  match prediction_attempts rt start n st with
  | (Ok r, st') =>
      exists m, m <= n /\ st' = after_calls m st
        /\ match r with
           | Some prediction => produced rt start prediction
           | None => m = n
           end
  | (Throw _, _) => False
  | (Pending, _) => ~ settles rt
  end.
Proof.
  revert st. induction n as [|n IH]; intros st Hr Hg.
  - simpl. exists 0. by rewrite after_calls_0.
  - simpl. unfold bind at 1.
    rewrite (prediction_attempt_ready rt start st h) by done.
    assert (Hnext :
      match prediction_attempts rt start n (after_calls 1 st) with
      | (Ok r, st') =>
          exists m, m <= S n /\ st' = after_calls m st
            /\ match r with
               | Some prediction => produced rt start prediction
               | None => m = S n
               end
      | (Throw _, _) => False
      | (Pending, _) => ~ settles rt
      end).
    { specialize (IH (after_calls 1 st) (after_calls_ready 1 st Hr) Hg).
      destruct (prediction_attempts rt start n (after_calls 1 st))
        as [[r| |] st']; try done.
      destruct IH as (m & Hm & -> & Hres). exists (S m).
      rewrite after_calls_plus. replace (m + 1) with (S m) by lia.
      repeat split; [lia|]. destruct r; [done | lia]. }
    destruct (rbind _ _) as [response| |] eqn:Hresp.
    + destruct (isValid (completion_of response)) eqn:Hv; [|exact Hnext].
      unfold ret. exists 1. repeat split; [lia|].
      apply call_then_normalize in Hresp as (out & Hc & Hn).
      exists h, (model_calls st), out, response.
      rewrite <- completion_of_first_line.
      repeat split; auto using isValid_length; by apply isValid_length.
    + exact Hnext.
    + by apply call_then_normalize_pending in Hresp.
Qed.

Lemma for_each_spec units st h :
  ready st -> generator st = Some h ->
  match for_each rt units st with
  | (Ok predictions, st') =>
      Forall2 (anchored rt) units predictions
      /\ exists m, m <= MAX_RETRIES * length units /\ st' = after_calls m st
  | (Throw _, _) => False
  | (Pending, _) => ~ settles rt
  end.
Proof.
  revert st. induction units as [|u units IH]; intros st Hr Hg.
  - simpl. split; [constructor|]. exists 0. by rewrite after_calls_0.
  - simpl. unfold bind at 1. unfold prediction_unit, bind at 1.
    pose proof (prediction_attempts_spec (start u) MAX_RETRIES st h Hr Hg) as Hu.
    destruct (prediction_attempts rt (start u) MAX_RETRIES st)
      as [[r| |] st1]; try done.
    destruct Hu as (m & Hm & -> & Hres).
    assert (Hrest :
      forall prediction, anchored rt u prediction ->
      match bind (for_each rt units)
              (fun predictions => ret (prediction :: predictions))
              (after_calls m st) with
      | (Ok predictions, st') =>
          Forall2 (anchored rt) (u :: units) predictions
          /\ exists m', m' <= MAX_RETRIES * S (length units)
                        /\ st' = after_calls m' st
      | (Throw _, _) => False
      | (Pending, _) => ~ settles rt
      end).
    { intros prediction Ha. unfold bind.
      specialize (IH (after_calls m st) (after_calls_ready m st Hr) Hg).
      destruct (for_each rt units (after_calls m st)) as [[ps| |] st2];
        try done.
      destruct IH as (Hall & m2 & Hm2 & ->). unfold ret. split.
      - by constructor.
      - exists (m2 + m). rewrite after_calls_plus. split; [lia|done]. }
    destruct r as [prediction|]; unfold ret at 1; apply Hrest.
    + by right.
    + by left.
Qed.

End RetryLoops.

(** ** Exhausted retries *)

Section Exhaustion.
Context {tables : CaseTables} (rt : Runtime).

Lemma poem_attempts_exhausted p n st :
  always_invalid rt -> ready st ->
  poem_attempts rt p n st = (Ok (getFallbackPoem p), after_calls n st).
Proof.
  intros Hbad. revert st. induction n as [|n IH]; intros st Hr.
  - simpl. by rewrite after_calls_0.
  - destruct (ready_handle st Hr) as [h Hg].
    rewrite (poem_attempts_S rt p n st h) by done.
    destruct (Hbad h (model_calls st) (poem_prompt p) 40)
      as (out & response & -> & Hn & Hh & _).
    simpl. rewrite Hn, Hh. rewrite IH by (by apply after_calls_ready).
    rewrite after_calls_plus. by replace (n + 1) with (S n) by lia.
Qed.

Lemma prediction_attempts_exhausted start n st :
  always_invalid rt -> ready st ->
  prediction_attempts rt start n st = (Ok None, after_calls n st).
Proof.
  intros Hbad. revert st. induction n as [|n IH]; intros st Hr.
  - simpl. by rewrite after_calls_0.
  - destruct (ready_handle st Hr) as [h Hg].
    simpl. unfold bind at 1.
    rewrite (prediction_attempt_ready rt start st h) by done.
    destruct (Hbad h (model_calls st) (prediction_prompt start) 20)
      as (out & response & -> & Hn & _ & Hv).
    simpl. rewrite Hn, Hv. rewrite IH by (by apply after_calls_ready).
    rewrite after_calls_plus. by replace (n + 1) with (S n) by lia.
Qed.

Lemma prediction_unit_exhausted u st :
  always_invalid rt -> ready st ->
  prediction_unit rt u st = (Ok (fallback u), after_calls MAX_RETRIES st).
Proof.
  intros Hbad Hr. unfold prediction_unit, bind.
  by rewrite prediction_attempts_exhausted.
Qed.

Lemma for_each_exhausted units st :
  always_invalid rt -> ready st ->
  for_each rt units st
  = (Ok (List.map fallback units),
     after_calls (MAX_RETRIES * length units) st).
Proof.
  intros Hbad. revert st. induction units as [|u units IH]; intros st Hr.
  - simpl. by rewrite after_calls_0.
  - simpl for_each. unfold bind at 1.
    rewrite prediction_unit_exhausted by done.
    unfold bind. rewrite IH by (by apply after_calls_ready).
    unfold ret. rewrite after_calls_plus. simpl length.
    unfold MAX_RETRIES. do 2 f_equal. lia.
Qed.

(** C2, as amended.  Against a runtime whose every response is rejected,
    and once the initial [loadModel] has succeeded: [generatePoem] makes
    exactly 5 model calls and returns [getFallbackPoem] of the profile;
    every prediction unit makes exactly 5 model calls and yields the
    [fallback] text of its own entry in [prompts], so
    [generatePredictions] makes 20 calls and returns the four inline
    fallbacks. *)
Theorem exhaustion_returns_fallback p st g st1 :
  always_invalid rt ->
  loadModel rt st = (Ok g, st1) ->
  generatePoem rt p st = (Ok (getFallbackPoem p), after_calls 5 st1)
  /\ (forall u,
        prediction_unit rt u st1 = (Ok (fallback u), after_calls 5 st1))
  /\ generatePredictions rt p st
     = (Ok (List.map fallback (prompts p)), after_calls 20 st1).
Proof.
  intros Hbad Hload.
  destruct (loadModel_ok_ready rt st g st1 Hload) as (Hr & _).
  split; [|split].
  - unfold generatePoem, bind. rewrite Hload.
    by apply poem_attempts_exhausted.
  - intros u. by apply prediction_unit_exhausted.
  - unfold generatePredictions, bind. rewrite Hload.
    by rewrite for_each_exhausted.
Qed.

End Exhaustion.

Lemma exhaustion_returns_fallback_witness :
  generatePoem (tables := BasicLatin) (stub_rt (lit "???")) learner initial
  = (Ok (getFallbackPoem (tables := BasicLatin) learner), after_calls 5 loaded)
  /\ (forall u,
        prediction_unit (tables := BasicLatin) (stub_rt (lit "???")) u loaded
        = (Ok (fallback u), after_calls 5 loaded))
  /\ generatePredictions (tables := BasicLatin) (stub_rt (lit "???"))
       learner initial
     = (Ok (List.map fallback (prompts learner)), after_calls 20 loaded).
Proof.
  apply (exhaustion_returns_fallback (tables := BasicLatin)
           (stub_rt (lit "???")) learner initial (Some 1) loaded).
  - intros h n prompt k. exists (generated (lit "???")), (lit "???").
    repeat split; vm_compute; reflexivity.
  - reflexivity.
Defined.

(** C2, as stated, fails for predictions: with every response rejected
    the four texts returned after 20 calls are the inline fallbacks of
    [prompts], none of which is an entry of [getFallbackPredictions]. *)
Lemma exhausted_predictions_differ_from_getFallbackPredictions :
  exists predictions st',
    generatePredictions (tables := BasicLatin) (stub_rt (lit "???"))
      learner initial = (Ok predictions, st')
    /\ model_calls st' = 20
    /\ predictions
       = [ lit "Your Coding obsession will reach new heights";
           lit "As a true Learner, you'll discover 3 new use cases";
           quote ++ lit "remix" ++ quote ++ lit " will become your catchphrase";
           lit "Your Writing journey will surprise you" ]
    /\ getFallbackPredictions learner
       = [ lit "Your Coding obsession will reach new heights in 2026";
           lit "As a true Learner, you'll discover at least 3 new AI use cases";
           lit "Your message count will double - 212+ messages incoming";
           quote ++ lit "remix" ++ quote
             ++ lit " will become your catchphrase in Writing discussions" ]
    /\ Forall (fun prediction => prediction ∉ getFallbackPredictions learner)
         predictions.
Proof.
  do 2 eexists. split; [vm_compute; reflexivity|].
  split; [reflexivity|]. split; [reflexivity|]. split; [reflexivity|].
  repeat constructor; intros Hin; vm_compute in Hin;
    repeat (apply elem_of_cons in Hin as [Hin|Hin]; [discriminate|]);
    by apply elem_of_nil in Hin.
Qed.

(** ** Failure paths *)

Section FailurePaths.
Context {tables : CaseTables} (rt : Runtime).

Lemma app_cons_nonempty (a b : jsstring) c : a ++ c :: b <> [].
Proof. by destruct a. Qed.

Lemma getFallbackPoem_nonempty p : getFallbackPoem p <> [].
Proof. unfold getFallbackPoem. apply app_cons_nonempty. Qed.

Lemma filter_keep_line_length l ls :
  l ∈ List.filter keep_line ls -> 4 <= length l.
Proof.
  rewrite list_elem_of_In, filter_In. intros [_ Hk].
  unfold keep_line in Hk.
  destruct (length l <? 4) eqn:Hlt; [done|].
  apply Nat.ltb_ge in Hlt. done.
Qed.

Lemma haiku_nonempty response haiku :
  haiku_of response = Some haiku -> haiku <> [].
Proof.
  unfold haiku_of, poem_lines.
  set (lines := List.filter keep_line _).
  destruct (_ && _) eqn:Hc; [|done]. intros [= <-].
  destruct lines as [|l1 [|l2 [|l3 rest]]] eqn:Hl; try done.
  assert (4 <= length l1) as Hlen.
  { apply (filter_keep_line_length l1
             (List.map (strip_prefix line_number_prefix)
                (List.map trim (split 10 (trim response))))).
    fold lines. rewrite Hl. apply list_elem_of_here. }
  simpl. destruct l1; [simpl in Hlen; lia | done].
Qed.

Lemma prompts_fallback_nonempty p :
  Forall (fun u => fallback u <> []) (prompts p).
Proof. unfold prompts. repeat constructor; by simpl. Qed.

Lemma poem_attempts_answers p n st :
  answers rt -> ready st ->
  exists poem st',
    poem_attempts rt p n st = (Ok poem, st') /\ poem <> []
    /\ (poem = getFallbackPoem p \/ composed rt p poem).
Proof.
  intros Hans. revert st. induction n as [|n IH]; intros st Hr.
  - simpl. do 2 eexists. split; [done|].
    split; [apply getFallbackPoem_nonempty | by left].
  - destruct (ready_handle st Hr) as [h Hg].
    rewrite (poem_attempts_S rt p n st h) by done.
    destruct (Hans h (model_calls st) (poem_prompt p) 40)
      as (out & response & Hcall & Hn).
    rewrite Hcall. simpl. rewrite Hn.
    destruct (haiku_of response) as [haiku|] eqn:Hh.
    + do 2 eexists. split; [done|]. split; [by eapply haiku_nonempty|].
      right. by exists h, (model_calls st), out, response.
    + apply IH. by apply after_calls_ready.
Qed.

(** C1, as amended.  A failure of the initial [loadModel] is not turned
    into fallback text: both functions reject with the error of
    [loadModel].  Once the initial [loadModel] has succeeded,
    [generatePredictions] returns four non-empty strings whatever the
    settled outcome of each model call (an error thrown during an attempt
    is absorbed), each of them the fallback of its unit or the unit's
    stem followed by a validated completion; and [generatePoem] returns
    a non-empty text, [getFallbackPoem] of the profile or the haiku
    accepted from a response, when every model call returns a response
    that the normaliser turns into a string. *)
Theorem generation_failure_paths p st :
  (forall e,
      vars_of st = unloaded_vars ->
      pipeline rt (pipeline_calls st) (device_of rt) = Throw e ->
      (generatePoem rt p st).1 = Throw LoadFailed
      /\ (generatePredictions rt p st).1 = Throw LoadFailed)
  /\ (forall g st1,
        settles rt ->
        loadModel rt st = (Ok g, st1) ->
        exists predictions st',
          generatePredictions rt p st = (Ok predictions, st')
          /\ length predictions = 4
          /\ Forall (fun s => s <> []) predictions
          /\ Forall2 (anchored rt) (prompts p) predictions)
  /\ (forall g st1,
        answers rt ->
        loadModel rt st = (Ok g, st1) ->
        exists poem st',
          generatePoem rt p st = (Ok poem, st') /\ poem <> []
          /\ (poem = getFallbackPoem p \/ composed rt p poem)).
Proof.
  split; [|split].
  - intros e Hv Hp.
    destruct (loadModel_unloaded_fails rt st e Hv Hp) as (st' & Hload & _).
    unfold generatePoem, generatePredictions, bind. by rewrite Hload.
  - intros g st1 Hs Hload.
    destruct (loadModel_ok_ready rt st g st1 Hload) as (Hr & Hg & _).
    destruct (ready_handle st1 Hr) as [h Hh].
    unfold generatePredictions, bind. rewrite Hload.
    pose proof (for_each_spec rt (prompts p) st1 h Hr Hh) as Hfe.
    destruct (for_each rt (prompts p) st1) as [[predictions| |] st'];
      try done.
    destruct Hfe as (Hall & _). exists predictions, st'.
    split; [done|]. split; [|split; [|done]].
    + by rewrite <- (Forall2_length _ _ _ Hall).
    + pose proof (prompts_fallback_nonempty p) as Hne.
      clear Hload. induction Hall as [|u s us ss Ha Hall IH];
        constructor.
      * apply Forall_cons in Hne as [Hu _].
        destruct Ha as [->|(? & ? & ? & ? & _ & _ & -> & _)]; [done|].
        apply app_cons_nonempty.
      * apply IH. by apply Forall_cons in Hne as [_ ?].
  - intros g st1 Hans Hload.
    destruct (loadModel_ok_ready rt st g st1 Hload) as (Hr & _).
    unfold generatePoem, bind. rewrite Hload.
    by apply poem_attempts_answers.
Qed.

(** C10.  Every text returned by [generatePredictions] is, in the order
    of [prompts], either the fallback of its unit or the unit's stem, one
    space, and a completion; the completion is the trimmed first line of
    the trimmed, normalised response of a model call made with that
    unit's prompt, without its leading arrow, and it is the completion
    alone that passed [isValid] and has between 5 and 80 code units. *)
Theorem predictions_are_anchored p st predictions st' :
  generatePredictions rt p st = (Ok predictions, st') ->
  Forall2 (anchored rt) (prompts p) predictions.
Proof.
  unfold generatePredictions, bind.
  destruct (loadModel rt st) as [[g| |] st1] eqn:Hload; try done.
  destruct (loadModel_ok_ready rt st g st1 Hload) as (Hr & Hg & _).
  destruct (ready_handle st1 Hr) as [h Hh].
  pose proof (for_each_spec rt (prompts p) st1 h Hr Hh) as Hfe.
  intros Hrun. rewrite Hrun in Hfe. apply Hfe.
Qed.

End FailurePaths.

Lemma generation_failure_paths_witness :
  ((generatePoem (tables := BasicLatin) down_rt learner initial).1
     = Throw LoadFailed
   /\ (generatePredictions (tables := BasicLatin) down_rt learner initial).1
     = Throw LoadFailed)
  /\ (exists predictions st',
        generatePredictions (tables := BasicLatin) rejecting_rt learner initial
        = (Ok predictions, st')
        /\ length predictions = 4
        /\ Forall (fun s => s <> []) predictions
        /\ Forall2 (anchored (tables := BasicLatin) rejecting_rt)
             (prompts learner) predictions)
  /\ (exists poem st',
        generatePoem (tables := BasicLatin) (stub_rt (lit "???")) learner
          initial = (Ok poem, st')
        /\ poem <> []
        /\ (poem = getFallbackPoem (tables := BasicLatin) learner
            \/ composed (tables := BasicLatin) (stub_rt (lit "???")) learner
                 poem)).
Proof.
  split; [|split].
  - apply (proj1 (generation_failure_paths (tables := BasicLatin)
                    down_rt learner initial) (BackendError 0));
      reflexivity.
  - apply (proj1 (proj2 (generation_failure_paths (tables := BasicLatin)
                           rejecting_rt learner initial)) (Some 1) loaded).
    + split; intros; discriminate.
    + reflexivity.
  - apply (proj2 (proj2 (generation_failure_paths (tables := BasicLatin)
                           (stub_rt (lit "???")) learner initial))
             (Some 1) loaded).
    + intros h n prompt k. exists (generated (lit "???")), (lit "???").
      split; reflexivity.
    + reflexivity.
Defined.

(** C1, as stated, fails: when the backend cannot be initialised both
    functions reject with the error thrown by [loadModel]; no fallback
    text is returned. *)
Lemma load_failure_is_propagated :
  generatePoem (tables := BasicLatin) down_rt learner initial
  = (Throw LoadFailed,
     {| generator := None; modelLoading := false; modelReady := false;
        pipeline_calls := 1; model_calls := 0 |})
  /\ generatePredictions (tables := BasicLatin) down_rt learner initial
     = (Throw LoadFailed,
        {| generator := None; modelLoading := false; modelReady := false;
           pipeline_calls := 1; model_calls := 0 |}).
Proof. split; reflexivity. Qed.

(** C3 at its failing input.  The runtime loads and then rejects every
    generation call.  [generatePoem] lets the first rejection escape
    after a single call, where [generatePredictions] absorbs all twenty
    and returns its fallbacks. *)
Lemma poem_attempt_error_escapes :
  generatePoem (tables := BasicLatin) rejecting_rt learner initial
  = (Throw (BackendError 1), after_calls 1 loaded)
  /\ generatePredictions (tables := BasicLatin) rejecting_rt learner initial
     = (Ok (List.map fallback (prompts learner)), after_calls 20 loaded).
Proof. split; vm_compute; reflexivity. Qed.

(** The same on a response that cannot be converted to a string: the
    [TypeError] of [String(result)] leaves [generatePoem] after one call
    and is absorbed twenty times by [generatePredictions]; such a
    runtime does not count as one whose responses normalise. *)
Example unprintable_response_escapes :
  generatePoem (tables := BasicLatin) unprintable_rt learner initial
  = (Throw TypeError, after_calls 1 loaded)
  /\ generatePredictions (tables := BasicLatin) unprintable_rt learner initial
     = (Ok (List.map fallback (prompts learner)), after_calls 20 loaded)
  /\ ~ answers unprintable_rt.
Proof.
  split; [vm_compute; reflexivity|]. split; [vm_compute; reflexivity|].
  intros Hans. destruct (Hans 1 0 [] 0) as (out & response & Hcall & Hn).
  injection Hcall as <-. discriminate Hn.
Qed.

Lemma predictions_are_anchored_witness :
  Forall2 (anchored (tables := BasicLatin) (stub_rt long_response))
    (prompts learner)
    (List.map
       (fun u => start u ++ lit " " ++ lit "bring many bright surprising wonderful and delightful discoveries along the way")
       (prompts learner)).
Proof.
  apply (predictions_are_anchored (tables := BasicLatin)
           (stub_rt long_response) learner initial _ (after_calls 4 loaded)).
  vm_compute. reflexivity.
Defined.

(** The bound of 80 code units is on the completion: the returned
    sentences of the run above are longer. *)
Example anchored_predictions_exceed_80 :
  exists predictions st',
    generatePredictions (tables := BasicLatin) (stub_rt long_response)
      learner initial = (Ok predictions, st')
    /\ List.map length predictions = [112; 109; 111; 108].
Proof. do 2 eexists. split; vm_compute; reflexivity. Qed.

(** ** The output normaliser *)

Section NormalizerFacts.

Lemma normalize_array items :
  normalize (VArr items)
  = rbind (find_assistant items) (fun assistantMsg =>
      finish
        (js_or (opt_prop (lit "content") assistantMsg)
           (js_or (opt_prop (lit "content") (List.last items VUndefined))
              (VStr [])))).
Proof.
  unfold normalize. destruct (find_assistant items); reflexivity.
Qed.

Lemma normalize_other v :
  (forall items, v <> VArr items) -> normalize v = finish v.
Proof. intros Hv. destruct v; try reflexivity. by destruct (Hv items). Qed.

Lemma find_assistant_elem items m :
  find_assistant items = Ok m -> m = VUndefined \/ m ∈ items.
Proof.
  induction items as [|x items IH]; simpl.
  - intros [= <-]. by left.
  - destruct (prop (lit "role") x) as [role| |]; simpl; try done.
    destruct (is_assistant role).
    + intros [= <-]. right. apply list_elem_of_here.
    + intros Hf. destruct (IH Hf) as [-> | Hin]; [by left|].
      right. by apply list_elem_of_further.
Qed.

Lemma plain_elements items x :
  plain (VArr items) = true -> x ∈ items -> plain x = true.
Proof.
  cbn [plain]. rewrite forallb_forall. intros Hp Hin.
  apply Hp. by apply list_elem_of_In.
Qed.

Lemma plain_last items :
  plain (VArr items) = true -> plain (List.last items VUndefined) = true.
Proof.
  intros Hp. destruct items as [|x items]; [done|].
  apply (plain_elements (x :: items)); [done|].
  destruct (exists_last (l := x :: items)) as (l' & a & Heq); [done|].
  rewrite Heq, last_last. apply list_elem_of_In, in_or_app. right. by left.
Qed.

Lemma plain_js_or a b :
  plain a = true -> plain b = true -> plain (js_or a b) = true.
Proof. unfold js_or. by destruct (truthy a). Qed.

Lemma finish_plain v : plain v = true -> exists s, finish v = Ok s.
Proof.
  intros Hp. unfold finish. apply to_string_plain.
  apply plain_js_or; [|done].
  destruct (_ && _); [by apply plain_opt_prop | done].
Qed.

Lemma find_assistant_null_free items :
  Forall (fun m => m <> VNull /\ m <> VUndefined) items ->
  exists m, find_assistant items = Ok m.
Proof.
  induction 1 as [|m items [Hn Hu] _ IH]; simpl; [eauto|].
  destruct m; simpl; try done;
    try match goal with |- context [is_assistant ?r] =>
          destruct (is_assistant r) end; eauto.
Qed.

Lemma find_assistant_messages items :
  Forall message items ->
  find_assistant items
  = Ok (match List.find own_turn items with
        | Some m => m
        | None => VUndefined
        end).
Proof.
  induction 1 as [|m items (fields & -> & _) _ IH]; simpl; [done|].
  unfold own_turn at 1. simpl.
  destruct (is_assistant (own_field (lit "role") fields)); done.
Qed.

(** A payload without an own [toString] is normalised unless the search
    for the own-turn entry throws. *)
Lemma normalize_plain payload :
  plain payload = true ->
  (forall items, payload = VArr items -> exists m, find_assistant items = Ok m) ->
  exists s, normalize payload = Ok s.
Proof.
  intros Hp Hfind.
  destruct payload as [| |b|s|items|fields];
    try (rewrite normalize_other by done; by apply finish_plain).
  rewrite normalize_array.
  destruct (Hfind items eq_refl) as [m Hm]. rewrite Hm.
  cbn [rbind]. apply finish_plain.
  apply plain_js_or; [|apply plain_js_or; [|done]].
  - apply plain_opt_prop.
    destruct (find_assistant_elem items m Hm) as [-> | Hin]; [done|].
    by apply (plain_elements items).
  - by apply plain_opt_prop, plain_last.
Qed.

Lemma finish_text s : finish (VStr s) = Ok s.
Proof. unfold finish, js_or. simpl. by destruct s. Qed.

Lemma message_content m :
  message m -> opt_prop (lit "content") m = VStr (content_text m)
               \/ (opt_prop (lit "content") m = VUndefined
                   /\ content_text m = []).
Proof.
  intros (fields & -> & [Hc | [s Hc]]); unfold content_text; simpl;
    rewrite Hc; auto.
Qed.

Lemma find_message items m :
  Forall message items -> List.find own_turn items = Some m -> message m.
Proof.
  intros Hall Hf. apply find_some in Hf as [Hin _].
  rewrite Forall_forall in Hall. apply Hall. by apply list_elem_of_In.
Qed.

Lemma last_message items :
  Forall message items ->
  items = [] \/ message (List.last items VUndefined).
Proof.
  intros Hall. destruct items as [|m items]; [by left|]. right.
  rewrite Forall_forall in Hall. apply Hall. apply list_elem_of_In.
  destruct (exists_last (l := m :: items)) as (l' & a & Heq); [done|].
  rewrite Heq, last_last. apply in_or_app. right. by left.
Qed.

(** [a || b || ''] over contents that are strings or absent. *)
Lemma pick_text a b ta tb :
  (a = VStr ta \/ (a = VUndefined /\ ta = [])) ->
  (b = VStr tb \/ (b = VUndefined /\ tb = [])) ->
  finish (js_or a (js_or b (VStr [])))
  = Ok (match ta with _ :: _ => ta | [] => tb end).
Proof.
  intros [-> | [-> ->]] [-> | [-> ->]];
    try destruct ta; try destruct tb; reflexivity.
Qed.

(** C5, as amended.  On a payload none of whose list entries is [null]
    or [undefined], and none of whose objects has an own property named
    [toString], the normaliser returns a string and does not throw.  On
    the shapes of the specification it returns: for a list of
    role-tagged entries, the content of the first entry tagged
    [assistant] when that content is not empty, otherwise the content of
    the last entry, and the empty string when that is empty or absent
    too; a plain string itself; the content of an object whose content is
    a non-empty string; the empty string for [null] and [undefined]. *)
Theorem normalize_refines_spec payload :
  (null_free payload -> plain payload = true ->
   exists s, normalize payload = Ok s)
  /\ (shape payload -> normalize payload = Ok (normalize_spec payload)).
Proof.
  split.
  - intros Hnf Hp. apply normalize_plain; [done|].
    intros items ->. by apply find_assistant_null_free.
  - intros Hs. destruct Hs as [s | | | fields c s Hc | items Hall].
    + rewrite normalize_other by done. by rewrite finish_text.
    + reflexivity.
    + reflexivity.
    + rewrite normalize_other by done. unfold normalize_spec, content_text.
      unfold finish. simpl. rewrite Hc. reflexivity.
    + rewrite normalize_array, find_assistant_messages by done. simpl.
      assert (Hlast :
        opt_prop (lit "content") (List.last items VUndefined)
          = VStr (content_text (List.last items VUndefined))
        \/ (opt_prop (lit "content") (List.last items VUndefined) = VUndefined
            /\ content_text (List.last items VUndefined) = [])).
      { destruct (last_message items Hall) as [-> | Hm]; [by right|].
        by apply message_content. }
      destruct (List.find own_turn items) as [m|] eqn:Hf.
      * apply pick_text; [|done].
        apply message_content. by eapply find_message.
      * apply (pick_text VUndefined _ [] _); [by right | done].
Qed.

Lemma normalize_refines_spec_witness :
  (exists s, normalize (VArr [user_says (lit "hi"); VBool true]) = Ok s)
  /\ normalize (VArr [user_says (lit "hi"); assistant_says (lit "X")])
     = Ok (lit "X").
Proof.
  split.
  - apply (proj1 (normalize_refines_spec
                    (VArr [user_says (lit "hi"); VBool true])));
      [|reflexivity].
    repeat constructor; discriminate.
  - apply (proj2 (normalize_refines_spec
                    (VArr [user_says (lit "hi"); assistant_says (lit "X")]))).
    apply shape_messages.
    repeat constructor; eexists; (split; [reflexivity|]); right;
      eexists; reflexivity.
Defined.

(** C5, as stated, fails: a [null] entry makes the normaliser throw,
    and so does a payload that [String] cannot convert, an object with
    an own [toString] property; an own-turn entry with an empty content
    yields the last entry's content instead of its own; an object whose
    content is empty is printed, not unwrapped. *)
Lemma normalizer_edge_cases :
  normalize (VArr [VNull]) = Throw TypeError
  /\ normalize (VObj [(lit "toString", VStr (lit "x"))]) = Throw TypeError
  /\ normalize (VArr [assistant_says (lit ""); user_says (lit "hi")])
     = Ok (lit "hi")
  /\ normalize (VObj [(lit "content", VStr (lit ""))])
     = Ok (lit "[object Object]").
Proof. repeat split. Qed.

(** The examples of the specification. *)
Example normalizer_examples :
  normalize (VArr [user_says (lit "q"); assistant_says (lit "X")]) = Ok (lit "X")
  /\ normalize (VStr (lit "Y")) = Ok (lit "Y")
  /\ normalize VNull = Ok (lit "")
  /\ normalize_output (generated (lit "Y")) = Ok (lit "Y")
  /\ normalize_output VNull = Throw TypeError.
Proof. repeat split. Qed.

End NormalizerFacts.

(** ** The repeated-character filter *)

Section RepeatedCharacters.

Lemma copies_at_spec c n s :
  copies_at c n s = true <-> exists post, s = replicate n c ++ post.
Proof.
  revert s. induction n as [|n IH]; intros s; simpl.
  - split; eauto.
  - destruct s as [|d s].
    + split; [done | intros [? ?]; done].
    + rewrite andb_true_iff, N.eqb_eq, IH. split.
      * intros [-> [post ->]]. eauto.
      * intros [post [= -> ->]]. eauto.
Qed.

Lemma test_dot_backref_spec n s :
  test_dot_backref n s = true <-> has_run (S n) s.
Proof.
  unfold has_run. induction s as [|c s IH]; simpl.
  - split; [done|]. intros ([|] & ? & ? & ? & _); done.
  - rewrite orb_true_iff, andb_true_iff, negb_true_iff, copies_at_spec, IH.
    split.
    + intros [[Hc [post ->]] | (pre & d & post & -> & Hd)].
      * exists [], c, post. done.
      * exists (c :: pre), d, post. done.
    + intros (pre & d & post & Heq & Hd). destruct pre as [|x pre].
      * left. simpl in Heq. injection Heq as -> ->. eauto.
      * right. simpl in Heq. injection Heq as -> ->. eauto 6.
Qed.

Lemma has_run_shorter n k s : n <= k -> has_run k s -> has_run n s.
Proof.
  intros Hle (pre & c & post & -> & Hc).
  exists pre, c, (replicate (k - n) c ++ post). split; [|done].
  f_equal. rewrite (app_assoc (replicate n c)), <- replicate_add.
  do 2 f_equal. lia.
Qed.

Context {tables : CaseTables}.

(** C6, as amended.  A poem response is rejected when one of the lines
    that survive the line filter contains a run of four or more copies
    of one character; a prediction completion is rejected when it
    contains a run of five or more.  The character is any code unit but
    a line terminator. *)
Theorem repeated_characters_rejected :
  (forall response l k,
      l ∈ poem_lines response -> 4 <= k -> has_run k l ->
      haiku_of response = None)
  /\ (forall completion k,
        5 <= k -> has_run k completion -> isValid completion = false).
Proof.
  split.
  - intros response l k Hin Hk Hrun. unfold haiku_of.
    assert (hasGibberish (poem_lines response) = true) as ->.
    { unfold hasGibberish. apply existsb_exists. exists l.
      split; [by apply list_elem_of_In|].
      apply orb_true_iff. right. apply test_dot_backref_spec.
      by apply (has_run_shorter 4 k). }
    simpl. by rewrite andb_false_r.
  - intros completion k Hk Hrun. unfold isValid.
    assert (test_dot_backref 4 completion = true) as ->.
    { apply test_dot_backref_spec. by apply (has_run_shorter 5 k). }
    simpl. by rewrite !andb_false_r.
Qed.

End RepeatedCharacters.

Lemma repeated_characters_rejected_witness :
  haiku_of (lit "soft light on the sea
waaaaves roll in
gulls call out") = None
  /\ isValid (tables := BasicLatin) (lit "reach new heeeeeights soon") = false.
Proof.
  split.
  - apply (proj1 (repeated_characters_rejected (tables := BasicLatin))
             _ (lit "waaaaves roll in") 4).
    + vm_compute. apply list_elem_of_further, list_elem_of_here.
    + lia.
    + exists (lit "w"), 97%N, (lit "ves roll in"). split; reflexivity.
  - apply (proj2 (repeated_characters_rejected (tables := BasicLatin)) _ 5).
    + lia.
    + exists (lit "reach new h"), 101%N, (lit "ights soon").
      split; reflexivity.
Defined.

(** C6, as stated, fails for predictions: a completion with a run of
    exactly four copies of a character passes the validator and is
    returned. *)
Lemma run_of_four_passes_prediction_validator :
  has_run 4 (lit "reach new heeeeights soon")
  /\ isValid (tables := BasicLatin) (lit "reach new heeeeights soon") = true
  /\ (generatePredictions (tables := BasicLatin)
        (stub_rt (lit "reach new heeeeights soon")) learner initial).1
     = Ok (List.map
             (fun u => start u ++ lit " " ++ lit "reach new heeeeights soon")
             (prompts learner)).
Proof.
  split; [|split].
  - exists (lit "reach new h"), 101%N, (lit "ights soon"). split; reflexivity.
  - vm_compute. reflexivity.
  - vm_compute. reflexivity.
Qed.

(** ** The word-repetition filter *)

Section WordRepetitionFacts.

Lemma split_ws_go_no_ws in_sep cur s :
  no_ws cur -> Forall no_ws (split_ws_go in_sep cur s).
Proof.
  revert in_sep cur. induction s as [|c s IH]; intros in_sep cur Hcur; simpl.
  - by constructor.
  - destruct (is_ws c) eqn:Hc.
    + destruct in_sep; [by apply IH|].
      constructor; [done|]. apply IH. constructor.
    + apply IH. apply Forall_app. split; [done|]. by repeat constructor.
Qed.

Lemma split_ws_no_ws s : Forall no_ws (split_ws s).
Proof. apply split_ws_go_no_ws. constructor. Qed.

Lemma space_separated_inj (a b c d : jsstring) :
  no_ws a -> no_ws c ->
  a ++ lit " " ++ b = c ++ lit " " ++ d <-> a = c /\ b = d.
Proof.
  intros Ha Hc. split; [|by intros [-> ->]].
  revert c Hc. induction Ha as [|x a Hx Ha IH]; intros c Hc Heq.
  - destruct Hc as [|y c Hy Hc]; simpl in Heq.
    + by injection Heq as ->.
    + injection Heq as <- _. done.
  - destruct Hc as [|y c Hy Hc]; simpl in Heq.
    + injection Heq as -> _. done.
    + injection Heq as -> Heq. destruct (IH c Hc Heq) as [-> ->]. done.
Qed.

Lemma word_at_lookup words i w :
  words !! i = Some w -> word_at words i = w.
Proof.
  unfold word_at. revert i. induction words as [|x words IH]; intros [|i] Hi;
    simplify_eq/=; eauto.
Qed.

Lemma bigram_loop_spec words :
  Forall no_ws words ->
  bigram_loop words = true <-> repeated_window words.
Proof.
  intros Hws. unfold bigram_loop, repeated_window.
  rewrite existsb_exists. split.
  - intros (i & Hin & Heq). apply in_seq in Hin.
    destruct (lookup_lt_is_Some_2 words i) as [a Ha]; [lia|].
    destruct (lookup_lt_is_Some_2 words (i + 1)) as [b Hb]; [lia|].
    destruct (lookup_lt_is_Some_2 words (i + 2)) as [c Hc]; [lia|].
    destruct (lookup_lt_is_Some_2 words (i + 3)) as [d Hd]; [lia|].
    rewrite (word_at_lookup _ _ _ Ha), (word_at_lookup _ _ _ Hb),
      (word_at_lookup _ _ _ Hc), (word_at_lookup _ _ _ Hd) in Heq.
    apply bool_decide_eq_true_1 in Heq.
    rewrite Forall_lookup in Hws.
    apply space_separated_inj in Heq as [-> ->]; eauto.
    exists i, c, d. done.
  - intros (i & a & b & Ha & Hb & Hc & Hd). exists i. split.
    + apply in_seq. apply lookup_lt_Some in Hd. lia.
    + rewrite (word_at_lookup _ _ _ Ha), (word_at_lookup _ _ _ Hb),
        (word_at_lookup _ _ _ Hc), (word_at_lookup _ _ _ Hd).
      by apply bool_decide_eq_true_2.
Qed.

Lemma counted_below_3 wordCounts w :
  counts_below_3 wordCounts -> counted wordCounts w < 3.
Proof.
  intros Hm. unfold counted. destruct (wordCounts !! w) as [v|] eqn:Hv; [|lia].
  by destruct (Hm w v Hv) as (n & -> & Hn).
Qed.

Lemma not_inherited_not_proto w :
  is_inherited w = false -> str_eqb w (lit "__proto__") = false.
Proof.
  unfold is_inherited, inherited_names. simpl. intros Hi.
  apply orb_false_iff in Hi as [_ Hi]. by apply orb_false_iff in Hi as [? _].
Qed.

Lemma occurrences_cons w x words :
  occurrences w (x :: words)
  = (if str_eqb w x then 1 else 0) + occurrences w words.
Proof. unfold occurrences. simpl. by destruct (str_eqb w x). Qed.

Lemma count_loop_spec wordCounts words :
  counts_below_3 wordCounts ->
  Forall (fun w => is_inherited w = false) words ->
  count_loop wordCounts words = true
  <-> exists w, 3 <= length w
        /\ 3 <= counted wordCounts w + occurrences w words.
Proof.
  intros Hm Hwords. revert wordCounts Hm.
  induction Hwords as [|word rest Hword _ IH]; intros m Hm; simpl.
  - split; [done|]. intros (w & _ & Hc).
    pose proof (counted_below_3 m w Hm). change (occurrences w []) with 0 in Hc.
    lia.
  - destruct (length word <? 3) eqn:Hlen.
    + apply Nat.ltb_lt in Hlen. rewrite IH by done.
      assert (Hsame : forall w, 3 <= length w ->
                occurrences w (word :: rest) = occurrences w rest).
      { intros w Hw. rewrite occurrences_cons. unfold str_eqb.
        rewrite bool_decide_eq_false_2; [done|]. intros ->. lia. }
      split; intros (w & Hw & Hc); exists w; (split; [done|]);
        [rewrite Hsame by done | rewrite Hsame in Hc by done]; done.
    + apply Nat.ltb_ge in Hlen.
      assert (Hinc : increment (read m word) = CNum (S (counted m word))).
      { unfold read, counted. destruct (m !! word) as [v|] eqn:Hv.
        - by destruct (Hm word v Hv) as (n & -> & _).
        - by rewrite Hword. }
      rewrite Hinc. unfold assign. rewrite not_inherited_not_proto by done.
      unfold read at 1. rewrite lookup_insert_eq.
      change (at_least_3 (SlotOwn (CNum (S (counted m word)))))
        with (3 <=? S (counted m word)).
      set (m' := <[word := CNum (S (counted m word))]> m).
      assert (Hshift : forall w,
        counted m' w + occurrences w rest
        = counted m w + occurrences w (word :: rest)).
      { intros w. rewrite occurrences_cons. unfold counted, m', str_eqb.
        destruct (decide (w = word)) as [->|Hne].
        - rewrite lookup_insert_eq, bool_decide_eq_true_2 by done.
          cbn beta iota. unfold counted. lia.
        - rewrite lookup_insert_ne, bool_decide_eq_false_2 by done.
          cbn beta iota. unfold counted. lia. }
      destruct (3 <=? S (counted m word)) eqn:Hge.
      * apply Nat.leb_le in Hge. split; [|done]. intros _. exists word.
        split; [done|]. rewrite occurrences_cons. unfold str_eqb.
        rewrite bool_decide_eq_true_2 by done. lia.
      * apply Nat.leb_gt in Hge. rewrite IH.
        -- by setoid_rewrite Hshift.
        -- intros w v. unfold m'.
           destruct (decide (w = word)) as [->|Hne].
           ++ rewrite lookup_insert_eq. intros [= <-]. eauto.
           ++ rewrite lookup_insert_ne by done. apply Hm.
Qed.

Context {tables : CaseTables}.

(** C7, as amended.  The text is lowercased before it is tokenised on
    white space.  With fewer than four tokens no repetition is reported.
    With four or more tokens, none of which is a property name inherited
    from [Object.prototype], repetition is reported exactly when some
    token of length at least 3 appears 3 or more times or two adjacent
    two-token windows are identical. *)
Theorem hasWordRepetition_spec text :
  let words := split_ws (toLowerCase text) in
  Forall (fun w => is_inherited w = false) words ->
  (hasWordRepetition text = true
   <-> 4 <= length words /\ (repeated_word words \/ repeated_window words)).
Proof.
  intros words Hwords. unfold hasWordRepetition. fold words.
  destruct (length words <? 4) eqn:Hlen.
  - apply Nat.ltb_lt in Hlen. split; [done | lia].
  - apply Nat.ltb_ge in Hlen.
    pose proof (count_loop_spec ∅ words) as Hcount.
    pose proof (bigram_loop_spec words (split_ws_no_ws _)) as Hbig.
    unfold repeated_word.
    destruct (count_loop ∅ words).
    + split; [|done]. intros _. split; [done|]. left.
      apply Hcount; [|done|done]. intros w v. by rewrite lookup_empty.
    + rewrite Hbig. split; [tauto|]. intros [_ [Hrep|Hwin]]; [|done].
      apply Hcount in Hrep; [done| |done].
      intros w v. by rewrite lookup_empty.
Qed.

End WordRepetitionFacts.

Lemma hasWordRepetition_spec_witness :
  hasWordRepetition (tables := BasicLatin) (lit "Learn to LEARN to") = true
  <-> 4 <= length (split_ws (lit "learn to learn to"))
      /\ (repeated_word (split_ws (lit "learn to learn to"))
          \/ repeated_window (split_ws (lit "learn to learn to"))).
Proof.
  apply (hasWordRepetition_spec (tables := BasicLatin)
           (lit "Learn to LEARN to")).
  vm_compute. repeat constructor.
Defined.

(** C7, as stated, fails: with fewer than four tokens no repetition is
    reported, although a token of length 3 appears 3 times. *)
Lemma three_tokens_never_repeat :
  repeated_word (split_ws (lit "abc abc abc"))
  /\ hasWordRepetition (tables := BasicLatin) (lit "abc abc abc") = false.
Proof.
  split; [|vm_compute; reflexivity].
  exists (lit "abc"). split; vm_compute; lia.
Qed.

(** The counts live in an object literal: a token that names an inherited
    property is never counted. *)
Example inherited_name_is_not_counted :
  hasWordRepetition (tables := BasicLatin)
    (lit "constructor constructor constructor x") = false
  /\ hasWordRepetition (tables := BasicLatin) (lit "builder builder builder x")
     = true.
Proof. split; vm_compute; reflexivity. Qed.

(** ** The template fallbacks *)

Section FallbackFacts.
Context {tables : CaseTables}.

(** C8.  The fallback texts are functions of the profile alone, and
    only of the fields they read: two profiles that agree on the
    archetype name, the first two theme titles, the top phrase and the
    message count get identical texts, so repeated calls on one profile
    do. *)
Theorem fallback_deterministic p q :
  same_inputs p q ->
  getFallbackPoem p = getFallbackPoem q
  /\ getFallbackPredictions p = getFallbackPredictions q.
Proof.
  intros (Ha & Ht0 & Ht1 & Hp & Hm).
  unfold getFallbackPoem, getFallbackPredictions.
  by rewrite Ha, Ht0, Ht1, Hp, Hm.
Qed.

Lemma or_else_length x d :
  length (or_else x d) <= text_size x + length d.
Proof. unfold text_size. destruct x as [[|c s]|]; simpl; lia. Qed.

Lemma or_else_lower_length x d :
  length (or_else (toLowerCase <$> x) d) <= 3 * text_size x + length d.
Proof.
  unfold text_size. destruct x as [s|]; simpl; [|lia].
  pose proof (toLowerCase_length s).
  destruct (toLowerCase s); simpl in *; lia.
Qed.

Lemma capitalize_length s : length (capitalize s) <= length s + 2.
Proof.
  unfold capitalize, charAt0, slice1. rewrite length_app.
  pose proof (toUpperCase_length (take 1 s)) as Hup.
  destruct s as [|c s]; simpl in *; [lia|].
  rewrite take_0 in *. rewrite drop_0. simpl in Hup. lia.
Qed.

Lemma digits_go_length fuel n acc :
  length (digits_go fuel n acc) <= fuel + length acc.
Proof.
  revert n acc. induction fuel as [|fuel IH]; intros n acc; simpl; [lia|].
  destruct (n <? 10)%N; simpl; [lia|].
  etransitivity; [apply IH|]. simpl. lia.
Qed.

Lemma number_to_string_length n :
  length (number_to_string n) <= S (N.to_nat (N.log2 (int_value n))).
Proof.
  unfold number_to_string, decimal.
  etransitivity; [apply digits_go_length|]. simpl. lia.
Qed.

Lemma or_else_blank x d : blank x -> or_else x d = d.
Proof. by intros [-> | ->]. Qed.

Lemma capitalize_ascii s :
  is_ascii s -> capitalize s = List.map ascii_upper (take 1 s) ++ drop 1 s.
Proof.
  intros Hs. unfold capitalize, charAt0, slice1.
  rewrite toUpperCase_ascii; [done|]. by apply Forall_take.
Qed.

Lemma nonempty_by_length (s : jsstring) : 0 < length s -> s <> [].
Proof. destruct s; simpl; [lia | done]. Qed.

Lemma text_size_le_profile p :
  text_size (archetype_name p) <= profile_size p
  /\ text_size (theme_title 0 p) <= profile_size p
  /\ text_size (theme_title 1 p) <= profile_size p
  /\ text_size (top_phrase p) <= profile_size p
  /\ text_size (archetype_name p) + text_size (theme_title 0 p)
       + text_size (top_phrase p) <= profile_size p
  /\ text_size (theme_title 1 p) + text_size (top_phrase p) <= profile_size p
  /\ N.to_nat (N.log2 (count_value (message_count p) * 2)) <= profile_size p.
Proof. unfold profile_size. lia. Qed.

Lemma or_else_present s d : s <> [] -> or_else (Some s) d = s.
Proof. by destruct s. Qed.

Lemma lower_blank x : blank x -> blank (toLowerCase <$> x).
Proof.
  intros [-> | ->]; [by left|]. right. simpl.
  by rewrite toLowerCase_ascii by constructor.
Qed.

(** C9, as amended.  For every profile each fallback text is non-empty
    and its length is at most a constant plus (three times, for the poem)
    the size of the substituted fields.  Each template substitutes its
    fields one by one, and a field that is missing or empty is replaced
    by its literal default whatever the other fields hold:
    [getFallbackPoem] uses "seeker", "ideas" and "wonder", capitalised
    at the head of a line; [getFallbackPredictions] uses "exploring
    ideas", "Ranger", "curiosity" and "creative projects", and a field
    that is present and not empty is substituted as it is; the fallbacks
    inside [generatePredictions] use "learning", "Explorer", "ideas" and
    "creating" in the same way.  The message count is doubled and
    printed in decimal. *)
Theorem fallback_nonempty_bounded p :
  (getFallbackPoem p <> []
   /\ length (getFallbackPoem p) <= 72 + 3 * profile_size p)
  /\ (length (getFallbackPredictions p) = 4
      /\ Forall (fun s => s <> [] /\ length s <= 73 + profile_size p)
           (getFallbackPredictions p))
  /\ Forall (fun u => fallback u <> []
                      /\ length (fallback u) <= 51 + profile_size p)
       (prompts p)
  /\ (exists style topTheme topWord,
        getFallbackPoem p
        = style ++ lit " of " ++ topTheme ++ newline
            ++ topWord ++ lit " guides the path forward" ++ newline
            ++ lit "Claude lights the way"
        /\ (blank (archetype_name p) -> style = lit "Seeker")
        /\ (blank (theme_title 0 p) -> topTheme = lit "ideas")
        /\ (blank (top_phrase p) -> topWord = lit "Wonder"))
  /\ (exists topTheme style topWord secondTheme,
        getFallbackPredictions p
        = [ lit "Your " ++ topTheme
              ++ lit " obsession will reach new heights in 2026";
            lit "As a true " ++ style
              ++ lit ", you'll discover at least 3 new AI use cases";
            lit "Your message count will double - "
              ++ number_to_string (times2 (message_count p))
              ++ lit "+ messages incoming";
            quote ++ topWord ++ quote
              ++ lit " will become your catchphrase in " ++ secondTheme
              ++ lit " discussions" ]
        /\ (blank (theme_title 0 p) -> topTheme = lit "exploring ideas")
        /\ (blank (archetype_name p) -> style = lit "Ranger")
        /\ (blank (top_phrase p) -> topWord = lit "curiosity")
        /\ (blank (theme_title 1 p) -> secondTheme = lit "creative projects")
        /\ (forall s, theme_title 0 p = Some s -> s <> [] -> topTheme = s)
        /\ (forall s, archetype_name p = Some s -> s <> [] -> style = s)
        /\ (forall s, top_phrase p = Some s -> s <> [] -> topWord = s)
        /\ (forall s, theme_title 1 p = Some s -> s <> [] -> secondTheme = s))
  /\ (exists topTheme style topWord secondTheme,
        List.map fallback (prompts p)
        = [ lit "Your " ++ topTheme ++ lit " obsession will reach new heights";
            lit "As a true " ++ style
              ++ lit ", you'll discover 3 new use cases";
            quote ++ topWord ++ quote ++ lit " will become your catchphrase";
            lit "Your " ++ secondTheme ++ lit " journey will surprise you" ]
        /\ (blank (theme_title 0 p) -> topTheme = lit "learning")
        /\ (blank (archetype_name p) -> style = lit "Explorer")
        /\ (blank (top_phrase p) -> topWord = lit "ideas")
        /\ (blank (theme_title 1 p) -> secondTheme = lit "creating")
        /\ (forall s, theme_title 0 p = Some s -> s <> [] -> topTheme = s)
        /\ (forall s, archetype_name p = Some s -> s <> [] -> style = s)
        /\ (forall s, top_phrase p = Some s -> s <> [] -> topWord = s)
        /\ (forall s, theme_title 1 p = Some s -> s <> [] -> secondTheme = s)).
Proof.
  pose proof (text_size_le_profile p) as (Hn & Ht0 & Ht1 & Hph & Hsum & Hsum2 & Hnum).
  split; [|split; [|split; [|split; [|split]]]].
  - split; [apply app_cons_nonempty|].
    unfold getFallbackPoem. rewrite !length_app.
    pose proof (capitalize_length
                  (or_else (toLowerCase <$> archetype_name p) (lit "seeker"))).
    pose proof (capitalize_length (or_else (top_phrase p) (lit "wonder"))).
    pose proof (or_else_lower_length (archetype_name p) (lit "seeker")).
    pose proof (or_else_lower_length (theme_title 0 p) (lit "ideas")).
    pose proof (or_else_length (top_phrase p) (lit "wonder")).
    simpl length in *. lia.
  - split; [done|]. unfold getFallbackPredictions, quote.
    pose proof (or_else_length (theme_title 0 p) (lit "exploring ideas")).
    pose proof (or_else_length (theme_title 1 p) (lit "creative projects")).
    pose proof (or_else_length (archetype_name p) (lit "Ranger")).
    pose proof (or_else_length (top_phrase p) (lit "curiosity")).
    pose proof (number_to_string_length (times2 (message_count p))).
    cbn [times2 int_value] in *.
    repeat (apply Forall_cons; split;
            [split; [apply nonempty_by_length|];
             rewrite !length_app; simpl length in *; lia|]).
    by apply Forall_nil.
  - unfold prompts, quote.
    pose proof (or_else_length (theme_title 0 p) (lit "learning")).
    pose proof (or_else_length (theme_title 1 p) (lit "creating")).
    pose proof (or_else_length (archetype_name p) (lit "Explorer")).
    pose proof (or_else_length (top_phrase p) (lit "ideas")).
    repeat (apply Forall_cons; split;
            [split; [apply nonempty_by_length|]; cbn [fallback];
             rewrite !length_app; simpl length in *; lia|]).
    by apply Forall_nil.
  - exists (capitalize
              (or_else (toLowerCase <$> archetype_name p) (lit "seeker"))),
      (or_else (toLowerCase <$> theme_title 0 p) (lit "ideas")),
      (capitalize (or_else (top_phrase p) (lit "wonder"))).
    split; [reflexivity|]. split; [|split].
    + intros Hb. rewrite (or_else_blank _ _ (lower_blank _ Hb)).
      by rewrite capitalize_ascii by (repeat constructor).
    + intros Hb. by rewrite (or_else_blank _ _ (lower_blank _ Hb)).
    + intros Hb. rewrite (or_else_blank _ _ Hb).
      by rewrite capitalize_ascii by (repeat constructor).
  - exists (or_else (theme_title 0 p) (lit "exploring ideas")),
      (or_else (archetype_name p) (lit "Ranger")),
      (or_else (top_phrase p) (lit "curiosity")),
      (or_else (theme_title 1 p) (lit "creative projects")).
    split; [reflexivity|].
    repeat split;
      first [ intros Hb; by rewrite (or_else_blank _ _ Hb)
            | intros s -> Hs; by apply or_else_present ].
  - exists (or_else (theme_title 0 p) (lit "learning")),
      (or_else (archetype_name p) (lit "Explorer")),
      (or_else (top_phrase p) (lit "ideas")),
      (or_else (theme_title 1 p) (lit "creating")).
    split; [reflexivity|].
    repeat split;
      first [ intros Hb; by rewrite (or_else_blank _ _ Hb)
            | intros s -> Hs; by apply or_else_present ].
Qed.

End FallbackFacts.

Lemma fallback_deterministic_witness :
  getFallbackPoem (tables := BasicLatin) learner
  = getFallbackPoem (tables := BasicLatin)
      {| stats := stats learner; archetype := archetype learner;
         themes := Some [ {| title := Some (lit "Coding") |};
                          {| title := Some (lit "Writing") |};
                          {| title := Some (lit "Creative") |} ];
         phrases := phrases learner |}
  /\ getFallbackPredictions learner
     = getFallbackPredictions
         {| stats := stats learner; archetype := archetype learner;
            themes := Some [ {| title := Some (lit "Coding") |};
                             {| title := Some (lit "Writing") |};
                             {| title := Some (lit "Creative") |} ];
            phrases := phrases learner |}.
Proof.
  apply (fallback_deterministic (tables := BasicLatin)).
  repeat split.
Defined.

Lemma fallback_nonempty_bounded_witness :
  exists style topTheme topWord,
    getFallbackPoem (tables := BasicLatin) emptyProfile
    = style ++ lit " of " ++ topTheme ++ newline
        ++ topWord ++ lit " guides the path forward" ++ newline
        ++ lit "Claude lights the way"
    /\ (blank (archetype_name emptyProfile) -> style = lit "Seeker")
    /\ (blank (theme_title 0 emptyProfile) -> topTheme = lit "ideas")
    /\ (blank (top_phrase emptyProfile) -> topWord = lit "Wonder").
Proof.
  apply (proj1 (proj2 (proj2 (proj2
           (fallback_nonempty_bounded (tables := BasicLatin) emptyProfile))))).
Defined.

(** The texts for a profile with nothing in it. *)
Example empty_profile_fallbacks :
  getFallbackPoem (tables := BasicLatin) emptyProfile
  = lit "Seeker of ideas
Wonder guides the path forward
Claude lights the way"
  /\ getFallbackPredictions emptyProfile
     = [ lit "Your exploring ideas obsession will reach new heights in 2026";
         lit "As a true Ranger, you'll discover at least 3 new AI use cases";
         lit "Your message count will double - 0+ messages incoming";
         quote ++ lit "curiosity" ++ quote
           ++ lit " will become your catchphrase in creative projects discussions" ]
  /\ List.map fallback (prompts emptyProfile)
     = [ lit "Your learning obsession will reach new heights";
         lit "As a true Explorer, you'll discover 3 new use cases";
         quote ++ lit "ideas" ++ quote ++ lit " will become your catchphrase";
         lit "Your creating journey will surprise you" ].
Proof. repeat split. Qed.

(** C9, as stated, fails: the fallback texts embed the profile's strings
    whole, so no bound holds for every profile; a top theme of [n]
    letters gives a poem of more than [n] code units. *)
Lemma fallback_length_is_unbounded :
  ~ uniformly_bounded (getFallbackPoem (tables := BasicLatin))
  /\ ~ uniformly_bounded (fun p => nth 0 (getFallbackPredictions p) []).
Proof.
  split; intros [bound Hb]; specialize (Hb (long_theme (S bound)));
    revert Hb; unfold getFallbackPoem, getFallbackPredictions, long_theme;
    simpl; rewrite ?length_app; simpl;
    rewrite ?length_app, ?length_map, ?length_replicate; simpl; lia.
Qed.

(** The end-to-end example of the specification. *)
Example learner_fallback_poem :
  getFallbackPoem (tables := BasicLatin) learner
  = lit "Learner of coding
Remix guides the path forward
Claude lights the way".
Proof. reflexivity. Qed.

(** ** The testable examples of the specification *)

Section SpecificationExamples.

Example validator_rejects :
  hasWordRepetition (tables := BasicLatin) (lit "go go go go") = true
  /\ hasWordRepetition (tables := BasicLatin) (lit "aaaa bbbb aaaa cccc aaaa")
     = true
  /\ haiku_of (lit "soft light on the sea
see https://example.com today
gulls call out") = None
  /\ isValid (tables := BasicLatin)
       (lit "Sure, here is your prediction that you will be a legend") = false
  /\ isValid (tables := BasicLatin)
       (lit "unlock many new creative possibilities soon") = true.
Proof. repeat split; vm_compute; reflexivity. Qed.

Example valid_poem_is_returned :
  (generatePoem (tables := BasicLatin)
     (stub_rt (lit "  Silent code at dawn
Bugs flee from the light
Tests all turning green
")) learner initial).1
  = Ok (lit "Silent code at dawn
Bugs flee from the light
Tests all turning green").
Proof. vm_compute. reflexivity. Qed.

End SpecificationExamples.

(** * Further properties of the module *)

(** ** Calls made one after another *)

Section SessionFacts.
Context {tables : CaseTables} (rt : Runtime).

Lemma at_rest_cases st :
  at_rest st -> ready st \/ vars_of st = unloaded_vars.
Proof.
  intros [Hl Hrg]. unfold ready, vars_of, unloaded_vars.
  destruct (modelReady st) eqn:Hr.
  - left. split; [done|]. by apply Hrg.
  - right. rewrite Hl. destruct (generator st) as [h|] eqn:Hg; [|done].
    destruct Hrg as [_ Hrg]. by specialize (Hrg (ex_intro _ h eq_refl)).
Qed.

Lemma ready_at_rest st : ready st -> modelLoading st = false -> at_rest st.
Proof. intros [Hr Hg] Hl. split; [done|]. by rewrite Hr. Qed.

(** [loadModel] from a state at rest: where it leaves the page. *)
Lemma loadModel_at_rest st r st' :
  at_rest st -> loadModel rt st = (r, st') -> r <> Pending ->
  at_rest st'
  /\ model_calls st' = model_calls st
  /\ (ready st -> st' = st /\ r = Ok (generator st))
  /\ (forall g, r = Ok g -> ready st' /\ generator st' = g)
  /\ (vars_of st = unloaded_vars ->
      pipeline_calls st' = S (pipeline_calls st)
      /\ match r with
         | Ok g =>
             exists h, g = Some h
               /\ pipeline rt (pipeline_calls st) (device_of rt) = Ok h
         | Throw e =>
             e = LoadFailed /\ vars_of st' = unloaded_vars
             /\ exists e', pipeline rt (pipeline_calls st) (device_of rt)
                           = Throw e'
         | Pending => False
         end).
Proof.
  intros Hrest Hrun Hr.
  destruct (at_rest_cases st Hrest) as [Hready | Hun].
  - rewrite loadModel_ready in Hrun by done. inversion Hrun; subst.
    assert (vars_of st' <> unloaded_vars) as Hne.
    { destruct Hready as [Hy _]. unfold vars_of, unloaded_vars.
      intros [= _ _ Hv]. congruence. }
    split; [done|]. split; [done|]. split; [done|]. split; [|done].
    intros g [= <-]. done.
  - pose proof Hun as Hv. unfold vars_of, unloaded_vars in Hv.
    injection Hv as Hg Hl Hy.
    assert (~ ready st) as Hnr by (intros [Hy' _]; congruence).
    rewrite loadModel_start in Hrun by (auto using not_ready_test).
    fold (device_of rt) in Hrun.
    destruct (pipeline rt (pipeline_calls st) (device_of rt)) as [h|e|] eqn:Hp;
      inversion Hrun; subst; [| |done].
    + split; [|split; [done|]; split; [done|]; split].
      * split; [done|]. simpl. split; eauto.
      * intros g [= <-]. split; [|done]. split; simpl; eauto.
      * intros _. simpl. eauto.
    + split; [|split; [done|]; split; [done|]; split].
      * split; [done|]. simpl. rewrite Hy, Hg. split; [done|].
        intros [? ?]; done.
      * intros g [=].
      * intros _. simpl. split; [done|]. split; [done|]. split; [|eauto].
        unfold vars_of. simpl. by rewrite Hg, Hy.
Qed.

(** After the load, a generation function only advances the call
    counter. *)
Lemma poem_attempts_state p n st :
  ready st ->
  exists m, m <= n
    /\ (poem_attempts rt p n st).2 = after_calls m st
    /\ ((poem_attempts rt p n st).1 = Pending -> ~ settles rt).
Proof.
  revert st. induction n as [|n IH]; intros st Hr.
  - exists 0. simpl. by rewrite after_calls_0.
  - destruct (ready_handle st Hr) as [h Hg].
    rewrite (poem_attempts_S rt p n st h) by done.
    destruct (rbind _ _) as [response| |] eqn:Hresp.
    + destruct (haiku_of response).
      * exists 1. simpl. split; [lia|done].
      * destruct (IH (after_calls 1 st) (after_calls_ready 1 st Hr))
          as (m & Hm & Hst & Hp).
        exists (S m). rewrite Hst, after_calls_plus.
        replace (m + 1) with (S m) by lia. split; [lia|done].
    + exists 1. simpl. split; [lia|done].
    + exists 1. simpl. split; [lia|]. split; [done|]. intros _.
      by eapply call_then_normalize_pending.
Qed.

Lemma prediction_attempts_state start n st :
  ready st ->
  exists m, m <= n
    /\ (prediction_attempts rt start n st).2 = after_calls m st
    /\ (forall e, (prediction_attempts rt start n st).1 <> Throw e)
    /\ ((prediction_attempts rt start n st).1 = Pending -> ~ settles rt).
Proof.
  intros Hr. destruct (ready_handle st Hr) as [h Hg].
  pose proof (prediction_attempts_spec rt start n st h Hr Hg) as Hs.
  revert st Hr Hg Hs. induction n as [|n IH]; intros st Hr Hg Hs.
  - exists 0. simpl. rewrite after_calls_0. done.
  - simpl in *. unfold bind in *.
    rewrite (prediction_attempt_ready rt start st h) in * by done.
    assert (Hnext : exists m, m <= S n
      /\ (prediction_attempts rt start n (after_calls 1 st)).2
         = after_calls m st
      /\ (forall e, (prediction_attempts rt start n (after_calls 1 st)).1
                    <> Throw e)
      /\ ((prediction_attempts rt start n (after_calls 1 st)).1 = Pending
          -> ~ settles rt)).
    { destruct (IH (after_calls 1 st) (after_calls_ready 1 st Hr) Hg
                  (prediction_attempts_spec rt start n _ h
                     (after_calls_ready 1 st Hr) Hg))
        as (m & Hm & Hst & Hrest).
      exists (S m). rewrite Hst, after_calls_plus.
      replace (m + 1) with (S m) by lia. split; [lia|done]. }
    destruct (rbind _ _) as [response| |] eqn:Hresp.
    + destruct (isValid (completion_of response)); [|exact Hnext].
      exists 1. simpl. split; [lia|done].
    + exact Hnext.
    + exists 1. simpl. split; [lia|]. repeat split; done.
Qed.

Lemma for_each_cons u units st :
  for_each rt (u :: units) st =
    match prediction_attempts rt (start u) MAX_RETRIES st with
    | (Ok r, st1) =>
        match for_each rt units st1 with
        | (Ok predictions, st2) =>
            (Ok (default (fallback u) r :: predictions), st2)
        | (Throw e, st2) => (Throw e, st2)
        | (Pending, st2) => (Pending, st2)
        end
    | (Throw e, st1) => (Throw e, st1)
    | (Pending, st1) => (Pending, st1)
    end.
Proof.
  simpl for_each. unfold bind at 1. unfold prediction_unit, bind at 1.
  destruct (prediction_attempts rt (start u) MAX_RETRIES st) as [[r| |] st1];
    try reflexivity.
  destruct r; unfold ret at 1; unfold bind;
    destruct (for_each rt units st1) as [[ps| |] st2]; reflexivity.
Qed.

Lemma for_each_state units st :
  ready st ->
  exists m, m <= MAX_RETRIES * length units
    /\ (for_each rt units st).2 = after_calls m st
    /\ (forall e, (for_each rt units st).1 <> Throw e)
    /\ ((for_each rt units st).1 = Pending -> ~ settles rt).
Proof.
  revert st. induction units as [|u units IH]; intros st Hr.
  - exists 0. simpl. by rewrite after_calls_0.
  - rewrite for_each_cons.
    destruct (prediction_attempts_state (start u) MAX_RETRIES st Hr)
      as (m & Hm & Hst & Hthrow & Hpend).
    destruct (prediction_attempts rt (start u) MAX_RETRIES st)
      as [[r| |] st1] eqn:Hrun; simpl in Hst; subst st1.
    + destruct (IH (after_calls m st) (after_calls_ready m st Hr))
        as (m2 & Hm2 & Hst2 & Hthrow2 & Hpend2).
      destruct (for_each rt units (after_calls m st)) as [[ps| |] st2];
        simpl in *; subst st2; exists (m2 + m);
        rewrite after_calls_plus; unfold MAX_RETRIES in *;
        (split; [lia|]); repeat split; done.
    + by destruct (Hthrow e).
    + exists m. simpl. unfold MAX_RETRIES in *. split; [lia|].
      split; [done|]. split; [done|]. auto.
Qed.

(** A call that needs the model is [loadModel] followed by model calls
    only. *)
Lemma run_op_after_load op st :
  needs_model op = true ->
  match loadModel rt st with
  | (Ok g, st1) =>
      exists m c, run_op rt op st = (c, after_calls m st1)
                  /\ (c = Hung -> ~ settles rt)
  | (Throw e, st1) => run_op rt op st = (Threw e, st1)
  | (Pending, st1) => run_op rt op st = (Hung, st1)
  end.
Proof.
  intros Hop.
  destruct (loadModel rt st) as [[g| |] st1] eqn:Hload.
  - destruct (loadModel_ok_ready rt st g st1 Hload) as (Hr & Hg & _).
    destruct (ready_handle st1 Hr) as [h Hh].
    destruct op; try done; simpl.
    + rewrite Hload. exists 0, Returned. by rewrite after_calls_0.
    + unfold generate, bind. rewrite Hload, <- Hg, Hh. unfold await_call, lift.
      exists 1.
      destruct (call rt h (model_calls st1) prompt maxTokens) eqn:Hc;
        eexists; (split; [reflexivity|]); try done.
      * intros Hhung. pose proof (normalize_output_settles a).
        by destruct (normalize_output a).
      * intros _ [_ Hs]. by apply Hs in Hc.
    + unfold generatePoem, bind. rewrite Hload.
      destruct (poem_attempts_state wrappedData MAX_RETRIES st1 Hr)
        as (m & _ & Hst & Hp).
      destruct (poem_attempts rt wrappedData MAX_RETRIES st1) as [r st2].
      simpl in *. subst st2. exists m, (completion r). split; [done|].
      intros Hc. apply Hp. by destruct r.
    + unfold generatePredictions, bind. rewrite Hload.
      destruct (for_each_state (prompts wrappedData) st1 Hr)
        as (m & _ & Hst & _ & Hp).
      destruct (for_each rt (prompts wrappedData) st1) as [r st2].
      simpl in *. subst st2. exists m, (completion r). split; [done|].
      intros Hc. apply Hp. by destruct r.
  - destruct op; try done; simpl;
      unfold generate, generatePoem, generatePredictions, bind;
      by rewrite Hload.
  - destruct op; try done; simpl;
      unfold generate, generatePoem, generatePredictions, bind;
      by rewrite Hload.
Qed.

Lemma loaded_once_after_calls m st :
  loaded_once rt (after_calls m st) <-> loaded_once rt st.
Proof. done. Qed.

Lemma at_rest_after_calls m st : at_rest (after_calls m st) <-> at_rest st.
Proof. done. Qed.

Lemma loadModel_loaded_once st r st' :
  at_rest st -> loaded_once rt st ->
  loadModel rt st = (r, st') -> r <> Pending -> loaded_once rt st'.
Proof.
  intros Hrest Hone Hrun Hr.
  destruct (loadModel_at_rest st r st' Hrest Hrun Hr)
    as (_ & _ & Hready & Hok & Hun).
  destruct (at_rest_cases st Hrest) as [Hy | Hv].
  - by destruct (Hready Hy) as [-> _].
  - destruct (Hun Hv) as [Hcalls Hres].
    assert (generator st = None) as Hg
      by (unfold vars_of, unloaded_vars in Hv; congruence).
    unfold loaded_once in Hone. rewrite Hg in Hone.
    unfold loaded_once. destruct r as [g|e|]; [| |done].
    + destruct Hres as (h & -> & Hp). destruct (Hok _ eq_refl) as [_ ->].
      exists (pipeline_calls st). done.
    + destruct Hres as (_ & Hv' & e' & Hp).
      assert (generator st' = None) as ->
        by (unfold vars_of, unloaded_vars in Hv'; congruence).
      rewrite Hcalls. intros i Hi.
      destruct (decide (i = pipeline_calls st)) as [->|Hne]; [eauto|].
      apply Hone. lia.
Qed.

Lemma run_op_keeps_rest op st c st' :
  at_rest st -> loaded_once rt st ->
  run_op rt op st = (c, st') -> c <> Hung ->
  at_rest st' /\ loaded_once rt st'.
Proof.
  intros Hrest Hone Hrun Hc.
  destruct (needs_model op) eqn:Hop.
  - pose proof (run_op_after_load op st Hop) as Hdec.
    destruct (loadModel rt st) as [[g| |] st1] eqn:Hload.
    + destruct Hdec as (m & c' & Hrun' & _). rewrite Hrun in Hrun'.
      inversion Hrun'; subst.
      rewrite at_rest_after_calls, loaded_once_after_calls.
      split.
      * by eapply (loadModel_at_rest st (Ok g) st1).
      * by eapply (loadModel_loaded_once st (Ok g) st1).
    + rewrite Hrun in Hdec. injection Hdec as _ ->. split.
      * by eapply (loadModel_at_rest st (Throw e) st1).
      * by eapply (loadModel_loaded_once st (Throw e) st1).
    + rewrite Hrun in Hdec. by injection Hdec as -> _.
  - destruct op; try done. simpl in Hrun. by inversion Hrun; subst.
Qed.

Lemma visited_at_rest st :
  visited rt st -> at_rest st /\ loaded_once rt st.
Proof.
  induction 1 as [|st op c st' _ [IH1 IH2] Hrun Hc].
  - split; [split; [done|] | intros i Hi; simpl in Hi; lia].
    simpl. split; [done | intros [? ?]; done].
  - by eapply run_op_keeps_rest.
Qed.

(** X1.  On a page where the calls are made one after another, between
    two calls [modelLoading] is false and [modelReady] holds exactly
    when [generator] is set; the handle in [generator] is the answer of
    the last call of [pipeline], and every earlier call of [pipeline]
    was rejected: the model is loaded once. *)
Theorem model_is_loaded_once st :
  visited rt st ->
  modelLoading st = false
  /\ (modelReady st = true <-> is_Some (generator st))
  /\ loaded_once rt st.
Proof.
  intros Hv. destruct (visited_at_rest st Hv) as [[Hl Hrg] Hone]. done.
Qed.

(** X2.  Once the backend is ready, no exported call initialises it
    again or replaces the handle: whatever the call and its outcome, it
    leaves the module variables and the number of [pipeline] calls as
    they were and only adds model calls; [isModelReady] stays true. *)
Theorem ready_is_kept op st :
  ready st ->
  exists m,
    (run_op rt op st).2 = after_calls m st
    /\ isModelReady (run_op rt op st).2 = (Ok true, (run_op rt op st).2).
Proof.
  intros Hr.
  assert (exists m, (run_op rt op st).2 = after_calls m st) as [m Hm].
  { destruct (needs_model op) eqn:Hop.
    - pose proof (run_op_after_load op st Hop) as Hdec.
      rewrite loadModel_ready in Hdec by done.
      destruct Hdec as (m & c & -> & _). by exists m.
    - destruct op; try done. exists 0. simpl. by rewrite after_calls_0. }
  exists m. split; [done|]. rewrite Hm. unfold isModelReady. simpl.
  by destruct Hr as [-> _].
Qed.

(** X3.  A call made after the previous ones have settled never hangs
    on its own: if every call of the runtime settles, so does every
    exported call. *)
Theorem calls_settle op st :
  visited rt st -> settles rt -> (run_op rt op st).1 <> Hung.
Proof.
  intros Hv Hs. destruct (visited_at_rest st Hv) as [Hrest _].
  destruct (needs_model op) eqn:Hop.
  - pose proof (run_op_after_load op st Hop) as Hdec.
    destruct (loadModel rt st) as [[g| |] st1] eqn:Hload.
    + destruct Hdec as (m & c & -> & Hc). simpl. intros ->. by apply Hc.
    + by rewrite Hdec.
    + exfalso. destruct (at_rest_cases st Hrest) as [Hy | Hun].
      * rewrite loadModel_ready in Hload by done. done.
      * pose proof Hun as Hv'. unfold vars_of, unloaded_vars in Hv'.
        injection Hv' as Hg Hl Hy.
        rewrite loadModel_start in Hload by (auto using not_ready_test).
        destruct Hs as [Hs _].
        specialize (Hs (pipeline_calls st) (if has_gpu rt then WebGPU else Wasm)).
        by destruct (pipeline rt _ _).
  - by destruct op.
Qed.

(** X4.  There is no timeout: when a first call of [pipeline] never
    settles, the call that started it hangs with [modelLoading] left
    set, [isModelReady] answers false, and every later call that needs
    the model hangs in the polling loop without reaching the runtime. *)
Theorem hung_load_blocks_the_page op st :
  vars_of st = unloaded_vars ->
  pipeline rt (pipeline_calls st) (device_of rt) = Pending ->
  needs_model op = true ->
  exists st1,
    run_op rt op st = (Hung, st1)
    /\ isModelReady st1 = (Ok false, st1)
    /\ forall op', needs_model op' = true -> run_op rt op' st1 = (Hung, st1).
Proof.
  intros Hv Hp Hop. unfold vars_of, unloaded_vars in Hv.
  injection Hv as Hg Hl Hy.
  pose proof (run_op_after_load op st Hop) as Hdec.
  rewrite loadModel_start in Hdec by (auto using not_ready_test).
  fold (device_of rt) in Hdec. rewrite Hp in Hdec.
  set (st1 := {| generator := generator st; modelLoading := true;
                  modelReady := modelReady st;
                  pipeline_calls := S (pipeline_calls st);
                  model_calls := model_calls st |}) in *.
  exists st1. split; [exact Hdec|]. split.
  - unfold isModelReady. simpl. by rewrite Hy.
  - intros op' Hop'. pose proof (run_op_after_load op' st1 Hop') as Hdec'.
    unfold loadModel at 1 in Hdec'. simpl in Hdec'. rewrite Hy in Hdec'.
    exact Hdec'.
Qed.

(** X5.  Between calls, [isModelReady] answers true exactly when a
    call of [loadModel] would be served from the cache: it returns a
    handle and changes nothing, not even the count of [pipeline]
    calls. *)
Theorem isModelReady_means_cache_hit st :
  visited rt st ->
  (isModelReady st).1 = Ok true
  <-> exists h, loadModel rt st = (Ok (Some h), st).
Proof.
  intros Hv. destruct (visited_at_rest st Hv) as [Hrest _].
  unfold isModelReady. simpl. split.
  - intros [= Hy]. destruct Hrest as [_ Hrg].
    destruct (proj1 Hrg Hy) as [h Hh]. exists h.
    rewrite loadModel_ready by (split; eauto). by rewrite Hh.
  - intros [h Hload].
    destruct (loadModel_at_rest st _ _ Hrest Hload) as (_ & _ & _ & Hok & Hun);
      [done|].
    destruct (at_rest_cases st Hrest) as [[-> _] | Hu]; [done|].
    destruct (Hun Hu) as [Hcalls _]. lia.
Qed.

(** X6.  [loadModel] asks [pipeline] for the device that
    [checkBrowserSupport] recommends, and it does so whether or not
    [supported] is true: with neither WebGPU nor WebAssembly the
    recommendation is still [wasm] and the load is still attempted. *)
Theorem load_uses_recommended_device b st :
  has_gpu rt = navigator_gpu b ->
  vars_of st = unloaded_vars ->
  (loadModel rt st).1
  = match pipeline rt (pipeline_calls st)
            (recommended (checkBrowserSupport b)) with
    | Ok h => Ok (Some h)
    | Throw _ => Throw LoadFailed
    | Pending => Pending
    end
  /\ (supported (checkBrowserSupport b) = false ->
      recommended (checkBrowserSupport b) = Wasm
      /\ webgpu (checkBrowserSupport b) = false
      /\ wasm (checkBrowserSupport b) = false).
Proof.
  intros Hgpu Hv. unfold vars_of, unloaded_vars in Hv.
  injection Hv as Hg Hl Hy. split.
  - rewrite loadModel_start by (auto using not_ready_test).
    unfold checkBrowserSupport. simpl. rewrite Hgpu.
    by destruct (pipeline rt _ _).
  - unfold checkBrowserSupport. simpl.
    destruct (navigator_gpu b), (has_WebAssembly b); done.
Qed.

End SessionFacts.

(** ** Interleaved calls of [loadModel] *)

Section InterleavingFacts.
Context (gpu : bool).

Lemma pool_step_handles p q :
  pool_inv p -> handles_agree p -> pool_step gpu p q -> handles_agree q.
Proof.
  intros Hinv Hagree Hstep.
  destruct Hstep as [vs ts i t vs' t' Hi Hs].
  pose proof (awaiting_in_flight ts i) as Haw.
  assert (Hlt : i < length ts) by (by eapply lookup_lt_Some).
  unfold handles_agree in *. simpl in *.
  destruct Hs as [g l Hg | g r Hr | g r Hr | g r | g r | g l r d h | g l r d];
    simpl in *; intros j h' Hj;
    (destruct (decide (i = j)) as [<-|Hne];
     [rewrite list_lookup_insert_eq in Hj by done
     |rewrite list_lookup_insert_ne in Hj by done; try by eapply Hagree]);
    try done; try congruence.
  destruct Hinv as (Hrg & Hlr & Hn).
  specialize (Haw _ Hi). rewrite Hn in Haw. destruct l; [|lia].
  specialize (Hlr eq_refl). subst r.
  specialize (Hagree j h' Hj). subst g.
  destruct Hrg as [_ Hrg]. by specialize (Hrg (ex_intro _ h' eq_refl)).
Qed.

Lemma reachable_handles n p : reachable gpu n p -> pool_inv p /\ handles_agree p.
Proof.
  unfold reachable. intros Hr.
  eapply (rtc_ind_r (fun q => pool_inv q /\ handles_agree q));
    [ | | exact Hr].
  - split; [apply fresh_pool_inv|]. intros i h Hi. simpl in Hi.
    apply lookup_replicate in Hi as [? _]. done.
  - intros y z _ Hs [IH1 IH2]. split.
    + by eapply pool_step_inv.
    + by eapply pool_step_handles.
Qed.

(** X7.  However the calls of [loadModel] issued on a fresh page
    interleave, all the callers that get a handle get the same one, and
    it is the one held in [generator]. *)
Theorem callers_share_one_handle n vs ts i j h1 h2 :
  reachable gpu n (vs, ts) ->
  ts !! i = Some (Finished (Ok (Some h1))) ->
  ts !! j = Some (Finished (Ok (Some h2))) ->
  h1 = h2 /\ vs.1.1 = Some h1.
Proof.
  intros Hr Hi Hj. destruct (reachable_handles n _ Hr) as [_ Hagree].
  pose proof (Hagree i h1 Hi) as H1. pose proof (Hagree j h2 Hj) as H2.
  simpl in *. split; [congruence | done].
Qed.

Lemma run_reachable n starts failures q :
  interleaving gpu (fresh_pool n) starts failures q -> reachable gpu n q.
Proof.
  induction 1 as [|starts failures vs ts i t vs' t' _ IH Hi Hs].
  - apply rtc_refl.
  - eapply rtc_r; [exact IH|]. by eapply pool_step_at.
Qed.

(** X8.  No duplicate loads: however the calls of [loadModel] issued on
    a fresh page interleave, the number of calls of [pipeline] is the
    number of rejected ones, plus one if a load is in flight, plus one
    if the backend is ready; so [pipeline] is called at most once more
    than it has been rejected, and never again once it has succeeded. *)
Theorem no_duplicate_loads n starts failures vs ts :
  interleaving gpu (fresh_pool n) starts failures (vs, ts) ->
  starts
  = failures + loads_in_flight ts
    + successes vs
  /\ starts <= failures + 1.
Proof.
  intros Hrun.
  assert (starts
          = failures + loads_in_flight ts
            + successes vs) as Heq.
  { remember (vs, ts) as q eqn:Hq. revert vs ts Hq.
    induction Hrun as [|starts failures vs0 ts0 i t vs' t' Hrun IH Hi Hs];
      intros vs ts Hq.
    - injection Hq as <- <-. unfold fresh_pool, unloaded_vars, successes. simpl.
      pose proof (fresh_pool_inv n) as (_ & _ & Hn). simpl in Hn.
      by rewrite Hn.
    - injection Hq as <- <-. specialize (IH vs0 ts0 eq_refl).
      pose proof (reachable_inv gpu n _ (run_reachable n _ _ _ Hrun)) as Hinv.
      pose proof (loads_in_flight_insert ts0 i t t' Hi) as Hc.
      pose proof (awaiting_in_flight ts0 i) as Haw.
      destruct Hs as [g l Hg | g r Hr | g r Hr | g r | g r | g l r d h | g l r d];
        unfold pool_inv, successes, lifecycle in *; simpl in *;
        destruct Hinv as (Hrg & Hlr & Hn); rewrite ?Hn in *.
      + lia.
      + lia.
      + rewrite Hr in *. simpl in *. lia.
      + lia.
      + lia.
      + specialize (Haw _ Hi). destruct l; [|lia].
        rewrite (Hlr eq_refl) in *. simpl in *. lia.
      + specialize (Haw _ Hi). destruct l; [|lia].
        rewrite (Hlr eq_refl) in *. simpl in *. lia. }
  split; [done|].
  pose proof (reachable_inv gpu n _ (run_reachable n _ _ _ Hrun)) as Hinv.
  destruct vs as [[g l] r]. destruct Hinv as (Hrg & Hlr & Hn).
  rewrite Heq, Hn. unfold successes, lifecycle.
  destruct l; [rewrite (Hlr eq_refl); simpl; lia|].
  destruct (r && bool_decide (is_Some g)); lia.
Qed.

End InterleavingFacts.

(** ** The matcher and the meaning of patterns *)

Section MatcherFacts.

Lemma matches_suffix r s rest : matches r s rest -> rest `suffix_of` s.
Proof.
  induction 1; try done.
  - by apply suffix_cons_r.
  - by etransitivity.
  - by etransitivity.
Qed.

Lemma run_star {A} r1 s (k : jsstring -> option A) :
  run (Star r1) s k = star_loop r1 k (length s) s.
Proof. reflexivity. Qed.

(** Whatever the matcher returns comes from a match. *)
Lemma run_sound {A} r :
  forall s (k : jsstring -> option A) x,
    run r s k = Some x -> exists rest, matches r s rest /\ k rest = Some x.
Proof.
  induction r as [|p|r1 IH1 r2 IH2|r1 IH1 r2 IH2|r1 IH1|]; intros s k x Hrun.
  - exists s. split; [constructor | done].
  - destruct s as [|c s]; [done|]. simpl in Hrun.
    destruct (p c) eqn:Hp; [|done]. exists s. split; [by constructor | done].
  - simpl in Hrun. apply IH1 in Hrun as (s1 & Hm1 & Hrun).
    apply IH2 in Hrun as (s2 & Hm2 & Hk). exists s2.
    split; [by econstructor | done].
  - simpl in Hrun. destruct (run r1 s k) as [y|] eqn:H1.
    + injection Hrun as <-. apply IH1 in H1 as (rest & Hm & Hk).
      exists rest. split; [by apply matches_alt_l | done].
    + apply IH2 in Hrun as (rest & Hm & Hk).
      exists rest. split; [by apply matches_alt_r | done].
  - rewrite run_star in Hrun. revert Hrun.
    generalize (length s) as fuel. intros fuel. revert s.
    induction fuel as [|fuel IHf]; intros s Hrun; simpl in Hrun.
    + exists s. split; [constructor | done].
    + destruct (run r1 s _) as [y|] eqn:H1.
      * injection Hrun as <-. apply IH1 in H1 as (s1 & Hm & Hk).
        destruct (length s1 <? length s) eqn:Hlt; [|done].
        apply Nat.ltb_lt in Hlt.
        apply IHf in Hk as (rest & Hm' & Hk). exists rest.
        split; [by eapply matches_star_more | done].
      * exists s. split; [constructor | done].
  - destruct s; [|done]. exists []. split; [constructor | done].
Qed.

(** Every match is found, whatever comes after it. *)
Lemma run_complete {A} r :
  forall s rest (k : jsstring -> option A),
    matches r s rest -> is_Some (k rest) -> is_Some (run r s k).
Proof.
  induction r as [|p|r1 IH1 r2 IH2|r1 IH1 r2 IH2|r1 IH1|];
    intros s rest k Hm Hk.
  - by inversion Hm; subst.
  - inversion Hm; subst. simpl. by rewrite H0.
  - inversion Hm; subst. simpl. eapply IH1; [eassumption|].
    by eapply IH2.
  - simpl. inversion Hm; subst.
    + destruct (IH1 _ _ k H3 Hk) as [y ->]. done.
    + destruct (run r1 _ k); [done|]. by eapply IH2.
  - rewrite run_star.
    assert (forall fuel s, length s <= fuel ->
              matches (Star r1) s rest -> is_Some (star_loop r1 k fuel s))
      as Hloop.
    { clear s Hm. induction fuel as [|fuel IHf]; intros s Hlen Hm.
      - inversion Hm; subst; [done|]. lia.
      - simpl. inversion Hm; subst.
        + destruct (run r1 _ _); done.
        + match goal with
          | |- is_Some (match ?X with _ => _ end) =>
              assert (is_Some X) as [y ->]; [|done]
          end.
          eapply IH1; [eassumption|].
          rewrite (proj2 (Nat.ltb_lt _ _)) by done.
          apply IHf; [lia | done]. }
    by apply Hloop.
  - by inversion Hm; subst.
Qed.

Lemma test_prefix_spec r s :
  test_prefix r s = true <-> exists rest, matches r s rest.
Proof.
  unfold test_prefix. rewrite bool_decide_eq_true. split.
  - intros [x Hx]. apply run_sound in Hx as (rest & Hm & _). eauto.
  - intros [rest Hm]. by eapply run_complete.
Qed.

Lemma test_spec r s :
  test r s = true
  <-> exists pre post rest, s = pre ++ post /\ matches r post rest.
Proof.
  induction s as [|c s IH]; simpl.
  - rewrite orb_false_r, test_prefix_spec. split.
    + intros [rest Hm]. by exists [], [], rest.
    + intros (pre & post & rest & Heq & Hm).
      symmetry in Heq. apply app_eq_nil in Heq as [-> ->]. eauto.
  - rewrite orb_true_iff, test_prefix_spec, IH. split.
    + intros [[rest Hm] | (pre & post & rest & -> & Hm)].
      * by exists [], (c :: s), rest.
      * by exists (c :: pre), post, rest.
    + intros (pre & post & rest & Heq & Hm). destruct pre as [|x pre].
      * left. simpl in Heq. subst. eauto.
      * right. simpl in Heq. injection Heq as -> ->. eauto.
Qed.

Lemma strip_prefix_suffix r s : strip_prefix r s `suffix_of` s.
Proof.
  unfold strip_prefix. destruct (run r s Some) as [rest|] eqn:Hrun; [|done].
  apply run_sound in Hrun as (rest' & Hm & [= ->]).
  by eapply matches_suffix.
Qed.

End MatcherFacts.

(** ** Trimming and splitting *)

Section TrimFacts.

Lemma trim_start_suffix s : trim_start s `suffix_of` s.
Proof.
  induction s as [|c s IH]; simpl; [done|].
  destruct (is_ws c); [by apply suffix_cons_r | done].
Qed.

Lemma trim_start_head s c : head (trim_start s) = Some c -> is_ws c = false.
Proof.
  induction s as [|x s IH]; simpl; [done|].
  destruct (is_ws x) eqn:Hx; [done|]. simpl. by intros [= <-].
Qed.

Lemma trim_start_id s :
  (forall c, head s = Some c -> is_ws c = false) -> trim_start s = s.
Proof.
  destruct s as [|x s]; simpl; [done|]. intros Hh.
  by rewrite (Hh x eq_refl).
Qed.

Lemma last_rev (s : jsstring) : last (rev s) = head s.
Proof. destruct s as [|c s]; simpl; [done|]. by rewrite last_snoc. Qed.

Lemma head_rev (s : jsstring) : head (rev s) = last s.
Proof. by rewrite <- last_rev, rev_involutive. Qed.

Lemma trim_end_prefix s : trim_end s `prefix_of` s.
Proof.
  unfold trim_end. destruct (trim_start_suffix (rev s)) as [w Hw].
  exists (rev w). apply (f_equal (@rev N)) in Hw.
  by rewrite rev_involutive, rev_app_distr in Hw.
Qed.

Lemma trim_end_last s c : last (trim_end s) = Some c -> is_ws c = false.
Proof. unfold trim_end. rewrite last_rev. apply trim_start_head. Qed.

Lemma trim_end_id s :
  (forall c, last s = Some c -> is_ws c = false) -> trim_end s = s.
Proof.
  intros Hl. unfold trim_end. rewrite trim_start_id; [apply rev_involutive|].
  intros c. rewrite head_rev. apply Hl.
Qed.

Lemma head_prefix (a b : jsstring) c :
  a `prefix_of` b -> head a = Some c -> head b = Some c.
Proof. intros [w ->]. by destruct a. Qed.

Lemma trim_trimmed s : trimmed (trim s).
Proof.
  unfold trim. split.
  - intros c Hc. apply (trim_start_head s).
    by eapply head_prefix; [apply trim_end_prefix|].
  - apply trim_end_last.
Qed.

Lemma trim_id s : trimmed s -> trim s = s.
Proof.
  intros [Hh Hl]. unfold trim. rewrite (trim_start_id s Hh).
  by apply trim_end_id.
Qed.

Lemma trim_start_nil s :
  trim_start s = [] -> Forall (fun c => is_ws c = true) s.
Proof.
  induction s as [|c s IH]; simpl; [done|].
  destruct (is_ws c) eqn:Hc; [|done]. intros Hs. constructor; auto.
Qed.

Lemma trim_nil s : trim s = [] -> Forall (fun c => is_ws c = true) s.
Proof.
  unfold trim, trim_end. intros Hs.
  apply (f_equal (@rev N)) in Hs. rewrite rev_involutive in Hs. simpl in Hs.
  apply trim_start_nil in Hs.
  assert (Forall (fun c => is_ws c = true) (trim_start s)) as Hall.
  { rewrite Forall_forall in *. intros c Hc. apply Hs.
    apply list_elem_of_In, in_rev. rewrite rev_involutive.
    by apply list_elem_of_In. }
  destruct (trim_start s) as [|c a] eqn:Ha; [by apply trim_start_nil|].
  apply Forall_cons in Hall as [Hc _].
  pose proof (trim_start_head s c) as Hh. rewrite Ha in Hh.
  rewrite (Hh eq_refl) in Hc. done.
Qed.

Lemma trim_infix s : exists a b, s = a ++ trim s ++ b.
Proof.
  unfold trim. destruct (trim_start_suffix s) as [a Ha].
  destruct (trim_end_prefix (trim_start s)) as [b Hb].
  exists a, b. by rewrite <- Hb.
Qed.

Lemma trim_elem_of s c : c ∈ trim s -> c ∈ s.
Proof.
  destruct (trim_infix s) as (a & b & Heq). intros Hc.
  rewrite Heq, !elem_of_app. auto.
Qed.

Lemma trim_length s : length (trim s) <= length s.
Proof.
  destruct (trim_infix s) as (a & b & Heq).
  rewrite Heq at 2. rewrite !length_app. lia.
Qed.

Lemma first_line_no_feed s : 10%N ∉ first_line s.
Proof.
  induction s as [|c s IH]; simpl; [apply not_elem_of_nil|].
  destruct (c =? 10)%N eqn:Hc; [apply not_elem_of_nil|].
  apply N.eqb_neq in Hc. apply not_elem_of_cons. split; [done|done].
Qed.

Lemma first_line_prefix s : first_line s `prefix_of` s.
Proof.
  induction s as [|c s IH]; simpl; [done|].
  destruct (c =? 10)%N; [apply prefix_nil | by apply prefix_cons].
Qed.

Lemma first_line_id s : 10%N ∉ s -> first_line s = s.
Proof.
  induction s as [|c s IH]; simpl; [done|]. intros Hn.
  apply not_elem_of_cons in Hn as [Hc Hs].
  rewrite (proj2 (N.eqb_neq c 10)) by done. by rewrite IH.
Qed.

Lemma split_go_no_sep sep cur s :
  sep ∉ cur -> Forall (fun x => sep ∉ x) (split_go sep cur s).
Proof.
  revert cur. induction s as [|c s IH]; intros cur Hcur; simpl.
  - by constructor.
  - destruct (c =? sep)%N eqn:Hc.
    + constructor; [done|]. apply IH, not_elem_of_nil.
    + apply IH. apply N.eqb_neq in Hc. apply not_elem_of_app.
      split; [done|]. rewrite list_elem_of_singleton. congruence.
Qed.

Lemma split_no_sep sep s : Forall (fun x => sep ∉ x) (split sep s).
Proof. apply split_go_no_sep, not_elem_of_nil. Qed.

Lemma split_go_whole sep cur s :
  sep ∉ s -> split_go sep cur s = [cur ++ s].
Proof.
  revert cur. induction s as [|c s IH]; intros cur Hs; simpl.
  - by rewrite app_nil_r.
  - apply not_elem_of_cons in Hs as [Hc Hs].
    rewrite (proj2 (N.eqb_neq c sep)) by done.
    rewrite IH by done. by rewrite <- app_assoc.
Qed.

Lemma split_go_app sep cur a rest :
  sep ∉ a ->
  split_go sep cur (a ++ sep :: rest) = (cur ++ a) :: split_go sep [] rest.
Proof.
  revert cur. induction a as [|c a IH]; intros cur Ha; simpl.
  - by rewrite N.eqb_refl, app_nil_r.
  - apply not_elem_of_cons in Ha as [Hc Ha].
    rewrite (proj2 (N.eqb_neq c sep)) by done.
    rewrite IH by done. by rewrite <- app_assoc.
Qed.

(** Joining three lines and splitting them again. *)
Lemma split_join_three l1 l2 l3 :
  10%N ∉ l1 -> 10%N ∉ l2 -> 10%N ∉ l3 ->
  split 10 (join newline [l1; l2; l3]) = [l1; l2; l3].
Proof.
  intros H1 H2 H3. unfold split, newline. simpl.
  rewrite split_go_app by done. rewrite split_go_app by done.
  by rewrite split_go_whole.
Qed.

End TrimFacts.

(** ** Prompt and completion text *)

Section TextShape.
Context {tables : CaseTables}.

Lemma without_arrow_suffix s : without_arrow s `suffix_of` s.
Proof.
  destruct s as [|c s]; simpl; [done|].
  destruct (c =? 8594)%N; [|done].
  apply suffix_cons_r, trim_start_suffix.
Qed.

Lemma suffix_elem_of (a b : jsstring) c : a `suffix_of` b -> c ∈ a -> c ∈ b.
Proof. intros [w ->] Hc. apply elem_of_app. by right. Qed.

Lemma prefix_elem_of (a b : jsstring) c : a `prefix_of` b -> c ∈ a -> c ∈ b.
Proof. intros [w ->] Hc. apply elem_of_app. by left. Qed.

(** X9.  The completion taken from a response holds no line feed, has
    no white space at either end, and is never longer than the
    response; a response that is already a single trimmed line without
    a leading arrow is taken as it is. *)
Theorem completion_shape response :
  (10%N ∉ completion_of response)
  /\ trimmed (completion_of response)
  /\ length (completion_of response) <= length response
  /\ (trimmed response -> 10%N ∉ response ->
      head response <> Some 8594%N ->
      completion_of response = response).
Proof.
  rewrite completion_of_first_line. split; [|split; [|split]].
  - intros Hc. apply trim_elem_of in Hc.
    apply (suffix_elem_of _ _ _ (without_arrow_suffix _)) in Hc.
    apply trim_elem_of in Hc. by apply first_line_no_feed in Hc.
  - apply trim_trimmed.
  - etransitivity; [apply trim_length|].
    etransitivity; [apply suffix_length, without_arrow_suffix|].
    etransitivity; [apply trim_length|].
    etransitivity; [apply prefix_length, first_line_prefix|].
    apply trim_length.
  - intros Ht Hn Hh. rewrite (trim_id response Ht).
    rewrite (first_line_id response Hn), (trim_id response Ht).
    assert (without_arrow response = response) as ->.
    { destruct response as [|c s]; simpl; [done|].
      destruct (c =? 8594)%N eqn:Hc; [|done].
      apply N.eqb_eq in Hc. subst c. by destruct Hh. }
    by apply trim_id.
Qed.

(** X10.  The theme named in the poem prompt is never empty, has no
    white space at either end and holds no comma.  Without themes it is
    "various topics"; when the title of the top theme is a non-empty
    trimmed text without a comma it is that title; and when the text
    before the first comma of the joined titles is blank it is
    "learning". *)
Theorem poem_first_theme_shape p :
  (poem_first_theme p <> []
   /\ trimmed (poem_first_theme p)
   /\ 44%N ∉ poem_first_theme p)
  /\ (default [] (themes p) = [] ->
      poem_first_theme p = lit "various topics")
  /\ (forall top rest s,
        themes p = Some (top :: rest) -> title top = Some s ->
        s <> [] -> trimmed s -> 44%N ∉ s ->
        poem_first_theme p = s)
  /\ (forall top next rest,
        themes p = Some (top :: next :: rest) ->
        trim (default [] (title top)) = [] ->
        poem_first_theme p = lit "learning").
Proof.
  change (poem_first_theme p)
    with (match trim (List.hd [] (split 44 (all_themes p))) with
          | [] => lit "learning"
          | s => s
          end).
  set (allThemes := all_themes p).
  split; [|split; [|split]].
  - destruct (trim (List.hd [] (split 44 allThemes))) as [|c s] eqn:Ht.
    + split; [done|]. split.
      * split; intros c [= <-]; reflexivity.
      * intros Hc. vm_compute in Hc.
        repeat (apply elem_of_cons in Hc as [Hc|Hc]; [discriminate|]).
        by apply elem_of_nil in Hc.
    + split; [done|]. rewrite <- Ht. split; [apply trim_trimmed|].
      intros Hc. apply trim_elem_of in Hc.
      pose proof (split_no_sep 44 allThemes) as Hall.
      unfold split in *. destruct (split_go 44 [] allThemes) as [|x xs];
        [by apply elem_of_nil in Hc|].
      by apply Forall_cons in Hall as [Hx _].
  - intros Hnone. unfold allThemes, all_themes. rewrite Hnone. reflexivity.
  - intros top rest s Hthemes Htitle Hne Htrim Hcomma.
    assert (exists tail, allThemes = s ++ tail
              /\ (tail = [] \/ exists t, tail = 44%N :: t))
      as (tail & Hall & Htail).
    { unfold allThemes, all_themes. rewrite Hthemes.
      change (default [] (Some (top :: rest))) with (top :: rest).
      change (take 3 (top :: rest)) with (top :: take 2 rest).
      rewrite map_cons, Htitle.
      change (default [] (Some s)) with s.
      match goal with
      | |- context [join ?sep (s :: ?l)] => generalize l
      end.
      intros others. destruct s as [|c s]; [done|].
      destruct others as [|y others].
      - exists []. split; [|by left]. by rewrite app_nil_r.
      - eexists. split; [reflexivity|]. right. by eexists. }
    rewrite Hall. unfold split.
    assert (List.hd [] (split_go 44 [] (s ++ tail)) = s) as ->.
    { destruct Htail as [-> | [t ->]].
      - rewrite app_nil_r, split_go_whole by done. done.
      - by rewrite split_go_app. }
    rewrite (trim_id s Htrim). by destruct s.
  - intros top next rest Hthemes Hblank.
    assert (exists t, allThemes = default [] (title top) ++ 44%N :: t)
      as (t & Hall).
    { unfold allThemes, all_themes. rewrite Hthemes.
      change (default [] (Some (top :: next :: rest)))
        with (top :: next :: rest).
      change (take 3 (top :: next :: rest))
        with (top :: next :: take 1 rest).
      rewrite !map_cons.
      change (join (lit ", ") (?a :: ?b :: ?l))
        with (a ++ lit ", " ++ join (lit ", ") (b :: l)).
      set (j := join _ _). exists (32%N :: j).
      destruct (default [] (title top)); reflexivity. }
    assert (44%N ∉ default [] (title top)) as Hcomma.
    { intros Hc. pose proof (trim_nil _ Hblank) as Hws.
      rewrite Forall_forall in Hws. by apply Hws in Hc. }
    rewrite Hall. unfold split. rewrite split_go_app by done.
    simpl List.hd. by rewrite Hblank.
Qed.

End TextShape.

(** ** What the validators reject *)

Section ValidatorFacts.

Lemma matches_word_ci w : forall m rest,
  ci_equal m w -> matches (word_of chr_i w) (m ++ rest) rest.
Proof.
  unfold ci_equal.
  induction w as [|c w IH]; intros m rest Hm.
  - destruct m; [|done]. constructor.
  - destruct m as [|x m]; [done|]. simpl in Hm. injection Hm as Hx Hm.
    assert (matches (chr_i c) (x :: m ++ rest) (m ++ rest)) as Hc.
    { constructor. by apply N.eqb_eq. }
    destruct w as [|c' w].
    + destruct m; [|done]. exact Hc.
    + change (word_of chr_i (c :: c' :: w))
        with (Seq (chr_i c) (word_of chr_i (c' :: w))).
      econstructor; [exact Hc|]. by apply IH.
Qed.

Lemma matches_alts rs r s rest :
  In r rs -> matches r s rest -> matches (alts rs) s rest.
Proof.
  induction rs as [|r0 rs IH]; intros Hin Hm; [done|].
  destruct rs as [|r1 rs].
  - destruct Hin as [-> | []]. exact Hm.
  - change (alts (r0 :: r1 :: rs)) with (Alt r0 (alts (r1 :: rs))).
    destruct Hin as [-> | Hin].
    + by apply matches_alt_l.
    + apply matches_alt_r. by apply IH.
Qed.

Lemma test_false_no_match r s pre post rest :
  test r s = false -> s = pre ++ post -> ~ matches r post rest.
Proof.
  intros Ht Heq Hm.
  assert (test r s = true) as Htrue by (apply test_spec; eauto).
  congruence.
Qed.

Lemma test_prefix_false_no_match r s rest :
  test_prefix r s = false -> ~ matches r s rest.
Proof.
  intros Ht Hm.
  assert (test_prefix r s = true) as Htrue by (apply test_prefix_spec; eauto).
  congruence.
Qed.

(** A pattern that lists a word rejects every text that mentions it. *)
Lemma test_false_no_mention rs w s :
  In (word_of chr_i w) rs -> test (alts rs) s = false -> ~ mentions_ci w s.
Proof.
  intros Hin Ht (pre & post & Heq & m & rest & -> & Hci).
  eapply (test_false_no_match _ _ _ _ rest Ht Heq).
  apply (matches_alts rs _ _ _ Hin). by apply matches_word_ci.
Qed.

Lemma test_prefix_false_no_opening rs w s :
  In (word_of chr_i w) rs -> test_prefix (alts rs) s = false ->
  ~ starts_with_ci w s.
Proof.
  intros Hin Ht (m & rest & -> & Hci).
  eapply (test_prefix_false_no_match _ _ rest Ht).
  apply (matches_alts rs _ _ _ Hin). by apply matches_word_ci.
Qed.

Lemma fold_case_fixed x c :
  (c < 65 \/ 90 < c)%N -> c <> 201%N -> fold_case x = c -> x = c.
Proof.
  unfold fold_case. intros Hc H201.
  destruct (_ || _)%bool eqn:H; [|done]. intros Hx.
  apply orb_true_iff in H as [H|H].
  - apply andb_prop in H as [H1 H2]. apply N.leb_le in H1, H2. lia.
  - apply N.eqb_eq in H. lia.
Qed.

Lemma ci_equal_app_inv m w1 w2 :
  ci_equal m (w1 ++ w2) ->
  exists m1 m2, m = m1 ++ m2 /\ ci_equal m1 w1 /\ ci_equal m2 w2.
Proof.
  unfold ci_equal. rewrite map_app. intros Hm.
  apply map_eq_app in Hm as (m1 & m2 & -> & H1 & H2). eauto.
Qed.

Lemma elem_of_split (c : N) (s : jsstring) :
  c ∈ s -> exists pre post, s = pre ++ c :: post.
Proof. apply list_elem_of_split. Qed.

Lemma three_digits_match a b c post :
  is_digit a = true -> is_digit b = true -> is_digit c = true ->
  matches (Seq digit (Seq digit (Plus digit))) (a :: b :: c :: post) post.
Proof.
  intros Ha Hb Hc. unfold Plus, digit.
  repeat (econstructor; [by constructor|]). constructor.
Qed.

Lemma url_match m rest :
  ci_equal m (lit "http:") \/ ci_equal m (lit "https:") ->
  matches (Seq (word_i "http") (Seq (Opt (chr_i 115)) (chr 58)))
    (m ++ rest) rest.
Proof.
  intros [Hm | Hm].
  - change (lit "http:") with (lit "http" ++ [58%N]) in Hm.
    apply ci_equal_app_inv in Hm as (m1 & m2 & -> & H1 & H2).
    destruct m2 as [|x [|? ?]]; try done. injection H2 as H2.
    change (fold_case 58) with 58%N in H2.
    apply fold_case_fixed in H2; [|lia|lia]. subst x.
    rewrite <- app_assoc. econstructor; [by apply matches_word_ci|].
    econstructor; [apply matches_alt_r; constructor|].
    constructor. apply N.eqb_refl.
  - change (lit "https:") with (lit "http" ++ [115%N; 58%N]) in Hm.
    apply ci_equal_app_inv in Hm as (m1 & m2 & -> & H1 & H2).
    destruct m2 as [|x [|y [|? ?]]]; try done. injection H2 as Hx Hy.
    change (fold_case 58) with 58%N in Hy.
    apply fold_case_fixed in Hy; [|lia|lia]. subst y.
    rewrite <- app_assoc. econstructor; [by apply matches_word_ci|].
    econstructor.
    + apply matches_alt_l. constructor. by apply N.eqb_eq.
    + constructor. apply N.eqb_refl.
Qed.

Context {tables : CaseTables}.

Lemma isValid_parts completion :
  isValid completion = true ->
  (3 <= length (split_ws completion) <= 20)
  /\ test banned_phrases completion = false
  /\ test_dot_backref 4 completion = false
  /\ hasWordRepetition completion = false
  /\ test_prefix prediction_meta_text completion = false
  /\ test question_or_shout completion = false
  /\ test assistant_register completion = false.
Proof.
  unfold isValid. intros Hv.
  repeat (apply andb_prop in Hv as [Hv ?]).
  repeat match goal with
         | H : negb _ = true |- _ => apply negb_true_iff in H
         | H : (_ <=? _) = true |- _ => apply Nat.leb_le in H
         end.
  repeat split; done.
Qed.


End ValidatorFacts.

(** ** Accepted poems *)

Section PoemFacts.
Context {tables : CaseTables}.

Lemma poem_line_no_feed response l : l ∈ poem_lines response -> 10%N ∉ l.
Proof.
  unfold poem_lines. intros Hin Hc.
  apply list_elem_of_In, filter_In in Hin as [Hin _].
  apply in_map_iff in Hin as (y & <- & Hy).
  apply in_map_iff in Hy as (x & <- & Hx).
  apply (suffix_elem_of _ _ _ (strip_prefix_suffix _ _)) in Hc.
  apply trim_elem_of in Hc.
  pose proof (split_no_sep 10 (trim response)) as Hall.
  rewrite Forall_forall in Hall. apply list_elem_of_In in Hx.
  by apply Hall in Hx.
Qed.

Lemma poem_line_clean response l :
  l ∈ poem_lines response ->
  hasGibberish (poem_lines response) = false ->
  validLineLengths (poem_lines response) = true ->
  clean_line l.
Proof.
  intros Hin Hgib Hlen.
  pose proof (poem_line_no_feed response l Hin) as Hfeed.
  pose proof Hin as Hkeep. unfold poem_lines in Hkeep.
  apply list_elem_of_In, filter_In in Hkeep as [_ Hkeep].
  unfold keep_line in Hkeep.
  destruct (_ || _)%bool eqn:Hsize; [done|].
  apply orb_false_iff in Hsize as [H4 H50].
  apply Nat.ltb_ge in H4, H50.
  destruct (test_prefix poem_meta_text l) eqn:Hmeta; [done|].
  destruct (test special_chars l) eqn:Hspecial; [done|].
  unfold hasGibberish in Hgib.
  assert (test leaked_identity l = false /\ test_dot_backref 3 l = false)
    as [Hleak Hrun].
  { apply orb_false_iff.
    destruct (test leaked_identity l || test_dot_backref 3 l) eqn:Hb; [|done].
    assert (existsb (fun l => test leaked_identity l || test_dot_backref 3 l)
              (poem_lines response) = true) as Hex; [|congruence].
    apply existsb_exists. exists l. split; [by apply list_elem_of_In|done]. }
  unfold validLineLengths in Hlen. rewrite forallb_forall in Hlen.
  specialize (Hlen l (proj1 (list_elem_of_In _ _) Hin)).
  apply andb_prop in Hlen as [Hw2 Hw8]. apply Nat.leb_le in Hw2, Hw8.
  split; [done|]. split; [done|]. split; [done|].
  split; [|split; [|split; [|split]]].
  - intros Hr. apply test_dot_backref_spec in Hr. congruence.
  - intros c Hc Hmark. apply elem_of_split in Hc as (pre & post & Heq).
    eapply (test_false_no_match _ _ pre _ post Hspecial Heq).
    apply matches_alt_l. constructor. apply existsb_exists. exists c.
    split; [by apply list_elem_of_In | apply N.eqb_refl].
  - intros Hlast. apply last_Some in Hlast as [pre Heq].
    eapply (test_false_no_match _ _ pre _ [] Hspecial Heq).
    apply matches_alt_r. econstructor; [constructor; apply N.eqb_refl|].
    constructor.
  - intros w Hw. unfold poem_openings in Hw.
    repeat (apply elem_of_cons in Hw as [-> | Hw]);
      try (by apply elem_of_nil in Hw);
      (eapply test_prefix_false_no_opening; [|exact Hmeta]);
      simpl; auto 12.
  - intros w Hw. unfold leaks in Hw.
    repeat (apply elem_of_cons in Hw as [-> | Hw]);
      try (by apply elem_of_nil in Hw);
      try (eapply test_false_no_mention; [|exact Hleak]; simpl; by auto 12).
    + intros (pre & post & Heq & m & rest & -> & Hci).
      eapply (test_false_no_match _ _ pre _ rest Hleak Heq).
      eapply (matches_alts _ _ _ _ _ (url_match m rest (or_introl Hci))).
    + intros (pre & post & Heq & m & rest & -> & Hci).
      eapply (test_false_no_match _ _ pre _ rest Hleak Heq).
      eapply (matches_alts _ _ _ _ _ (url_match m rest (or_intror Hci))).
  Unshelve. all: simpl; auto 12.
Qed.


End PoemFacts.

(** ** Attempts *)

Section AttemptFacts.
Context {tables : CaseTables} (rt : Runtime).

Lemma poem_attempts_result p n st h text st' :
  ready st -> generator st = Some h ->
  poem_attempts rt p n st = (Ok text, st') ->
  exists k, k <= n
    /\ (forall j, j < k -> poem_rejected rt p h (model_calls st + j))
    /\ ((k = n /\ text = getFallbackPoem p /\ st' = after_calls n st)
        \/ (k < n /\ poem_accepted rt p h (model_calls st + k) text
            /\ st' = after_calls (S k) st)).
Proof.
  revert st. induction n as [|n IH]; intros st Hr Hg Hrun.
  - simpl in Hrun. injection Hrun as <- <-. exists 0.
    split; [lia|]. split; [intros j Hj; lia|]. left.
    by rewrite after_calls_0.
  - rewrite (poem_attempts_S rt p n st h) in Hrun by done.
    destruct (rbind _ _) as [response| |] eqn:Hresp; [|done|done].
    apply call_then_normalize in Hresp as (out & Hcall & Hnorm).
    destruct (haiku_of response) as [haiku|] eqn:Hh.
    + injection Hrun as <- <-. exists 0. split; [lia|].
      split; [intros j Hj; lia|]. right. split; [lia|].
      rewrite Nat.add_0_r. split; [|done]. by exists out, response.
    + apply IH in Hrun as (k & Hk & Hrej & Hres);
        [|by apply after_calls_ready|done].
      exists (S k). split; [lia|]. split.
      * intros [|j] Hj.
        -- rewrite Nat.add_0_r. by exists out, response.
        -- replace (model_calls st + S j)
             with (model_calls (after_calls 1 st) + j) by (simpl; lia).
           apply Hrej. lia.
      * destruct Hres as [(-> & -> & ->) | (Hlt & Hacc & ->)].
        -- left. rewrite after_calls_plus.
           by replace (n + 1) with (S n) by lia.
        -- right. split; [lia|].
           replace (model_calls st + S k)
             with (model_calls (after_calls 1 st) + k) by (simpl; lia).
           split; [done|]. rewrite after_calls_plus.
           by replace (S k + 1) with (S (S k)) by lia.
Qed.

(** X13.  A poem that [generatePoem] returns comes from the first
    accepted attempt: after the load, some number [k] of model calls,
    each made with the poem prompt and a budget of 40 tokens, were
    answered and rejected; then either [k] is 5 and the poem is
    [getFallbackPoem], or the next call was accepted and its haiku is
    returned at once, after [k + 1] calls in all. *)
Theorem poem_is_first_accepted_attempt p st text st' :
  generatePoem rt p st = (Ok text, st') ->
  exists h st1 k,
    loadModel rt st = (Ok (Some h), st1)
    /\ k <= 5
    /\ (forall j, j < k -> poem_rejected rt p h (model_calls st1 + j))
    /\ ((k = 5 /\ text = getFallbackPoem p /\ st' = after_calls 5 st1)
        \/ (k < 5 /\ poem_accepted rt p h (model_calls st1 + k) text
            /\ st' = after_calls (S k) st1)).
Proof.
  unfold generatePoem, bind.
  destruct (loadModel rt st) as [[g| |] st1] eqn:Hload; try done.
  destruct (loadModel_ok_ready rt st g st1 Hload) as (Hr & Hg & _).
  destruct (ready_handle st1 Hr) as [h Hh]. intros Hrun.
  apply (poem_attempts_result p MAX_RETRIES st1 h) in Hrun
    as (k & Hk & Hrej & Hres); [|done|done].
  exists h, st1, k. rewrite <- Hg, Hh. done.
Qed.

Lemma prediction_attempts_result start n st h r st' :
  ready st -> generator st = Some h ->
  prediction_attempts rt start n st = (Ok r, st') ->
  exists k, k <= n
    /\ (forall j, j < k -> prediction_failed rt start h (model_calls st + j))
    /\ ((k = n /\ r = None /\ st' = after_calls n st)
        \/ (k < n
            /\ (exists text, r = Some text
                  /\ prediction_accepted rt start h (model_calls st + k) text)
            /\ st' = after_calls (S k) st)).
Proof.
  revert st. induction n as [|n IH]; intros st Hr Hg Hrun.
  - simpl in Hrun. injection Hrun as <- <-. exists 0.
    split; [lia|]. split; [intros j Hj; lia|]. left.
    by rewrite after_calls_0.
  - simpl in Hrun. unfold bind in Hrun.
    rewrite (prediction_attempt_ready rt start st h) in Hrun by done.
    assert (Hnext :
      prediction_failed rt start h (model_calls st) ->
      prediction_attempts rt start n (after_calls 1 st) = (Ok r, st') ->
      exists k, k <= S n
        /\ (forall j, j < k ->
              prediction_failed rt start h (model_calls st + j))
        /\ ((k = S n /\ r = None /\ st' = after_calls (S n) st)
            \/ (k < S n
                /\ (exists text, r = Some text
                      /\ prediction_accepted rt start h
                           (model_calls st + k) text)
                /\ st' = after_calls (S k) st))).
    { intros Hfail Hrest.
      apply IH in Hrest as (k & Hk & Hrej & Hres);
        [|by apply after_calls_ready|done].
      exists (S k). split; [lia|]. split.
      - intros [|j] Hj.
        + by rewrite Nat.add_0_r.
        + replace (model_calls st + S j)
            with (model_calls (after_calls 1 st) + j) by (simpl; lia).
          apply Hrej. lia.
      - destruct Hres as [(-> & -> & ->) | (Hlt & Hacc & ->)].
        + left. rewrite after_calls_plus.
          by replace (n + 1) with (S n) by lia.
        + right. split; [lia|].
          replace (model_calls st + S k)
            with (model_calls (after_calls 1 st) + k) by (simpl; lia).
          split; [done|]. rewrite after_calls_plus.
          by replace (S k + 1) with (S (S k)) by lia. }
    destruct (rbind _ _) as [response| |] eqn:Hresp; [| |done].
    + destruct (isValid (completion_of response)) eqn:Hv.
      * unfold ret in Hrun. injection Hrun as <- <-. exists 0.
        split; [lia|]. split; [intros j Hj; lia|]. right.
        split; [lia|]. rewrite Nat.add_0_r. split; [|done].
        eexists. split; [done|]. by exists response.
      * apply Hnext; [|done]. unfold prediction_failed. by rewrite Hresp.
    + apply Hnext; [|done]. unfold prediction_failed. by rewrite Hresp.
Qed.

(** X14.  A prediction unit keeps the first accepted attempt and counts
    a thrown error as a failed attempt: some number [k] of model calls,
    each made with the unit's prompt and a budget of 20 tokens, threw
    or were rejected; then either [k] is 5 and the unit yields its
    fallback, or the next call was accepted and stem, space and
    completion are returned after [k + 1] calls. *)
Theorem prediction_is_first_accepted_attempt u st h text st' :
  ready st -> generator st = Some h ->
  prediction_unit rt u st = (Ok text, st') ->
  exists k, k <= 5
    /\ (forall j, j < k ->
          prediction_failed rt (start u) h (model_calls st + j))
    /\ ((k = 5 /\ text = fallback u /\ st' = after_calls 5 st)
        \/ (k < 5
            /\ prediction_accepted rt (start u) h (model_calls st + k) text
            /\ st' = after_calls (S k) st)).
Proof.
  intros Hr Hg. unfold prediction_unit, bind.
  destruct (prediction_attempts rt (start u) MAX_RETRIES st)
    as [[r| |] st1] eqn:Hrun; try done.
  apply (prediction_attempts_result _ _ _ h) in Hrun
    as (k & Hk & Hrej & Hres); [|done|done].
  intros Hret. exists k. split; [done|]. split; [done|].
  destruct Hres as [(-> & -> & ->) | (Hlt & (t & -> & Hacc) & ->)];
    unfold ret in Hret; injection Hret as <- <-.
  - by left.
  - right. done.
Qed.

Lemma for_each_budget units st predictions st' :
  ready st ->
  for_each rt units st = (Ok predictions, st') ->
  exists m, length units <= m <= MAX_RETRIES * length units
    /\ st' = after_calls m st.
Proof.
  revert st predictions st'.
  induction units as [|u units IH]; intros st predictions st' Hr Hrun.
  - simpl in Hrun. injection Hrun as <- <-. exists 0.
    split; [simpl; lia|]. by rewrite after_calls_0.
  - rewrite for_each_cons in Hrun.
    destruct (ready_handle st Hr) as [h Hg].
    destruct (prediction_attempts rt (start u) MAX_RETRIES st)
      as [[r| |] st1] eqn:Hu; try done.
    apply (prediction_attempts_result _ _ _ h) in Hu
      as (k & Hk & _ & Hres); [|done|done].
    assert (exists m1, 1 <= m1 <= MAX_RETRIES /\ st1 = after_calls m1 st)
      as (m1 & Hm1 & ->).
    { unfold MAX_RETRIES in *.
      destruct Hres as [(-> & _ & ->) | (Hlt & _ & ->)].
      - exists 5. split; [lia|done].
      - exists (S k). split; [lia|done]. }
    destruct (for_each rt units (after_calls m1 st))
      as [[ps| |] st2] eqn:Hrest; try done.
    injection Hrun as _ <-.
    apply IH in Hrest as (m2 & Hm2 & ->); [|by apply after_calls_ready].
    exists (m2 + m1). rewrite after_calls_plus. unfold MAX_RETRIES in *.
    simpl length. split; [lia|done].
Qed.

(** X15.  A call of [generatePredictions] that is made while no load
    is in flight ([modelLoading] is false, so that its [loadModel] does
    not wait for the load of another caller) and that returns has made
    between 4 and 20 model calls after the load, and nothing else has
    changed: the handle and the count of [pipeline] calls are those the
    load left, and the load itself called [pipeline] at most once. *)
Theorem predictions_call_budget p st predictions st' :
  modelLoading st = false ->
  generatePredictions rt p st = (Ok predictions, st') ->
  exists h st1 m,
    loadModel rt st = (Ok (Some h), st1)
    /\ ready st1
    /\ pipeline_calls st1 <= S (pipeline_calls st)
    /\ 4 <= m <= 20
    /\ st' = after_calls m st1.
Proof.
  intros Hidle. unfold generatePredictions, bind.
  destruct (loadModel rt st) as [[g| |] st1] eqn:Hload; try done.
  destruct (loadModel_ok_ready rt st g st1 Hload) as (Hr & Hg & _).
  destruct (ready_handle st1 Hr) as [h Hh].
  intros Hrun. apply for_each_budget in Hrun as (m & Hm & ->); [|done].
  exists h, st1, m. unfold MAX_RETRIES in Hm. simpl in Hm.
  split; [congruence|]. split; [done|]. split; [|done].
  revert Hload. unfold loadModel. rewrite Hidle.
  destruct (_ && _); [intros [= _ <-]; lia|].
  unfold bind, modify, try_finally, try_catch, await_pipeline. simpl.
  destruct (pipeline rt _ _); intros [= _ <-]; simpl; lia.
Qed.

End AttemptFacts.

(** ** What the runtime is asked *)

Section Independence.
Context {tables : CaseTables} (rt1 rt2 : Runtime).
Hypothesis Hbackend : same_backend rt1 rt2.

Lemma loadModel_same st : loadModel rt1 st = loadModel rt2 st.
Proof.
  destruct Hbackend as [Hgpu Hpipe]. unfold loadModel.
  destruct (_ && _); [done|]. destruct (modelLoading st); [done|].
  unfold bind, modify, try_finally, try_catch, await_pipeline. simpl.
  by rewrite Hgpu, Hpipe.
Qed.

Lemma generate_same asked k prompt st :
  same_answers rt1 rt2 asked k -> prompt ∈ asked ->
  generate rt1 prompt k st = generate rt2 prompt k st.
Proof.
  intros Hans Hin. unfold generate, bind. rewrite loadModel_same.
  destruct (loadModel rt2 st) as [[[h|]| |] st1]; try done.
  unfold await_call. by rewrite (Hans h _ prompt Hin).
Qed.

Lemma poem_attempts_same p n st :
  same_answers rt1 rt2 [poem_prompt p] 40 ->
  poem_attempts rt1 p n st = poem_attempts rt2 p n st.
Proof.
  intros Hans. revert st. induction n as [|n IH]; intros st; [done|].
  simpl. unfold bind.
  rewrite (generate_same [poem_prompt p] 40) by (done || apply list_elem_of_here).
  destruct (generate rt2 _ _ st) as [[response| |] st1]; try done.
  destruct (haiku_of response); [done | apply IH].
Qed.

Lemma prediction_attempts_same asked start n st :
  same_answers rt1 rt2 asked 20 -> prediction_prompt start ∈ asked ->
  prediction_attempts rt1 start n st = prediction_attempts rt2 start n st.
Proof.
  intros Hans Hin. revert st. induction n as [|n IH]; intros st; [done|].
  simpl. unfold bind, prediction_attempt, try_catch, bind.
  rewrite (generate_same asked 20) by done.
  destruct (generate rt2 _ _ st) as [[response| |] st1]; try done.
  - destruct (isValid _); [done | apply IH].
  - unfold ret. apply IH.
Qed.

Lemma for_each_same asked units st :
  same_answers rt1 rt2 asked 20 ->
  Forall (fun u => prediction_prompt (start u) ∈ asked) units ->
  for_each rt1 units st = for_each rt2 units st.
Proof.
  intros Hans Hall. revert st.
  induction Hall as [|u units Hu _ IH]; intros st; [done|].
  simpl. unfold bind, prediction_unit, bind.
  rewrite (prediction_attempts_same asked) by done.
  destruct (prediction_attempts rt2 _ _ st) as [[r| |] st1]; try done.
  destruct r; unfold ret; by rewrite IH.
Qed.

(** X16.  The generation functions consult the runtime only through
    [pipeline] and through model calls made with their own prompts and
    budgets: two runtimes that initialise alike and answer alike to the
    poem prompt with 40 tokens give the same [generatePoem]; two that
    answer alike to the four prediction prompts with 20 tokens give the
    same [generatePredictions]. *)
Theorem generation_asks_only_its_prompts p st :
  (same_answers rt1 rt2 [poem_prompt p] 40 ->
   generatePoem rt1 p st = generatePoem rt2 p st)
  /\ (same_answers rt1 rt2
        (List.map (fun u => prediction_prompt (start u)) (prompts p)) 20 ->
      generatePredictions rt1 p st = generatePredictions rt2 p st).
Proof.
  split; intros Hans.
  - unfold generatePoem, bind. rewrite loadModel_same.
    destruct (loadModel rt2 st) as [[g| |] st1]; try done.
    by apply poem_attempts_same.
  - unfold generatePredictions, bind. rewrite loadModel_same.
    destruct (loadModel rt2 st) as [[g| |] st1]; try done.
    apply (for_each_same _ _ _ Hans).
    apply Forall_forall. intros u Hu.
    apply list_elem_of_In, in_map_iff. exists u.
    split; [done | by apply list_elem_of_In].
Qed.

End Independence.

(** ** The word count on every text *)

Section WordCountFacts.

Lemma proto_is_inherited w :
  str_eqb w (lit "__proto__") = true -> is_inherited w = true.
Proof.
  intros Hw. apply bool_decide_eq_true_1 in Hw. by subst w.
Qed.

Lemma occurrences_other w x words :
  w <> x -> occurrences w (x :: words) = occurrences w words.
Proof.
  intros Hne. rewrite occurrences_cons. unfold str_eqb.
  by rewrite bool_decide_eq_false_2.
Qed.

Lemma counted_below_3' m w : slots_ok m -> counted m w < 3.
Proof.
  intros Hm. unfold counted. destruct (m !! w) as [v|] eqn:Hv; [|lia].
  destruct (Hm w v Hv) as [(n & -> & Hn & _) | [-> _]]; lia.
Qed.

Lemma count_loop_exact wordCounts words :
  slots_ok wordCounts ->
  count_loop wordCounts words = true
  <-> exists w, is_inherited w = false /\ 3 <= length w
        /\ 3 <= counted wordCounts w + occurrences w words.
Proof.
  revert wordCounts. induction words as [|word rest IH]; intros m Hm; simpl.
  - split; [done|]. intros (w & _ & _ & Hc).
    pose proof (counted_below_3' m w Hm). change (occurrences w []) with 0 in Hc.
    lia.
  - destruct (length word <? 3) eqn:Hlen.
    { apply Nat.ltb_lt in Hlen. rewrite IH by done.
      split; intros (w & Hi & Hw & Hc); exists w; (split; [done|]);
        (split; [done|]);
        [rewrite occurrences_other by (intros ->; lia)
        |rewrite occurrences_other in Hc by (intros ->; lia)]; done. }
    apply Nat.ltb_ge in Hlen.
    destruct (is_inherited word) eqn:Hinh.
    + (* an inherited name is never counted *)
      assert (forall w, is_inherited w = false ->
                occurrences w (word :: rest) = occurrences w rest) as Hocc.
      { intros w Hw. apply occurrences_other. intros ->. congruence. }
      assert (increment (read m word) = CText) as Hinc.
      { unfold read. destruct (m !! word) as [v|] eqn:Hv.
        - destruct (Hm word v Hv) as [(n & _ & _ & Hn) | [-> _]];
            [congruence | done].
        - by rewrite Hinh. }
      rewrite Hinc. unfold assign.
      destruct (str_eqb word (lit "__proto__")) eqn:Hproto.
      * assert (at_least_3 (read m word) = false) as ->.
        { unfold read. destruct (m !! word) as [v|] eqn:Hv.
          - destruct (Hm word v Hv) as [(n & _ & _ & Hn) | [-> _]];
              [congruence | done].
          - by rewrite Hinh. }
        rewrite IH by done.
        split; intros (w & Hi & Hw & Hc); exists w; (split; [done|]);
          (split; [done|]);
          [rewrite Hocc by done | rewrite Hocc in Hc by done]; done.
      * unfold read at 1. rewrite lookup_insert_eq. simpl at_least_3.
        rewrite IH.
        -- split; intros (w & Hi & Hw & Hc); exists w; (split; [done|]);
             (split; [done|]); revert Hc; unfold counted;
             rewrite lookup_insert_ne by (intros ->; congruence);
             rewrite Hocc by done; done.
        -- intros w v. destruct (decide (w = word)) as [->|Hne].
           ++ rewrite lookup_insert_eq. intros [= <-]. by right.
           ++ rewrite lookup_insert_ne by done. apply Hm.
    + assert (Hinc : increment (read m word) = CNum (S (counted m word))).
      { unfold read, counted. destruct (m !! word) as [v|] eqn:Hv.
        - destruct (Hm word v Hv) as [(n & -> & _) | [_ Hn]];
            [done | congruence].
        - by rewrite Hinh. }
      rewrite Hinc. unfold assign. rewrite not_inherited_not_proto by done.
      unfold read at 1. rewrite lookup_insert_eq.
      change (at_least_3 (SlotOwn (CNum (S (counted m word)))))
        with (3 <=? S (counted m word)).
      set (m' := <[word := CNum (S (counted m word))]> m).
      assert (Hshift : forall w,
        counted m' w + occurrences w rest
        = counted m w + occurrences w (word :: rest)).
      { intros w. rewrite occurrences_cons. unfold counted, m', str_eqb.
        destruct (decide (w = word)) as [->|Hne].
        - rewrite lookup_insert_eq, bool_decide_eq_true_2 by done.
          cbn beta iota. unfold counted. lia.
        - rewrite lookup_insert_ne, bool_decide_eq_false_2 by done.
          cbn beta iota. unfold counted. lia. }
      destruct (3 <=? S (counted m word)) eqn:Hge.
      * apply Nat.leb_le in Hge. split; [|done]. intros _. exists word.
        split; [done|]. split; [done|]. rewrite occurrences_cons.
        unfold str_eqb. rewrite bool_decide_eq_true_2 by done. lia.
      * apply Nat.leb_gt in Hge. rewrite IH.
        -- by setoid_rewrite Hshift.
        -- intros w v. unfold m'.
           destruct (decide (w = word)) as [->|Hne].
           ++ rewrite lookup_insert_eq. intros [= <-]. left. eauto.
           ++ rewrite lookup_insert_ne by done. apply Hm.
Qed.

Context {tables : CaseTables}.

(** X17.  On every text: [hasWordRepetition] reports repetition exactly
    when the lowercased text has at least 4 tokens and either some
    token of length at least 3 that names no inherited property appears
    3 or more times, or two adjacent two-token windows are identical.
    Tokens such as "constructor" and "__proto__" are never counted. *)
Theorem hasWordRepetition_exact text :
  hasWordRepetition text = true
  <-> 4 <= length (split_ws (toLowerCase text))
      /\ (counted_word_repeats (split_ws (toLowerCase text))
          \/ repeated_window (split_ws (toLowerCase text))).
Proof.
  unfold hasWordRepetition. set (words := split_ws (toLowerCase text)).
  destruct (length words <? 4) eqn:Hlen.
  - apply Nat.ltb_lt in Hlen. split; [done | lia].
  - apply Nat.ltb_ge in Hlen.
    assert (slots_ok ∅) as Hempty by (intros w v; by rewrite lookup_empty).
    pose proof (count_loop_exact ∅ words Hempty) as Hcount.
    pose proof (bigram_loop_spec words (split_ws_no_ws _)) as Hbig.
    unfold counted_word_repeats.
    destruct (count_loop ∅ words).
    + split; [|done]. intros _. split; [done|]. left. by apply Hcount.
    + rewrite Hbig. split; [tauto|]. intros [_ [Hrep|Hwin]]; [|done].
      by apply Hcount in Hrep.
Qed.

End WordCountFacts.

(** ** When the normaliser throws *)

Section NormalizerErrors.

Lemma prop_role_not_null m :
  m <> VNull -> m <> VUndefined ->
  prop (lit "role") m = Ok (opt_prop (lit "role") m).
Proof. by destruct m. Qed.

Lemma find_assistant_throws items e :
  find_assistant items = Throw e
  <-> e = TypeError /\ null_before_own_turn items.
Proof.
  unfold null_before_own_turn.
  induction items as [|m items IH]; simpl.
  - split; [done|]. intros (_ & [|] & ? & ? & ? & _); done.
  - assert ((m = VNull \/ m = VUndefined)
            \/ (m <> VNull /\ m <> VUndefined)) as [Hnull | [Hn Hu]]
      by (destruct m; auto).
    + assert (prop (lit "role") m = Throw TypeError) as ->
        by (by destruct Hnull as [-> | ->]).
      simpl. split.
      * intros [= <-]. split; [done|]. by exists [], m, items.
      * intros [-> _]. done.
    + rewrite prop_role_not_null by done. simpl.
      destruct (is_assistant (opt_prop (lit "role") m)) eqn:Hrole.
      * split; [done|]. intros (_ & pre & x & post & Heq & Hx & Hpre).
        destruct pre as [|y pre]; simpl in Heq; injection Heq as -> ->.
        -- tauto.
        -- apply Forall_cons in Hpre as [(_ & _ & Hy) _].
           unfold own_turn in Hy. congruence.
      * rewrite IH. split.
        -- intros (-> & pre & x & post & -> & Hx & Hpre). split; [done|].
           exists (m :: pre), x, post. split; [done|]. split; [done|].
           by constructor.
        -- intros (-> & pre & x & post & Heq & Hx & Hpre). split; [done|].
           destruct pre as [|y pre]; simpl in Heq; injection Heq as -> ->.
           ++ tauto.
           ++ apply Forall_cons in Hpre as [_ Hpre]. by exists pre, x, post.
Qed.

Lemma find_assistant_returns items :
  (exists a, find_assistant items = Ok a)
  \/ find_assistant items = Throw TypeError.
Proof.
  destruct (find_assistant items) as [a|e|] eqn:Hf.
  - left. by exists a.
  - apply find_assistant_throws in Hf as [-> _]. by right.
  - by apply find_assistant_settles in Hf.
Qed.

Lemma normalize_returns payload :
  (exists text, normalize payload = Ok text)
  \/ normalize payload = Throw TypeError.
Proof.
  assert (forall v, (exists text, finish v = Ok text)
                    \/ finish v = Throw TypeError) as Hfinish.
  { intros v. unfold finish. apply to_string_cases. }
  destruct payload as [| |b|s|items|fields];
    try (rewrite normalize_other by done; apply Hfinish).
  rewrite normalize_array.
  destruct (find_assistant_returns items) as [[a ->] | ->]; cbn [rbind];
    [apply Hfinish | by right].
Qed.

Lemma normalize_output_returns output :
  (exists text, normalize_output output = Ok text)
  \/ normalize_output output = Throw TypeError.
Proof.
  unfold normalize_output.
  destruct (index0 output) as [first|e0|] eqn:Hi; cbn [rbind].
  - apply normalize_returns.
  - right. destruct output as [| | |[|]| |]; simpl in Hi; try done;
      by injection Hi as <-.
  - destruct output as [| | |[|]| |]; done.
Qed.

(** X18.  The normalisation at the end of [generate] returns a string
    or throws a [TypeError], never anything else.  It throws when the
    output of the model call is [null] or [undefined], and when the
    generated text is a list in which a [null] or [undefined] entry
    comes before any entry tagged "assistant".  In every other case it
    throws only where [String] cannot convert what it is given: then
    some object inside the generated text has an own property named
    [toString]. *)
Theorem normalize_output_throws output :
  ((exists text, normalize_output output = Ok text)
   \/ normalize_output output = Throw TypeError)
  /\ (output = VNull \/ output = VUndefined
      \/ (exists first items,
            index0 output = Ok first
            /\ opt_prop (lit "generated_text") first = VArr items
            /\ null_before_own_turn items) ->
      normalize_output output = Throw TypeError)
  /\ (normalize_output output = Throw TypeError ->
      output = VNull \/ output = VUndefined
      \/ exists first,
           index0 output = Ok first
           /\ ((exists items,
                  opt_prop (lit "generated_text") first = VArr items
                  /\ null_before_own_turn items)
               \/ plain (opt_prop (lit "generated_text") first) = false)).
Proof.
  split; [apply normalize_output_returns|]. split.
  - intros [-> | [-> | (first & items & Hi & Hg & Hbad)]]; try reflexivity.
    unfold normalize_output. rewrite Hi. cbn [rbind].
    rewrite Hg, normalize_array.
    assert (find_assistant items = Throw TypeError) as ->
      by (by apply find_assistant_throws).
    reflexivity.
  - unfold normalize_output.
    destruct (index0 output) as [first|e0|] eqn:Hi; cbn [rbind].
    + intros Hthrow. right. right. exists first. split; [done|].
      destruct (plain (opt_prop (lit "generated_text") first)) eqn:Hp;
        [|by right].
      left.
      destruct (opt_prop (lit "generated_text") first)
        as [| |b|s|items|fields] eqn:Hg;
        try (destruct (normalize_plain _ Hp) as [s' Hs'];
             [intros items [=] | congruence]).
      exists items. split; [done|].
      destruct (find_assistant items) as [m|e|] eqn:Hf.
      * destruct (normalize_plain (VArr items) Hp) as [s' Hs'];
          [intros ? [= <-]; by exists m | congruence].
      * by apply find_assistant_throws in Hf as [_ Hbad].
      * by apply find_assistant_settles in Hf.
    + intros _. destruct output as [| | |[|]| |]; simpl in Hi; try done; auto.
    + destruct output as [| | |[|]| |]; done.
Qed.

End NormalizerErrors.

(** ** Line numbers in the lines of a poem *)

Section NumberingFacts.

Lemma star_class_greedy {A} (q : N -> bool) xs tail
    (k : jsstring -> option A) :
  Forall (fun c => q c = true) xs ->
  (forall c, head tail = Some c -> q c = false) ->
  is_Some (k tail) ->
  run (Star (Cls q)) (xs ++ tail) k = k tail.
Proof.
  intros Hxs Htail Hk. rewrite run_star.
  assert (forall fuel, length xs <= fuel ->
            star_loop (Cls q) k fuel (xs ++ tail) = k tail) as Hloop.
  { induction Hxs as [|x xs Hx Hxs IH]; intros fuel Hle.
    - simpl app. destruct fuel as [|fuel]; simpl; [done|].
      destruct tail as [|c t]; [done|]. by rewrite (Htail c eq_refl).
    - destruct fuel as [|fuel]; [simpl in Hle; lia|]. simpl. rewrite Hx.
      rewrite (proj2 (Nat.ltb_lt _ _)) by lia.
      rewrite IH by (simpl in Hle; lia).
      by destruct Hk as [y ->]. }
  apply Hloop. rewrite length_app. lia.
Qed.

Lemma ws_not_digit c : is_ws c = true -> is_digit c = false.
Proof.
  unfold is_ws, is_digit. intros Hc.
  apply andb_false_iff. rewrite !N.leb_gt.
  repeat (apply orb_true_iff in Hc as [Hc|Hc]);
    try (apply andb_prop in Hc as [H1 H2]; apply N.leb_le in H1, H2; lia);
    apply N.eqb_eq in Hc; lia.
Qed.

Lemma digit_not_ws c : is_digit c = true -> is_ws c = false.
Proof.
  intros Hd. destruct (is_ws c) eqn:Hw; [|done].
  apply ws_not_digit in Hw. congruence.
Qed.

Lemma mark_cases c : c ∈ lit ".):" -> c = 46%N \/ c = 41%N \/ c = 58%N.
Proof.
  intros Hc. vm_compute in Hc.
  repeat (apply elem_of_cons in Hc as [Hc|Hc]; [auto|]).
  by apply elem_of_nil in Hc.
Qed.

Lemma blanks_then_text ws rest :
  blanks ws -> (forall c, head rest = Some c -> is_ws c = false) ->
  run (Star space) (ws ++ rest) Some = Some rest.
Proof.
  intros Hws Hrest. rewrite star_space_greedy. f_equal.
  induction Hws as [|w ws Hw _ IH]; simpl.
  - by apply trim_start_id.
  - by rewrite Hw.
Qed.

Lemma head_blanks_text ws rest c :
  blanks ws -> head (ws ++ rest) = Some c ->
  is_ws c = true \/ head rest = Some c.
Proof.
  intros Hws. destruct Hws as [|w ws Hw _]; simpl; [auto|].
  intros [= <-]. auto.
Qed.

Lemma run_cls_cons {A} (q : N -> bool) c s (k : jsstring -> option A) :
  run (Cls q) (c :: s) k = if q c then k s else None.
Proof. reflexivity. Qed.

(** An optional mark and white space, then the text. *)
Lemma mark_then_blanks (q : N -> bool) p ws rest :
  (p = [] \/ exists c, p = [c] /\ q c = true) ->
  (forall c, is_ws c = true -> q c = false) ->
  blanks ws ->
  (forall c, head rest = Some c -> is_ws c = false /\ q c = false) ->
  run (Seq (Opt (Cls q)) (Star space)) (p ++ ws ++ rest) Some = Some rest.
Proof.
  intros Hp Hq Hws Hrest.
  assert (run (Star space) (ws ++ rest) Some = Some rest) as Hspaces.
  { apply blanks_then_text; [done|]. intros c Hc. by apply Hrest. }
  change (run (Seq (Opt (Cls q)) (Star space)) (p ++ ws ++ rest) Some)
    with (match run (Cls q) (p ++ ws ++ rest)
                  (fun s1 => run (Star space) s1 Some) with
          | Some x => Some x
          | None => run (Star space) (p ++ ws ++ rest) Some
          end).
  destruct Hp as [-> | (c & -> & Hc)].
  - change ([] ++ ws ++ rest) with (ws ++ rest). rewrite Hspaces.
    destruct (ws ++ rest) as [|c t] eqn:Heq; [done|].
    assert (q c = false) as Hc.
    { destruct (head_blanks_text ws rest c Hws) as [Hw | Hr].
      - by rewrite Heq.
      - by apply Hq.
      - by apply Hrest. }
    by rewrite run_cls_cons, Hc.
  - change ([c] ++ ws ++ rest) with (c :: ws ++ rest).
    by rewrite run_cls_cons, Hc, Hspaces.
Qed.

(** Digits are taken greedily. *)
Lemma digits_then ds tail (k : jsstring -> option jsstring) :
  digits ds ->
  (forall c, head tail = Some c -> is_digit c = false) ->
  is_Some (k tail) ->
  run (Plus digit) (ds ++ tail) k = k tail.
Proof.
  intros [Hne Hds] Htail Hk.
  destruct Hds as [|d ds Hd Hds]; [done|].
  change (run (Plus digit) ((d :: ds) ++ tail) k)
    with (if is_digit d then run (Star (Cls is_digit)) (ds ++ tail) k
          else None).
  rewrite Hd. by apply star_class_greedy.
Qed.

Lemma numbered_stripped line rest :
  starts_text rest -> numbered line rest ->
  run line_number_prefix line Some = Some rest.
Proof.
  intros Hrest (ds & p & ws & -> & Hds & Hp & Hws).
  assert (run (Seq (Opt (one_of ".):")) (Star space)) (p ++ ws ++ rest) Some
          = Some rest) as Htail.
  { apply mark_then_blanks; [| |done|].
    - destruct Hp as [-> | (c & -> & Hc)]; [by left|]. right. exists c.
      split; [done|].
      destruct (mark_cases c Hc) as [-> | [-> | ->]]; reflexivity.
    - intros c Hc. destruct (existsb _ _) eqn:He; [|done].
      apply existsb_exists in He as (x & Hin & Hx). apply N.eqb_eq in Hx.
      subst x. apply list_elem_of_In, mark_cases in Hin.
      destruct Hin as [-> | [-> | ->]]; done.
    - intros c Hc. destruct (Hrest c Hc) as (Hw & _ & Hm). split; [done|].
      destruct (existsb _ _) eqn:He; [|done].
      apply existsb_exists in He as (x & Hin & Hx). apply N.eqb_eq in Hx.
      subst x. by apply list_elem_of_In in Hin. }
  change (run line_number_prefix (ds ++ p ++ ws ++ rest) Some)
    with (match run (Plus digit) (ds ++ p ++ ws ++ rest)
                  (fun s1 =>
                     run (Seq (Opt (one_of ".):")) (Star space)) s1 Some) with
          | Some x => Some x
          | None =>
              run (Seq (word_i "Line")
                     (Seq (Star space)
                        (Seq (Plus digit)
                           (Seq (Opt (chr 58)) (Star space)))))
                (ds ++ p ++ ws ++ rest) Some
          end).
  rewrite digits_then; [by rewrite Htail|done| |by rewrite Htail].
  intros c Hc. destruct Hp as [-> | (m & -> & Hm)].
  - destruct (head_blanks_text ws rest c Hws Hc) as [Hw | Hr].
    + by apply ws_not_digit.
    + by apply Hrest.
  - injection Hc as <-.
    destruct (mark_cases m Hm) as [-> | [-> | ->]]; reflexivity.
Qed.

Lemma letter_not_digit c x :
  (65 <= x <= 90)%N -> fold_case c = x -> is_digit c = false.
Proof.
  unfold fold_case, is_digit. intros Hx Hc.
  apply andb_false_iff. rewrite !N.leb_gt.
  destruct (_ || _)%bool eqn:H; [|lia].
  apply orb_true_iff in H as [H|H].
  - apply andb_prop in H as [H1 H2]. apply N.leb_le in H1, H2. lia.
  - apply N.eqb_eq in H. lia.
Qed.

Lemma labelled_stripped line rest :
  starts_text rest -> labelled line rest ->
  run line_number_prefix line Some = Some rest.
Proof.
  intros Hrest (l & ws1 & ds & p & ws2 & -> & Hl & Hws1 & Hds & Hp & Hws2).
  assert (run (Seq (Opt (chr 58)) (Star space)) (p ++ ws2 ++ rest) Some
          = Some rest) as Htail.
  { apply mark_then_blanks; [| |done|].
    - destruct Hp as [-> | ->]; [by left|]. right. by exists 58%N.
    - intros c Hc. destruct (c =? 58)%N eqn:He; [|done].
      apply N.eqb_eq in He. by subst c.
    - intros c Hc. destruct (Hrest c Hc) as (Hw & _ & Hm). split; [done|].
      destruct (c =? 58)%N eqn:He; [|done].
      apply N.eqb_eq in He. subst c. exfalso. apply Hm. vm_compute.
      do 2 apply list_elem_of_further. apply list_elem_of_here. }
  assert (run (Plus digit) (ds ++ p ++ ws2 ++ rest)
            (fun s3 => run (Seq (Opt (chr 58)) (Star space)) s3 Some)
          = Some rest) as Hdigits.
  { rewrite digits_then; [done|done| |by rewrite Htail].
    intros c Hc. destruct Hp as [-> | ->].
    - destruct (head_blanks_text ws2 rest c Hws2 Hc) as [Hw | Hr].
      + by apply ws_not_digit.
      + by apply Hrest.
    - by injection Hc as <-. }
  assert (run (Star space) (ws1 ++ ds ++ p ++ ws2 ++ rest)
            (fun s2 => run (Plus digit) s2
               (fun s3 => run (Seq (Opt (chr 58)) (Star space)) s3 Some))
          = Some rest) as Hspaces.
  { assert (forall c, head (ds ++ p ++ ws2 ++ rest) = Some c ->
                is_ws c = false) as Hhead.
    { intros c Hc. destruct Hds as [Hne Hds].
      destruct Hds as [|d ds Hd _]; [done|]. injection Hc as <-.
      by apply digit_not_ws. }
    pose proof (star_class_greedy is_ws ws1 (ds ++ p ++ ws2 ++ rest)
                  (fun s2 => run (Plus digit) s2
                     (fun s3 =>
                        run (Seq (Opt (chr 58)) (Star space)) s3 Some))
                  Hws1 Hhead) as Hgreedy.
    cbv beta in Hgreedy. rewrite Hdigits in Hgreedy. by apply Hgreedy. }
  unfold ci_equal in Hl.
  destruct l as [|a [|b [|c [|d [|? ?]]]]]; try done.
  injection Hl as Ha Hb Hc Hd.
  assert (is_digit a = false) as Hnd
    by (by apply (letter_not_digit a (fold_case 76))).
  change (run line_number_prefix
            ([a; b; c; d] ++ ws1 ++ ds ++ p ++ ws2 ++ rest) Some)
    with (match
            (if is_digit a
             then run (Star digit)
                    ([b; c; d] ++ ws1 ++ ds ++ p ++ ws2 ++ rest)
                    (fun s1 =>
                       run (Seq (Opt (one_of ".):")) (Star space)) s1 Some)
             else None)
          with
          | Some x => Some x
          | None =>
              if (fold_case a =? fold_case 76)%N then
                if (fold_case b =? fold_case 105)%N then
                  if (fold_case c =? fold_case 110)%N then
                    if (fold_case d =? fold_case 101)%N then
                      run (Star space) (ws1 ++ ds ++ p ++ ws2 ++ rest)
                        (fun s2 => run (Plus digit) s2
                           (fun s3 =>
                              run (Seq (Opt (chr 58)) (Star space)) s3 Some))
                    else None
                  else None
                else None
              else None
          end).
  rewrite Hnd, Ha, Hb, Hc, Hd, !N.eqb_refl. exact Hspaces.
Qed.

(** X19.  What the clean-up of line 185 removes from a line of a
    response is a prefix of it.  A line that is some text behind a
    number ("12", "12.", "12)" or "12:" and white space) or behind a
    label ("Line 3:", in any letter case) is cut down to the text,
    provided the text does not itself begin with white space, a digit
    or one of the three marks; so a verse that begins with a number
    loses it.  A line that begins with neither a digit nor the letter L
    is left as it is. *)
Theorem line_number_prefix_removed line :
  strip_prefix line_number_prefix line `suffix_of` line
  /\ (forall rest,
        starts_text rest -> numbered line rest \/ labelled line rest ->
        strip_prefix line_number_prefix line = rest)
  /\ ((forall c, head line = Some c ->
         is_digit c = false /\ fold_case c <> 76%N) ->
      strip_prefix line_number_prefix line = line).
Proof.
  split; [apply strip_prefix_suffix|]. split.
  - intros rest Hrest [Hn | Hl]; unfold strip_prefix.
    + by rewrite (numbered_stripped line rest).
    + by rewrite (labelled_stripped line rest).
  - intros Hhead. unfold strip_prefix.
    destruct line as [|c s]; [done|].
    destruct (Hhead c eq_refl) as [Hd HL].
    change (run line_number_prefix (c :: s) Some)
      with (match
              (if is_digit c
               then run (Star digit) s
                      (fun s1 =>
                         run (Seq (Opt (one_of ".):")) (Star space)) s1 Some)
               else None)
            with
            | Some x => Some x
            | None =>
                if (fold_case c =? 76)%N then
                  run (word_i "ine") s
                    (fun s1 => run (Star space) s1
                       (fun s2 => run (Plus digit) s2
                          (fun s3 =>
                             run (Seq (Opt (chr 58)) (Star space)) s3 Some)))
                else None
            end).
    rewrite Hd. by rewrite (proj2 (N.eqb_neq _ _) HL).
Qed.

End NumberingFacts.

(** ** The statements above on sample runs *)

Lemma model_is_loaded_once_witness :
  modelLoading loaded_at_second = false
  /\ (modelReady loaded_at_second = true
      <-> is_Some (generator loaded_at_second))
  /\ loaded_once flaky_rt loaded_at_second.
Proof.
  apply (model_is_loaded_once (tables := BasicLatin) flaky_rt).
  apply (visited_next flaky_rt
           {| generator := None; modelLoading := false; modelReady := false;
              pipeline_calls := 1; model_calls := 0 |}
           CallLoadModel Returned);
    [|reflexivity|discriminate].
  apply (visited_next flaky_rt initial CallLoadModel (Threw LoadFailed));
    [apply visited_initial|reflexivity|discriminate].
Defined.

Lemma ready_is_kept_witness :
  exists m,
    (run_op (tables := BasicLatin) (stub_rt three_lines)
       (CallGeneratePoem learner) loaded).2 = after_calls m loaded
    /\ isModelReady
         (run_op (tables := BasicLatin) (stub_rt three_lines)
            (CallGeneratePoem learner) loaded).2
       = (Ok true,
          (run_op (tables := BasicLatin) (stub_rt three_lines)
             (CallGeneratePoem learner) loaded).2).
Proof.
  apply (ready_is_kept (tables := BasicLatin) (stub_rt three_lines)
           (CallGeneratePoem learner) loaded).
  split; [reflexivity | by exists 1].
Defined.

Lemma calls_settle_witness :
  (run_op (tables := BasicLatin) (stub_rt three_lines)
     (CallGeneratePredictions learner) initial).1 <> Hung.
Proof.
  apply (calls_settle (tables := BasicLatin) (stub_rt three_lines)
           (CallGeneratePredictions learner) initial).
  - apply visited_initial.
  - split; intros; discriminate.
Defined.

Lemma hung_load_blocks_the_page_witness :
  exists st1,
    run_op (tables := BasicLatin) hanging_rt (CallGeneratePoem learner) initial
    = (Hung, st1)
    /\ isModelReady st1 = (Ok false, st1)
    /\ forall op', needs_model op' = true ->
         run_op (tables := BasicLatin) hanging_rt op' st1 = (Hung, st1).
Proof.
  apply (hung_load_blocks_the_page (tables := BasicLatin) hanging_rt
           (CallGeneratePoem learner) initial); reflexivity.
Defined.

Lemma isModelReady_means_cache_hit_witness :
  (isModelReady loaded).1 = Ok true
  <-> exists h, loadModel (stub_rt three_lines) loaded = (Ok (Some h), loaded).
Proof.
  apply (isModelReady_means_cache_hit (tables := BasicLatin)
           (stub_rt three_lines) loaded).
  apply (visited_next (stub_rt three_lines) initial CallLoadModel Returned);
    [apply visited_initial|reflexivity|discriminate].
Defined.

Lemma load_uses_recommended_device_witness :
  (loadModel (stub_rt three_lines) initial).1
  = match pipeline (stub_rt three_lines) (pipeline_calls initial)
            (recommended (checkBrowserSupport bare_browser)) with
    | Ok h => Ok (Some h)
    | Throw _ => Throw LoadFailed
    | Pending => Pending
    end
  /\ (supported (checkBrowserSupport bare_browser) = false ->
      recommended (checkBrowserSupport bare_browser) = Wasm
      /\ webgpu (checkBrowserSupport bare_browser) = false
      /\ wasm (checkBrowserSupport bare_browser) = false).
Proof.
  apply (load_uses_recommended_device (stub_rt three_lines) bare_browser
           initial); reflexivity.
Defined.

Lemma callers_share_one_handle_witness :
  7 = 7 /\ (Some 7, false, true).1.1 = Some 7.
Proof.
  apply (callers_share_one_handle false 2 (Some 7, false, true)
           [Finished (Ok (Some 7)); Finished (Ok (Some 7))] 0 1 7 7);
    [|reflexivity|reflexivity].
  unfold reachable, fresh_pool, unloaded_vars. simpl.
  eapply rtc_l.
  { apply (pool_step_at false _ _ 0 AtEntry); [reflexivity|].
    by apply (step_start false). }
  eapply rtc_l.
  { apply (pool_step_at false _ _ 1 AtEntry); [reflexivity|].
    by apply (step_wait false). }
  eapply rtc_l.
  { apply (pool_step_at false _ _ 0 (AwaitingPipeline Wasm)); [reflexivity|].
    apply (step_loaded false None true false Wasm 7). }
  eapply rtc_l.
  { apply (pool_step_at false _ _ 1 Polling); [reflexivity|].
    apply (step_poll_done false). }
  apply rtc_refl.
Defined.

Lemma no_duplicate_loads_witness :
  2 = 1 + loads_in_flight [Finished (Throw LoadFailed); AwaitingPipeline Wasm]
      + successes (None, true, false)
  /\ 2 <= 1 + 1.
Proof.
  apply (no_duplicate_loads false 2 2 1 (None, true, false)
           [Finished (Throw LoadFailed); AwaitingPipeline Wasm]).
  apply (interleaving_step false (fresh_pool 2) 1 1
           (None, false, false) [Finished (Throw LoadFailed); AtEntry]
           1 AtEntry (None, true, false) (AwaitingPipeline Wasm));
    [|reflexivity|by apply (step_start false)].
  apply (interleaving_step false (fresh_pool 2) 1 0
           (None, true, false) [AwaitingPipeline Wasm; AtEntry]
           0 (AwaitingPipeline Wasm) (None, false, false)
           (Finished (Throw LoadFailed)));
    [|reflexivity|apply (step_load_failed false)].
  apply (interleaving_step false (fresh_pool 2) 0 0
           (None, false, false) [AtEntry; AtEntry]
           0 AtEntry (None, true, false) (AwaitingPipeline Wasm));
    [|reflexivity|by apply (step_start false)].
  apply interleaving_nil.
Defined.



Lemma poem_is_first_accepted_attempt_witness :
  exists h st1 k,
    loadModel (stub_rt three_lines) initial = (Ok (Some h), st1)
    /\ k <= 5
    /\ (forall j, j < k ->
          poem_rejected (tables := BasicLatin) (stub_rt three_lines) learner h
            (model_calls st1 + j))
    /\ ((k = 5 /\ three_lines = getFallbackPoem (tables := BasicLatin) learner
         /\ after_calls 1 loaded = after_calls 5 st1)
        \/ (k < 5
            /\ poem_accepted (tables := BasicLatin) (stub_rt three_lines)
                 learner h (model_calls st1 + k) three_lines
            /\ after_calls 1 loaded = after_calls (S k) st1)).
Proof.
  apply (poem_is_first_accepted_attempt (tables := BasicLatin)
           (stub_rt three_lines) learner initial three_lines
           (after_calls 1 loaded)).
  vm_compute. reflexivity.
Defined.

Lemma prediction_is_first_accepted_attempt_witness :
  exists k, k <= 5
    /\ (forall j, j < k ->
          prediction_failed (tables := BasicLatin) (stub_rt long_response)
            (start sample_unit) 1 (model_calls loaded + j))
    /\ ((k = 5
         /\ start sample_unit ++ lit " " ++ completion_of long_response
            = fallback sample_unit
         /\ after_calls 1 loaded = after_calls 5 loaded)
        \/ (k < 5
            /\ prediction_accepted (tables := BasicLatin)
                 (stub_rt long_response) (start sample_unit) 1
                 (model_calls loaded + k)
                 (start sample_unit ++ lit " " ++ completion_of long_response)
            /\ after_calls 1 loaded = after_calls (S k) loaded)).
Proof.
  apply (prediction_is_first_accepted_attempt (tables := BasicLatin)
           (stub_rt long_response) sample_unit loaded 1
           (start sample_unit ++ lit " " ++ completion_of long_response)
           (after_calls 1 loaded)).
  - split; [reflexivity | by exists 1].
  - reflexivity.
  - vm_compute. reflexivity.
Defined.

Lemma predictions_call_budget_witness :
  exists h st1 m,
    loadModel (stub_rt long_response) initial = (Ok (Some h), st1)
    /\ ready st1
    /\ pipeline_calls st1 <= S (pipeline_calls initial)
    /\ 4 <= m <= 20
    /\ after_calls 4 loaded = after_calls m st1.
Proof.
  apply (predictions_call_budget (tables := BasicLatin)
           (stub_rt long_response) learner initial
           (List.map
              (fun u => start u ++ lit " " ++ completion_of long_response)
              (prompts learner))
           (after_calls 4 loaded)).
  - reflexivity.
  - vm_compute. reflexivity.
Defined.

Lemma generation_asks_only_its_prompts_witness :
  generatePoem (tables := BasicLatin) (stub_rt three_lines) learner initial
  = generatePoem (tables := BasicLatin) (budget_rt 40 three_lines) learner
      initial.
Proof.
  apply (proj1 (generation_asks_only_its_prompts (tables := BasicLatin)
                  (stub_rt three_lines) (budget_rt 40 three_lines)
                  (conj eq_refl (fun _ _ => eq_refl)) learner initial)).
  intros h n prompt _. reflexivity.
Defined.
